(** * egenome-libs: cache engine, tiered store and fetch orchestration

    A shallow embedding of

    - [core/result.ts] and [core/contracts/key-value-store.ts]
      (module [Core]),
    - [infra/memory/enhanced-memory-store.ts] (module [EnhancedMemoryStore]),
    - [infra/hybrid/multi-tier-store.ts] (module [MultiTierStore]),
    - [use-cases/cache-item.ts] (module [CacheItem]),

    followed by the properties established about them.

    Conventions of the embedding.

    - A JavaScript [number] holding a count, a size or a millisecond
      timestamp is a [Z]; [undefined] is [None].
    - Every asynchronous method becomes a state-passing function
      [args -> now -> state -> result * state] where [now] is the value
      [Date.now()] yields while the method body runs; a method of the
      tiered store hands its [now] to every tier call it makes.
    - A [Map] is an association list in insertion order ([JsMap]).
    - The intrusive doubly linked recency list together with [keyToNode]
      is the list of its keys, head (most recently used) first.
    - Error objects carry their code and context; the rendered message
      text is not modelled.  Logger calls have no effect on any state that
      is modelled and are left out. *)

From Stdlib Require Import ZArith List Ascii String DecimalString Bool Lia.
Import ListNotations.

Local Open Scope Z_scope.

(* ================================================================== *)
(** ** JavaScript [Map] with insertion order *)
(* ================================================================== *)

Module JsMap.

Definition t (A : Type) : Type := list (string * A).

Definition empty {A} : t A := [].

Fixpoint get {A} (key : string) (m : t A) : option A :=
  match m with
  | [] => None
  | (k, a) :: rest => if String.eqb key k then Some a else get key rest
  end.

Definition has {A} (key : string) (m : t A) : bool :=
  match get key m with Some _ => true | None => false end.

(** [Map.prototype.set]: an existing key keeps its position, a new key is
    appended. *)
Fixpoint set {A} (key : string) (a : A) (m : t A) : t A :=
  match m with
  | [] => [(key, a)]
  | (k, b) :: rest =>
      if String.eqb key k then (k, a) :: rest else (k, b) :: set key a rest
  end.

(** [Map.prototype.delete]: no pair with that key remains. *)
Definition delete {A} (key : string) (m : t A) : t A :=
  List.filter (fun p => negb (String.eqb key (fst p))) m.

Definition keys {A} (m : t A) : list string := List.map fst m.

Definition entries {A} (m : t A) : list (string * A) := m.

Definition size {A} (m : t A) : Z := Z.of_nat (List.length m).

End JsMap.

(* ================================================================== *)
(** ** Results, options and the store contract *)
(* ================================================================== *)

Module Core.

(** [Result<T, E> = Success<T> | Failure<E>] *)
Inductive Result (T E : Type) : Type :=
| Ok (value : T)
| Err (error : E).
Arguments Ok {T E} value.
Arguments Err {T E} error.

Definition isOk {T E} (r : Result T E) : bool :=
  match r with Ok _ => true | Err _ => false end.

Inductive StoreErrorCode : Type :=
| CONNECTION_FAILED
| OPERATION_FAILED
| SERIALIZATION_FAILED
| DESERIALIZATION_FAILED
| KEY_NOT_FOUND
| INVALID_KEY.

(** [createStoreError(message, code, { key })] *)
Record StoreError : Type := createStoreError {
  code : StoreErrorCode;
  context_key : option string
}.

(** An absent [options] argument is the record whose fields are all
    [None]. *)
Record SetOptions : Type := mkSetOptions {
  ttlMs : option Z;
  overwrite : option bool
}.

Record GetOptions (V : Type) : Type := mkGetOptions {
  refreshTtl : option bool;
  defaultValue : option V
}.
Arguments mkGetOptions {V} refreshTtl defaultValue.
Arguments refreshTtl {V} g.
Arguments defaultValue {V} g.

Definition noSetOptions : SetOptions := mkSetOptions None None.
Definition noGetOptions {V} : GetOptions V := mkGetOptions None None.

Record ValueMetadata : Type := mkValueMetadata {
  createdAt : Z;
  lastAccessedAt : Z;
  expiresAt : option Z;
  sizeBytes : Z;
  accessCount : Z
}.

Record BatchSetOperation (V : Type) : Type := mkBatchSetOperation {
  op_key : string;
  op_value : V;
  op_options : SetOptions
}.
Arguments mkBatchSetOperation {V} op_key op_value op_options.
Arguments op_key {V} b.
Arguments op_value {V} b.
Arguments op_options {V} b.

Record BatchResult : Type := mkBatchResult {
  successful : list string;
  failed : list (string * StoreError)
}.

(** Truthiness of an optional number: [undefined] and [0] are falsy. *)
Definition truthy (n : option Z) : bool :=
  match n with
  | Some z => negb (z =? 0)
  | None => false
  end.

(** [x || 0] on an optional number. *)
Definition orZero (n : option Z) : Z :=
  match n with Some z => z | None => 0 end.

(** [x ?? d] *)
Definition nullish {A} (x : option A) (d : A) : A :=
  match x with Some a => a | None => d end.

(** [options?.flag] used as a condition. *)
Definition flag (b : option bool) : bool :=
  match b with Some true => true | _ => false end.

(** [options?.overwrite === false] *)
Definition isFalse (b : option bool) : bool :=
  match b with Some false => true | _ => false end.

(** The part of [IKeyValueStore<V>] the tiered store and the use cases
    call.  A store is a state type [St] with state-passing methods; the
    contract lets no method throw, so an outcome is always a [Result]. *)
Class IKeyValueStore (V St : Type) : Type := {
  get : string -> GetOptions V -> Z -> St ->
        Result (option V) StoreError * St;
  set : string -> V -> SetOptions -> Z -> St ->
        Result unit StoreError * St;
  has : string -> Z -> St -> Result bool StoreError * St;
  delete : string -> Z -> St -> Result bool StoreError * St;
  mset : list (BatchSetOperation V) -> Z -> St ->
         Result BatchResult StoreError * St
}.

(** [JSON.stringify(value).length], or [None] where that expression
    throws (a cyclic object, a [BigInt], a value [JSON.stringify] maps to
    [undefined]). *)
Class JsonValue (V : Type) : Type :=
  jsonLength : V -> option Z.

(** [new RegExp(source)]: [None] where the constructor throws a
    [SyntaxError], otherwise the [test] method of the regular
    expression. *)
Class RegExpEngine : Type :=
  newRegExp : string -> option (string -> bool).

(** [StoredValue<V>] *)
Record StoredValue (V : Type) : Type := mkStoredValue {
  sv_value : V;
  sv_metadata : ValueMetadata
}.
Arguments mkStoredValue {V} sv_value sv_metadata.
Arguments sv_value {V} s.
Arguments sv_metadata {V} s.

(** [getWithMetadata] of [IKeyValueStore<V>], which
    [cacheWithInvalidation] calls. *)
Class IMetadataStore (V St : Type) : Type :=
  getWithMetadata : string -> Z -> St ->
                    Result (option (StoredValue V)) StoreError * St.

(** *** [ResultUtils] *)

Definition map {T U E} (result : Result T E) (fn : T -> U) : Result U E :=
  match result with
  | Ok v => Ok (fn v)
  | Err e => Err e
  end.

Definition flatMap {T U E} (result : Result T E) (fn : T -> Result U E)
  : Result U E :=
  match result with
  | Ok v => fn v
  | Err e => Err e
  end.

Definition unwrapOr {T E} (result : Result T E) (defaultValue : T) : T :=
  match result with
  | Ok v => v
  | Err _ => defaultValue
  end.

(** [ResultUtils.all]: the values in order, or the first error met. *)
Fixpoint allFrom {T E} (results : list (Result T E)) (values : list T)
  : Result (list T) E :=
  match results with
  | [] => Ok values
  | Ok v :: rest => allFrom rest (values ++ [v])
  | Err e :: _ => Err e
  end.

Definition all {T E} (results : list (Result T E)) : Result (list T) E :=
  allFrom results [].

End Core.

(* ================================================================== *)
(** ** The cache engine: [EnhancedMemoryStore] *)
(* ================================================================== *)

Module EnhancedMemoryStore.
Import Core.

Record MemoryStoreConfig : Type := mkMemoryStoreConfig {
  maxMemoryBytes : option Z;
  cleanupIntervalMs : option Z;
  autoCleanup : option bool
}.

Definition noConfig : MemoryStoreConfig :=
  mkMemoryStoreConfig None None None.

Record InMemoryEntry (V : Type) : Type := mkEntry {
  value : V;
  metadata : ValueMetadata
}.
Arguments mkEntry {V} value metadata.
Arguments value {V} i.
Arguments metadata {V} i.

Record Stats : Type := mkStats {
  keyCount : Z;
  memoryUsageBytes : Z;
  hits : Z;
  misses : Z;
  evictions : Z;
  expirations : Z
}.

(** The instance state.  [lru] lists the keys of the recency list from
    [lruHead.next] to [lruTail.prev]. *)
Record t (V : Type) : Type := mkStore {
  config : MemoryStoreConfig;
  map : JsMap.t (InMemoryEntry V);
  lru : list string;
  stats : Stats
}.
Arguments mkStore {V} config map lru stats.
Arguments config {V} t.
Arguments map {V} t.
Arguments lru {V} t.
Arguments stats {V} t.

(** [new EnhancedMemoryStore(config)] *)
Definition create {V} (cfg : MemoryStoreConfig) : t V :=
  mkStore cfg JsMap.empty [] (mkStats 0 0 0 0 0 0).

Section Engine.
Context {V : Type} `{JV : JsonValue V}.

(** *** Private helpers *)

Definition isExpired (now : Z) (entry : InMemoryEntry V) : bool :=
  match expiresAt (metadata entry) with
  | Some e => e <=? now
  | None => false
  end.

(** [JSON.stringify(value).length * 2] *)
Definition calculateSize (v : V) : option Z :=
  match jsonLength v with
  | Some n => Some (n * 2)
  | None => None
  end.

(** Unlinks the node of [key], when there is one. *)
Definition removeFromLRU (key : string) (l : list string) : list string :=
  List.filter (fun k => negb (String.eqb key k)) l.

(** Unlinks the node of [key] or creates it, then links it after the
    head. *)
Definition moveToHead (key : string) (l : list string) : list string :=
  key :: removeFromLRU key l.

Definition withStats (f : Stats -> Stats) (st : t V) : t V :=
  mkStore (config st) (map st) (lru st) (f (stats st)).

Definition countMiss (s : Stats) : Stats :=
  mkStats (keyCount s) (memoryUsageBytes s) (hits s) (misses s + 1)
          (evictions s) (expirations s).

Definition countHit (s : Stats) : Stats :=
  mkStats (keyCount s) (memoryUsageBytes s) (hits s + 1) (misses s)
          (evictions s) (expirations s).

Definition countExpiration (s : Stats) : Stats :=
  mkStats (keyCount s) (memoryUsageBytes s) (hits s) (misses s)
          (evictions s) (expirations s + 1).

Definition countEviction (s : Stats) : Stats :=
  mkStats (keyCount s) (memoryUsageBytes s) (hits s) (misses s)
          (evictions s + 1) (expirations s).

(** [keyCount--; memoryUsageBytes -= size] *)
Definition release (size : Z) (s : Stats) : Stats :=
  mkStats (keyCount s - 1) (memoryUsageBytes s - size) (hits s) (misses s)
          (evictions s) (expirations s).

(** [this.map.delete(key); this.removeFromLRU(key)] *)
Definition unlink (key : string) (st : t V) : t V :=
  mkStore (config st) (JsMap.delete key (map st))
          (removeFromLRU key (lru st)) (stats st).

(** The statements shared by the expiry branch of [has], [getTtl],
    [sizeof] and [updateTtl]: unlink and [expirations++]. *)
Definition expire (key : string) (st : t V) : t V :=
  withStats countExpiration (unlink key st).

(** *** get *)

Definition touch (now : Z) (refresh : bool) (md : ValueMetadata)
  : ValueMetadata :=
  let expires :=
    if refresh && truthy (expiresAt md) then
      let originalTtl := orZero (expiresAt md) - createdAt md in
      Some (now + originalTtl)
    else expiresAt md in
  mkValueMetadata (createdAt md) now expires (sizeBytes md)
                  (accessCount md + 1).

Definition get (key : string) (options : GetOptions V) (now : Z) (st : t V)
  : Result (option V) StoreError * t V :=
  match JsMap.get key (map st) with
  | None => (Ok (defaultValue options), withStats countMiss st)
  | Some entry =>
      if isExpired now entry then
        (Ok (defaultValue options),
         withStats countMiss (withStats countExpiration (unlink key st)))
      else
        let entry' :=
          mkEntry (value entry)
                  (touch now (flag (refreshTtl options)) (metadata entry)) in
        (Ok (Some (value entry)),
         mkStore (config st) (JsMap.set key entry' (map st))
                 (moveToHead key (lru st)) (countHit (stats st)))
  end.

(** *** evict *)

(** The walk of [evict] from [lruTail.prev] towards the head, over the
    nodes not yet visited. *)
Fixpoint evictWalk (nodes : list string) (count evicted : Z) (st : t V)
  : list string * t V :=
  match nodes with
  | [] => ([], st)
  | key :: rest =>
      if evicted <? count then
        match JsMap.get key (map st) with
        | Some entry =>
            let st1 := withStats countEviction
                         (withStats (release (sizeBytes (metadata entry)))
                            (unlink key st)) in
            let '(ks, st2) := evictWalk rest count (evicted + 1) st1 in
            (key :: ks, st2)
        | None => evictWalk rest count evicted st
        end
      else ([], st)
  end.

Definition evict (count : Z) (st : t V)
  : Result (list string) StoreError * t V :=
  let '(ks, st') := evictWalk (List.rev (lru st)) count 0 st in
  (Ok ks, st').

(** The loop of [evictToMakeSpace]; [target = None] stands for
    [Infinity - requiredBytes].  [None] is returned when [fuel] iterations
    did not reach the exit of the loop. *)
Fixpoint evictLoop (fuel : nat) (target : option Z) (st : t V)
  : option (t V) :=
  match fuel with
  | O => None
  | S fuel' =>
      let over :=
        match target with
        | Some tb => memoryUsageBytes (stats st) >? tb
        | None => false
        end in
      if over then
        match evict 10 st with
        | (Ok [], st') => Some st'
        | (_, st') => evictLoop fuel' target st'
        end
      else Some st
  end.

(** [evictToMakeSpace(requiredBytes)].  Every iteration that does not
    leave the loop unlinks a node, so one more iteration than there are
    nodes always suffices (lemma [evictLoop_total]). *)
Definition evictToMakeSpace (requiredBytes : Z) (st : t V) : t V :=
  let target :=
    if truthy (maxMemoryBytes (config st))
    then Some (orZero (maxMemoryBytes (config st)) - requiredBytes)
    else None in
  match evictLoop (S (List.length (lru st))) target st with
  | Some st' => st'
  | None => st
  end.

(** *** set *)

Definition existingSize (existing : option (InMemoryEntry V)) : Z :=
  match existing with
  | Some e => sizeBytes (metadata e)
  | None => 0
  end.

Definition set (key : string) (v : V) (options : SetOptions) (now : Z)
  (st : t V) : Result unit StoreError * t V :=
  let existing := JsMap.get key (map st) in
  match existing, isFalse (overwrite options) with
  | Some _, true =>
      (Err (createStoreError OPERATION_FAILED (Some key)), st)
  | _, _ =>
      match calculateSize v with
      | None => (Err (createStoreError OPERATION_FAILED (Some key)), st)
      | Some size =>
          let st1 :=
            if truthy (maxMemoryBytes (config st)) &&
               (memoryUsageBytes (stats st) + size - existingSize existing
                >? orZero (maxMemoryBytes (config st)))
            then evictToMakeSpace size st
            else st in
          let md :=
            mkValueMetadata now now
              (if truthy (ttlMs options)
               then Some (now + orZero (ttlMs options)) else None)
              size 1 in
          let s := stats st1 in
          (Ok tt,
           mkStore (config st1)
                   (JsMap.set key (mkEntry v md) (map st1))
                   (moveToHead key (lru st1))
                   (mkStats
                      (match existing with
                       | None => keyCount s + 1
                       | Some _ => keyCount s
                       end)
                      (memoryUsageBytes s + (size - existingSize existing))
                      (hits s) (misses s) (evictions s) (expirations s)))
      end
  end.

(** *** has, delete, clear *)

Definition has (key : string) (now : Z) (st : t V)
  : Result bool StoreError * t V :=
  match JsMap.get key (map st) with
  | None => (Ok false, st)
  | Some entry =>
      if isExpired now entry then (Ok false, expire key st)
      else (Ok true, st)
  end.

Definition delete (key : string) (now : Z) (st : t V)
  : Result bool StoreError * t V :=
  match JsMap.get key (map st) with
  | None => (Ok false, st)
  | Some entry =>
      (Ok true,
       withStats (release (sizeBytes (metadata entry))) (unlink key st))
  end.

Definition clear (st : t V) : Result unit StoreError * t V :=
  let s := stats st in
  (Ok tt,
   mkStore (config st) JsMap.empty []
           (mkStats 0 0 (hits s) (misses s) (evictions s) (expirations s))).

(** *** mset *)

Fixpoint msetLoop (operations : list (BatchSetOperation V)) (now : Z)
  (st : t V) : BatchResult * t V :=
  match operations with
  | [] => (mkBatchResult [] [], st)
  | op :: rest =>
      let '(r, st1) := set (op_key op) (op_value op) (op_options op) now st in
      let '(br, st2) := msetLoop rest now st1 in
      match r with
      | Ok _ => (mkBatchResult (op_key op :: successful br) (failed br), st2)
      | Err e =>
          (mkBatchResult (successful br) ((op_key op, e) :: failed br), st2)
      end
  end.

Definition mset (operations : list (BatchSetOperation V)) (now : Z)
  (st : t V) : Result BatchResult StoreError * t V :=
  let '(br, st') := msetLoop operations now st in (Ok br, st').

(** *** updateTtl, getTtl, sizeof *)

Definition updateTtl (key : string) (ttl : Z) (now : Z) (st : t V)
  : Result bool StoreError * t V :=
  match JsMap.get key (map st) with
  | None => (Ok false, st)
  | Some entry =>
      if isExpired now entry then (Ok false, expire key st)
      else
        let md := metadata entry in
        let md' := mkValueMetadata (createdAt md) (lastAccessedAt md)
                     (Some (now + ttl)) (sizeBytes md) (accessCount md) in
        (Ok true,
         mkStore (config st)
                 (JsMap.set key (mkEntry (value entry) md') (map st))
                 (lru st) (stats st))
  end.

Definition getTtl (key : string) (now : Z) (st : t V)
  : Result (option Z) StoreError * t V :=
  match JsMap.get key (map st) with
  | None => (Ok None, st)
  | Some entry =>
      if isExpired now entry then (Ok None, expire key st)
      else if negb (truthy (expiresAt (metadata entry))) then (Ok None, st)
      else (Ok (Some (Z.max 0 (orZero (expiresAt (metadata entry)) - now))),
            st)
  end.

Definition sizeof (key : string) (now : Z) (st : t V)
  : Result (option Z) StoreError * t V :=
  match JsMap.get key (map st) with
  | None => (Ok None, st)
  | Some entry =>
      if isExpired now entry then (Ok None, expire key st)
      else (Ok (Some (sizeBytes (metadata entry))), st)
  end.

(** *** keys *)

(** [pattern.replace(/\*/g, '.*')] *)
Fixpoint replaceStars (pattern : string) : string :=
  match pattern with
  | EmptyString => EmptyString
  | String c rest =>
      if Ascii.eqb c "*"%char
      then String "."%char (String "*"%char (replaceStars rest))
      else String c (replaceStars rest)
  end.

Definition keys `{RE : RegExpEngine} (pattern : option string) (st : t V)
  : Result (list string) StoreError :=
  let allKeys := JsMap.keys (map st) in
  match pattern with
  | None => Ok allKeys
  | Some EmptyString => Ok allKeys
  | Some p =>
      match newRegExp (replaceStars p) with
      | Some test => Ok (List.filter test allKeys)
      | None => Err (createStoreError OPERATION_FAILED None)
      end
  end.

(** *** cleanup *)

Fixpoint cleanupLoop (entries : list (string * InMemoryEntry V)) (now : Z)
  (expiredCount : Z) (st : t V) : Z * t V :=
  match entries with
  | [] => (expiredCount, st)
  | (key, entry) :: rest =>
      let e := expiresAt (metadata entry) in
      if truthy e && (orZero e <=? now) then
        cleanupLoop rest now (expiredCount + 1)
          (withStats countExpiration
             (withStats (release (sizeBytes (metadata entry)))
                (unlink key st)))
      else cleanupLoop rest now expiredCount st
  end.

Definition cleanup (now : Z) (st : t V) : Result Z StoreError * t V :=
  let '(n, st') := cleanupLoop (JsMap.entries (map st)) now 0 st in
  (Ok n, st').

(** The engine as an [IKeyValueStore]. *)
#[global] Instance store : IKeyValueStore V (t V) := {|
  Core.get := get;
  Core.set := set;
  Core.has := has;
  Core.delete := delete;
  Core.mset := mset
|}.

(** *** getWithMetadata *)

Definition getWithMetadata (key : string) (now : Z) (st : t V)
  : Result (option (StoredValue V)) StoreError * t V :=
  match JsMap.get key (map st) with
  | None => (Ok None, withStats countMiss st)
  | Some entry =>
      if isExpired now entry then
        (Ok None,
         withStats countMiss (withStats countExpiration (unlink key st)))
      else
        (Ok (Some (mkStoredValue (value entry) (metadata entry))),
         withStats countHit st)
  end.

#[global] Instance metadataStore : IMetadataStore V (t V) := getWithMetadata.

(** *** mget, mdel *)

Fixpoint mgetLoop (keys : list string) (options : GetOptions V) (now : Z)
  (st : t V) (result : JsMap.t V) : JsMap.t V * t V :=
  match keys with
  | [] => (result, st)
  | key :: rest =>
      let '(getResult, st1) := get key options now st in
      match getResult with
      | Ok (Some v) => mgetLoop rest options now st1 (JsMap.set key v result)
      | _ => mgetLoop rest options now st1 result
      end
  end.

Definition mget (keys : list string) (options : GetOptions V) (now : Z)
  (st : t V) : Result (JsMap.t V) StoreError * t V :=
  let '(result, st') := mgetLoop keys options now st JsMap.empty in
  (Ok result, st').

Fixpoint mdelLoop (keys : list string) (now : Z) (st : t V)
  : BatchResult * t V :=
  match keys with
  | [] => (mkBatchResult [] [], st)
  | key :: rest =>
      let '(delResult, st1) := delete key now st in
      let '(br, st2) := mdelLoop rest now st1 in
      match delResult with
      | Ok true => (mkBatchResult (key :: successful br) (failed br), st2)
      | Ok false => (br, st2)
      | Err e =>
          (mkBatchResult (successful br) ((key, e) :: failed br), st2)
      end
  end.

Definition mdel (keys : list string) (now : Z) (st : t V)
  : Result BatchResult StoreError * t V :=
  let '(br, st') := mdelLoop keys now st in (Ok br, st').

(** *** getLruKeys *)

(** The walk of [getLruKeys] from [lruTail.prev] towards the head. *)
Fixpoint lruWalk (nodes : list string) (count collected : Z) : list string :=
  match nodes with
  | [] => []
  | key :: rest =>
      if collected <? count
      then key :: lruWalk rest count (collected + 1)
      else []
  end.

Definition getLruKeys (count : Z) (st : t V)
  : Result (list string) StoreError :=
  Ok (lruWalk (List.rev (lru st)) count 0).

End Engine.

(** *** What the statistics are meant to count *)

Definition totalSize {V} (m : JsMap.t (InMemoryEntry V)) : Z :=
  List.fold_right (fun p acc => sizeBytes (metadata (snd p)) + acc) 0 m.

Definition statsConsistent {V} (st : t V) : Prop :=
  keyCount (stats st) = JsMap.size (map st) /\
  memoryUsageBytes (stats st) = totalSize (map st).

(** The map and the recency list hold the same keys, each of them once. *)
Definition wellFormed {V} (st : t V) : Prop :=
  NoDup (JsMap.keys (map st)) /\
  NoDup (lru st) /\
  (forall k, In k (lru st) <-> In k (JsMap.keys (map st))).

End EnhancedMemoryStore.

(* ================================================================== *)
(** ** The legacy store: [InMemoryStore] *)
(* ================================================================== *)

Module InMemoryStore.
Import Core.

(** The instance state: [map]. *)
Definition t (V : Type) : Type := JsMap.t V.

Definition create {V} : t V := JsMap.empty.

Section Legacy.
Context {V : Type}.

Definition get (key : string) (options : GetOptions V) (now : Z) (st : t V)
  : Result (option V) StoreError * t V :=
  (Ok (match JsMap.get key st with
       | Some v => Some v
       | None => defaultValue options
       end), st).

Definition set (key : string) (v : V) (options : SetOptions) (now : Z)
  (st : t V) : Result unit StoreError * t V :=
  if JsMap.has key st && isFalse (overwrite options)
  then (Err (createStoreError OPERATION_FAILED (Some key)), st)
  else (Ok tt, JsMap.set key v st).

Definition has (key : string) (now : Z) (st : t V)
  : Result bool StoreError * t V :=
  (Ok (JsMap.has key st), st).

Definition delete (key : string) (now : Z) (st : t V)
  : Result bool StoreError * t V :=
  (Ok (JsMap.has key st), JsMap.delete key st).

Definition clear (st : t V) : Result unit StoreError * t V :=
  (Ok tt, JsMap.empty).

Fixpoint msetLoop (operations : list (BatchSetOperation V)) (now : Z)
  (st : t V) : BatchResult * t V :=
  match operations with
  | [] => (mkBatchResult [] [], st)
  | op :: rest =>
      let '(r, st1) := set (op_key op) (op_value op) (op_options op) now st in
      let '(br, st2) := msetLoop rest now st1 in
      match r with
      | Ok _ => (mkBatchResult (op_key op :: successful br) (failed br), st2)
      | Err e =>
          (mkBatchResult (successful br) ((op_key op, e) :: failed br), st2)
      end
  end.

Definition mset (operations : list (BatchSetOperation V)) (now : Z)
  (st : t V) : Result BatchResult StoreError * t V :=
  let '(br, st') := msetLoop operations now st in (Ok br, st').

#[global] Instance store : IKeyValueStore V (t V) := {|
  Core.get := get;
  Core.set := set;
  Core.has := has;
  Core.delete := delete;
  Core.mset := mset
|}.

End Legacy.

End InMemoryStore.

(* ================================================================== *)
(** ** The tiered store: [MultiTierStore] *)
(* ================================================================== *)

Module MultiTierStore.
Import Core.

Record MultiTierConfig : Type := mkMultiTierConfig {
  l1TtlMs : option Z;
  l2TtlMs : option Z;
  populateL1OnL2Hit : option bool;
  writeThrough : option bool;
  writeBehind : option bool;
  writeBehindDelayMs : option Z
}.

(** [Required<MultiTierConfig>], as the constructor fills it in. *)
Record Config : Type := mkConfig {
  cfg_l1TtlMs : Z;
  cfg_l2TtlMs : Z;
  cfg_populateL1OnL2Hit : bool;
  cfg_writeThrough : bool;
  cfg_writeBehind : bool;
  cfg_writeBehindDelayMs : Z
}.

Definition resolveConfig (c : MultiTierConfig) : Config :=
  mkConfig (nullish (l1TtlMs c) (60 * 1000))
           (nullish (l2TtlMs c) (60 * 60 * 1000))
           (nullish (populateL1OnL2Hit c) true)
           (nullish (writeThrough c) true)
           (nullish (writeBehind c) false)
           (nullish (writeBehindDelayMs c) 5000).

Record QueueItem (V : Type) : Type := mkQueueItem {
  q_value : V;
  q_options : SetOptions;
  q_timestamp : Z
}.
Arguments mkQueueItem {V} q_value q_options q_timestamp.
Arguments q_value {V} q.
Arguments q_options {V} q.
Arguments q_timestamp {V} q.

Record t (V St1 St2 : Type) : Type := mkStore {
  l1Cache : St1;
  l2Cache : St2;
  config : Config;
  writeBehindQueue : JsMap.t (QueueItem V)
}.
Arguments mkStore {V St1 St2} l1Cache l2Cache config writeBehindQueue.
Arguments l1Cache {V St1 St2} t.
Arguments l2Cache {V St1 St2} t.
Arguments config {V St1 St2} t.
Arguments writeBehindQueue {V St1 St2} t.

(** [new MultiTierStore(l1Cache, l2Cache, config)] *)
Definition create {V St1 St2} (l1 : St1) (l2 : St2) (c : MultiTierConfig)
  : t V St1 St2 :=
  mkStore l1 l2 (resolveConfig c) JsMap.empty.

Section Tiers.
Context {V St1 St2 : Type}.
Context `{L1 : IKeyValueStore V St1} `{L2 : IKeyValueStore V St2}.

Definition withL1 (l1 : St1) (st : t V St1 St2) : t V St1 St2 :=
  mkStore l1 (l2Cache st) (config st) (writeBehindQueue st).

Definition withL2 (l2 : St2) (st : t V St1 St2) : t V St1 St2 :=
  mkStore (l1Cache st) l2 (config st) (writeBehindQueue st).

Definition withQueue (q : JsMap.t (QueueItem V)) (st : t V St1 St2)
  : t V St1 St2 :=
  mkStore (l1Cache st) (l2Cache st) (config st) q.

(** *** get (read-through) *)

Definition get (key : string) (options : GetOptions V) (now : Z)
  (st : t V St1 St2) : Result (option V) StoreError * t V St1 St2 :=
  let '(l1Result, l1) := Core.get key options now (l1Cache st) in
  let st1 := withL1 l1 st in
  match l1Result with
  | Ok (Some _) => (l1Result, st1)
  | _ =>
      let '(l2Result, l2) := Core.get key options now (l2Cache st1) in
      let st2 := withL2 l2 st1 in
      match l2Result with
      | Err _ => (l2Result, st2)
      | Ok (Some v) =>
          if cfg_populateL1OnL2Hit (config st2) then
            let '(_, l1') :=
              Core.set key v
                (mkSetOptions (Some (cfg_l1TtlMs (config st2))) (Some true))
                now (l1Cache st2) in
            (l2Result, withL1 l1' st2)
          else (l2Result, st2)
      | Ok None => (Ok (defaultValue options), st2)
      end
  end.

(** *** The write-behind queue *)

Definition queueWriteBehind (key : string) (v : V) (options : SetOptions)
  (now : Z) (st : t V St1 St2) : t V St1 St2 :=
  withQueue (JsMap.set key (mkQueueItem v options now) (writeBehindQueue st))
            st.

(** The batch [processWriteBehindQueue] builds from the queue. *)
Definition queuedOperations (q : JsMap.t (QueueItem V))
  : list (BatchSetOperation V) :=
  List.map (fun p => mkBatchSetOperation (fst p) (q_value (snd p))
                                         (q_options (snd p)))
           (JsMap.entries q).

(** One run of the flush task.  The outcome of [l2Cache.mset] is not
    inspected; the keys of the batch leave the queue once it returns. *)
Definition processWriteBehindQueue (now : Z) (st : t V St1 St2)
  : t V St1 St2 :=
  if JsMap.size (writeBehindQueue st) =? 0 then st
  else
    let operations := queuedOperations (writeBehindQueue st) in
    let keysToRemove := JsMap.keys (writeBehindQueue st) in
    let '(_, l2) := Core.mset operations now (l2Cache st) in
    let st1 := withL2 l2 st in
    withQueue (List.fold_left (fun q k => JsMap.delete k q) keysToRemove
                              (writeBehindQueue st1))
              st1.

(** *** set *)

Definition set (key : string) (v : V) (options : SetOptions) (now : Z)
  (st : t V St1 St2) : Result unit StoreError * t V St1 St2 :=
  let '(l1SetResult, l1) :=
    Core.set key v
      (mkSetOptions
         (Some (nullish (ttlMs options) (cfg_l1TtlMs (config st))))
         (overwrite options))
      now (l1Cache st) in
  let st1 := withL1 l1 st in
  match l1SetResult with
  | Err _ => (l1SetResult, st1)
  | Ok _ =>
      let l2Options :=
        mkSetOptions
          (Some (nullish (ttlMs options) (cfg_l2TtlMs (config st1))))
          (overwrite options) in
      if cfg_writeThrough (config st1) then
        let '(_, l2) := Core.set key v l2Options now (l2Cache st1) in
        (Ok tt, withL2 l2 st1)
      else if cfg_writeBehind (config st1) then
        (Ok tt, queueWriteBehind key v l2Options now st1)
      else (Ok tt, st1)
  end.

(** *** has, delete *)

Definition has (key : string) (now : Z) (st : t V St1 St2)
  : Result bool StoreError * t V St1 St2 :=
  let '(l1Result, l1) := Core.has key now (l1Cache st) in
  let st1 := withL1 l1 st in
  match l1Result with
  | Ok true => (Ok true, st1)
  | _ =>
      let '(l2Result, l2) := Core.has key now (l2Cache st1) in
      (l2Result, withL2 l2 st1)
  end.

Definition delete (key : string) (now : Z) (st : t V St1 St2)
  : Result bool StoreError * t V St1 St2 :=
  let '(l1Result, l1) := Core.delete key now (l1Cache st) in
  let deleted1 := match l1Result with Ok true => true | _ => false end in
  let '(l2Result, l2) := Core.delete key now (l2Cache st) in
  let deleted2 := match l2Result with Ok true => true | _ => deleted1 end in
  (Ok deleted2,
   mkStore l1 l2 (config st) (JsMap.delete key (writeBehindQueue st))).

(** *** mset *)

Definition withTtl (d : Z) (op : BatchSetOperation V) : BatchSetOperation V :=
  mkBatchSetOperation (op_key op) (op_value op)
    (mkSetOptions (Some (nullish (ttlMs (op_options op)) d))
                  (overwrite (op_options op))).

Definition mset (operations : list (BatchSetOperation V)) (now : Z)
  (st : t V St1 St2) : Result BatchResult StoreError * t V St1 St2 :=
  let l1Operations := List.map (withTtl (cfg_l1TtlMs (config st))) operations in
  let l2Operations := List.map (withTtl (cfg_l2TtlMs (config st))) operations in
  let '(l1Result, l1) := Core.mset l1Operations now (l1Cache st) in
  let st1 := withL1 l1 st in
  match l1Result with
  | Err _ => (l1Result, st1)
  | Ok _ =>
      if cfg_writeThrough (config st1) then
        let '(_, l2) := Core.mset l2Operations now (l2Cache st1) in
        (l1Result, withL2 l2 st1)
      else if cfg_writeBehind (config st1) then
        (l1Result,
         List.fold_left
           (fun s op =>
              queueWriteBehind (op_key op) (op_value op) (op_options op) now s)
           operations st1)
      else (l1Result, st1)
  end.

(** The tiered store is itself an [IKeyValueStore]. *)
#[global] Instance store : IKeyValueStore V (t V St1 St2) := {|
  Core.get := get;
  Core.set := set;
  Core.has := has;
  Core.delete := delete;
  Core.mset := mset
|}.

End Tiers.

End MultiTierStore.

(* ================================================================== *)
(** ** The namespacing decorator: [NamespacedStore] *)
(* ================================================================== *)

Module NamespacedStore.
Import Core.

Record t (St : Type) : Type := mkStore {
  inner : St;
  ns : string
}.
Arguments mkStore {St} inner ns.
Arguments inner {St} t.
Arguments ns {St} t.

(** [`${ns}:${key}`] *)
Definition k (ns key : string) : string :=
  String.append ns (String ":"%char key).

(** [namespacedKey.slice(n)] *)
Fixpoint slice (n : nat) (s : string) : string :=
  match n, s with
  | O, _ => s
  | S n', String _ rest => slice n' rest
  | S _, EmptyString => EmptyString
  end.

Definition unk (ns namespacedKey : string) : string :=
  let prefix := String.append ns (String ":"%char EmptyString) in
  if String.prefix prefix namespacedKey
  then slice (String.length prefix) namespacedKey
  else namespacedKey.

Section Decorator.
Context {V St : Type} `{Inner : IKeyValueStore V St}.

Definition lift {R : Type} (run : St -> R * St) (st : t St) : R * t St :=
  let '(r, s) := run (inner st) in (r, mkStore s (ns st)).

Definition get (key : string) (options : GetOptions V) (now : Z) (st : t St)
  : Result (option V) StoreError * t St :=
  lift (Core.get (k (ns st) key) options now) st.

Definition set (key : string) (v : V) (options : SetOptions) (now : Z)
  (st : t St) : Result unit StoreError * t St :=
  lift (Core.set (k (ns st) key) v options now) st.

Definition has (key : string) (now : Z) (st : t St)
  : Result bool StoreError * t St :=
  lift (Core.has (k (ns st) key) now) st.

Definition delete (key : string) (now : Z) (st : t St)
  : Result bool StoreError * t St :=
  lift (Core.delete (k (ns st) key) now) st.

Definition mset (operations : list (BatchSetOperation V)) (now : Z)
  (st : t St) : Result BatchResult StoreError * t St :=
  let namespacedOps :=
    List.map (fun op => mkBatchSetOperation (k (ns st) (op_key op))
                          (op_value op) (op_options op))
             operations in
  let '(result, st') := lift (Core.mset namespacedOps now) st in
  match result with
  | Err e => (Err e, st')
  | Ok br =>
      (Ok (mkBatchResult
             (List.map (unk (ns st)) (successful br))
             (List.map (fun f => (unk (ns st) (fst f), snd f)) (failed br))),
       st')
  end.

#[global] Instance store : IKeyValueStore V (t St) := {|
  Core.get := get;
  Core.set := set;
  Core.has := has;
  Core.delete := delete;
  Core.mset := mset
|}.

End Decorator.

End NamespacedStore.

(* ================================================================== *)
(** ** Fetch orchestration: [cacheItem] *)
(* ================================================================== *)

Module CacheItem.
Import Core.

(** A value a rejected fetcher promise carries, with the only thing
    [cacheItem] observes of it: whether it is truthy. *)
Inductive Thrown : Type :=
| Truthy (description : string)
| Falsy (description : string).

(** [fetchResult?.error || 'Unknown error'] *)
Inductive LastError : Type :=
| Underlying (e : Thrown)
| UnknownError.

Inductive CacheErrorCode : Type :=
| FETCH_FAILED
| STORE_FAILED
| INVALID_TTL
| EXPIRED
| EVICTED.

Inductive CacheErrorContext : Type :=
| FetchContext (key : string) (retryCount : Z) (lastError : LastError)
| StoreContext (key : string) (storeError : StoreError).

(** [createCacheError(message, code, context)] *)
Record CacheError : Type := createCacheError {
  code : CacheErrorCode;
  context : CacheErrorContext
}.

Record CacheItemOptions (V : Type) : Type := mkCacheItemOptions {
  ttlMs : option Z;
  refreshTtl : option bool;
  defaultValue : option V;
  storeOnError : option bool;
  maxRetries : option Z;
  retryDelayMs : option Z
}.
Arguments mkCacheItemOptions {V} ttlMs refreshTtl defaultValue storeOnError
  maxRetries retryDelayMs.
Arguments ttlMs {V} c.
Arguments refreshTtl {V} c.
Arguments defaultValue {V} c.
Arguments storeOnError {V} c.
Arguments maxRetries {V} c.
Arguments retryDelayMs {V} c.

Definition noOptions {V} : CacheItemOptions V :=
  mkCacheItemOptions None None None None None None.

Record Metadata : Type := mkMetadata {
  operationTimeMs : Z;
  cacheHit : bool;
  retryAttempted : bool;
  retryCount : Z
}.

Record CacheResult (V : Type) : Type := mkCacheResult {
  value : V;
  fromCache : bool;
  metadata : Metadata
}.
Arguments mkCacheResult {V} value fromCache metadata.
Arguments value {V} c.
Arguments fromCache {V} c.
Arguments metadata {V} c.

(** What [cacheItem] reads of [getGlobalConfig()]. *)
Record GlobalConfig : Type := mkGlobalConfig {
  defaultTtlMs : option Z
}.

(** What a call acts on: the store, the number of times the fetcher has
    been invoked so far, the clock and the delays handed to [setTimeout].
    Time passes only while a retry delay is awaited. *)
Record World (St : Type) : Type := mkWorld {
  store : St;
  fetcherCalls : nat;
  clock : Z;
  timers : list Z
}.
Arguments mkWorld {St} store fetcherCalls clock timers.
Arguments store {St} w.
Arguments fetcherCalls {St} w.
Arguments clock {St} w.
Arguments timers {St} w.

Section UseCase.
Context {V St : Type} `{Store : IKeyValueStore V St}.

(** The fetcher: the outcome [safeAsync(fetcher)] has at its [n]-th
    invocation, counted from 0. *)
Definition Fetcher : Type := nat -> Result V Thrown.

Record CacheItemInput : Type := mkCacheItemInput {
  key : string;
  fetcher : Fetcher;
  options : CacheItemOptions V
}.

Definition withStore (s : St) (w : World St) : World St :=
  mkWorld s (fetcherCalls w) (clock w) (timers w).

(** [await safeAsync(fetcher)] *)
Definition invoke (f : Fetcher) (w : World St)
  : Result V Thrown * World St :=
  (f (fetcherCalls w),
   mkWorld (store w) (S (fetcherCalls w)) (clock w) (timers w)).

(** [await new Promise(resolve => setTimeout(resolve, ms))] *)
Definition sleep (ms : Z) (w : World St) : World St :=
  mkWorld (store w) (fetcherCalls w) (clock w + Z.max 0 ms)
          (timers w ++ [ms]).

(** The variables the retry loop updates. *)
Record LoopState : Type := mkLoopState {
  ls_retryCount : Z;
  ls_retryAttempted : bool;
  ls_fetchResult : option (Result V Thrown)
}.

(** The [while (retryCount <= maxRetries)] loop; [None] when [fuel]
    iterations did not leave it. *)
Fixpoint retryLoop (fuel : nat) (f : Fetcher) (maxRetries retryDelayMs : Z)
  (ls : LoopState) (w : World St) : option (LoopState * World St) :=
  match fuel with
  | O => None
  | S fuel' =>
      if ls_retryCount ls <=? maxRetries then
        let '(fetchResult, w1) := invoke f w in
        match fetchResult with
        | Ok _ =>
            Some (mkLoopState (ls_retryCount ls) (ls_retryAttempted ls)
                              (Some fetchResult), w1)
        | Err _ =>
            let retryCount := ls_retryCount ls + 1 in
            let w2 := if retryCount <=? maxRetries
                      then sleep retryDelayMs w1 else w1 in
            retryLoop fuel' f maxRetries retryDelayMs
                      (mkLoopState retryCount true (Some fetchResult)) w2
        end
      else Some (ls, w)
  end.

(** Iterations that always suffice, starting from [retryCount = 0]: one
    per attempt and one for the test that leaves the loop. *)
Definition retryFuel (maxRetries : Z) : nat := S (Z.to_nat (maxRetries + 1)).

Definition lastErrorOf (r : option (Result V Thrown)) : LastError :=
  match r with
  | Some (Err (Truthy d)) => Underlying (Truthy d)
  | _ => UnknownError
  end.

Definition cacheItem (cfg : GlobalConfig) (input : CacheItemInput)
  (w : World St) : Result (CacheResult V) CacheError * World St :=
  let startTime := clock w in
  let o := options input in
  let m_ttlMs := nullish (ttlMs o) (nullish (defaultTtlMs cfg) (5 * 60 * 1000)) in
  let m_refreshTtl := nullish (refreshTtl o) false in
  let m_defaultValue := defaultValue o in
  let m_storeOnError := nullish (storeOnError o) false in
  let m_maxRetries := nullish (maxRetries o) 2 in
  let m_retryDelayMs := nullish (retryDelayMs o) 1000 in
  let '(cacheResult, s1) :=
    Core.get (key input) (mkGetOptions (Some m_refreshTtl) None)
             (clock w) (store w) in
  let w1 := withStore s1 w in
  match cacheResult with
  | Ok (Some v) =>
      (Ok (mkCacheResult v true
             (mkMetadata (clock w1 - startTime) true false 0)), w1)
  | _ =>
      let '(ls, w2) :=
        match retryLoop (retryFuel m_maxRetries) (fetcher input)
                        m_maxRetries m_retryDelayMs
                        (mkLoopState 0 false None) w1 with
        | Some r => r
        | None => (mkLoopState 0 false None, w1)
        end in
      match ls_fetchResult ls with
      | Some (Ok fetched) =>
          let '(storeResult, s3) :=
            Core.set (key input) fetched (mkSetOptions (Some m_ttlMs) (Some true))
                     (clock w2) (store w2) in
          let w3 := withStore s3 w2 in
          let fresh :=
            mkCacheResult fetched false
              (mkMetadata (clock w3 - startTime) false
                          (ls_retryAttempted ls) (ls_retryCount ls)) in
          match storeResult with
          | Ok _ => (Ok fresh, w3)
          | Err e =>
              if negb m_storeOnError then (Ok fresh, w3)
              else (Err (createCacheError STORE_FAILED
                           (StoreContext (key input) e)), w3)
          end
      | other =>
          match m_defaultValue with
          | Some d =>
              (Ok (mkCacheResult d false
                     (mkMetadata (clock w2 - startTime) false
                                 (ls_retryAttempted ls) (ls_retryCount ls))),
               w2)
          | None =>
              (Err (createCacheError FETCH_FAILED
                      (FetchContext (key input) (ls_retryCount ls)
                                    (lastErrorOf other))), w2)
          end
      end
  end.

End UseCase.

Section Invalidation.
Context {V St : Type} `{Store : IKeyValueStore V St}
        `{Meta : IMetadataStore V St}.

(** [simpleCacheItem]: the value alone. *)
Definition simpleCacheItem (cfg : GlobalConfig)
  (input : CacheItemInput (V := V)) (w : World St)
  : Result V CacheError * World St :=
  let '(result, w') := cacheItem cfg input w in
  match result with
  | Ok r => (Ok (value r), w')
  | Err e => (Err e, w')
  end.

(** [cacheWithInvalidation]: an entry older than [invalidateAfterMs] is
    deleted before [simpleCacheItem] runs. *)
Definition cacheWithInvalidation (cfg : GlobalConfig)
  (input : CacheItemInput (V := V)) (invalidateAfterMs : Z) (w : World St)
  : Result V CacheError * World St :=
  let '(metadataResult, s1) :=
    getWithMetadata (key input) (clock w) (store w) in
  let w1 := withStore s1 w in
  let w2 :=
    match metadataResult with
    | Ok (Some sv) =>
        let age := clock w1 - createdAt (sv_metadata sv) in
        if age >? invalidateAfterMs then
          let '(_, s2) := Core.delete (key input) (clock w1) (store w1) in
          withStore s2 w1
        else w1
    | _ => w1
    end in
  simpleCacheItem cfg input w2.

End Invalidation.

End CacheItem.

(* ================================================================== *)
(** ** Observing the calls a store receives *)
(* ================================================================== *)

(** A decorator in the manner of [NamespacedStore]: it forwards every
    method to the store it wraps and appends the call to a journal.  The
    properties below about which tier is consulted are read off that
    journal. *)
Module Recorder.
Import Core.

Inductive Call (V : Type) : Type :=
| CallGet (key : string) (options : GetOptions V)
| CallSet (key : string) (v : V) (options : SetOptions)
| CallHas (key : string)
| CallDelete (key : string)
| CallMset (operations : list (BatchSetOperation V)).
Arguments CallGet {V} key options.
Arguments CallSet {V} key v options.
Arguments CallHas {V} key.
Arguments CallDelete {V} key.
Arguments CallMset {V} operations.

Record t (V St : Type) : Type := mkRecorder {
  inner : St;
  journal : list (Call V)
}.
Arguments mkRecorder {V St} inner journal.
Arguments inner {V St} t.
Arguments journal {V St} t.

Definition wrap {V St} (s : St) : t V St := mkRecorder s [].

Section Recording.
Context {V St : Type} `{Inner : IKeyValueStore V St}.

Definition forward {R : Type} (c : Call V) (run : St -> R * St) (r : t V St)
  : R * t V St :=
  let '(res, s) := run (inner r) in
  (res, mkRecorder s (journal r ++ [c])).

#[global] Instance store : IKeyValueStore V (t V St) := {|
  Core.get := fun key options now =>
    forward (CallGet key options) (Core.get key options now);
  Core.set := fun key v options now =>
    forward (CallSet key v options) (Core.set key v options now);
  Core.has := fun key now => forward (CallHas key) (Core.has key now);
  Core.delete := fun key now =>
    forward (CallDelete key) (Core.delete key now);
  Core.mset := fun operations now =>
    forward (CallMset operations) (Core.mset operations now)
|}.

End Recording.

End Recorder.

(* ================================================================== *)
(** ** Integer values *)
(* ================================================================== *)

(** [JSON.stringify] of an integer [number] is its decimal numeral (for
    magnitudes below [1e21]). *)
Module IntegerValue.

Definition numeral (z : Z) : string :=
  DecimalString.NilZero.string_of_int (Z.to_int z).

#[global] Instance json : Core.JsonValue Z :=
  fun z => Some (Z.of_nat (String.length (numeral z))).

End IntegerValue.

(* ================================================================== *)
(** ** Vocabulary of the statements *)
(* ================================================================== *)

(** A tier answers with a hit when its [get] succeeds with a defined
    value; every other answer sends the tiered [get] to the next step. *)
Definition isHit {V : Type} (r : Core.Result (option V) Core.StoreError)
  : bool :=
  match r with
  | Core.Ok (Some _) => true
  | _ => false
  end.

(** The initial [store.get] of [cacheItem]. *)
Definition initialGet {V St : Type} `{Store : Core.IKeyValueStore V St}
  (input : CacheItem.CacheItemInput (V := V)) (w : CacheItem.World St)
  : Core.Result (option V) Core.StoreError * St :=
  Core.get (CacheItem.key input)
    (Core.mkGetOptions
       (Some (Core.nullish (CacheItem.refreshTtl (CacheItem.options input))
                false))
       None)
    (CacheItem.clock w) (CacheItem.store w).


(** *** Vocabulary of the further properties *)

(** The test [cleanup] applies to an entry. *)
Definition swept {V : Type} (now : Z)
  (p : string * EnhancedMemoryStore.InMemoryEntry V) : bool :=
  let e := Core.expiresAt (EnhancedMemoryStore.metadata (snd p)) in
  Core.truthy e && (Core.orZero e <=? now).



(** The value [get] finds under [k] at [now]: that of an entry which has
    not expired. *)
Definition liveValue {V : Type} (now : Z) (st : EnhancedMemoryStore.t V)
  (k : string) : option V :=
  match JsMap.get k (EnhancedMemoryStore.map st) with
  | Some entry =>
      if EnhancedMemoryStore.isExpired now entry then None
      else Some (EnhancedMemoryStore.value entry)
  | None => None
  end.

(** No colon occurs in [s]. *)
Fixpoint colonFree (s : string) : bool :=
  match s with
  | EmptyString => true
  | String c rest => negb (Ascii.eqb c ":"%char) && colonFree rest
  end.

(** A value type with [undefined]: [JSON.stringify(undefined)] is
    [undefined], whose [length] cannot be read. *)
Module OptionalInteger.

#[global] Instance json : Core.JsonValue (option Z) :=
  fun v =>
    match v with
    | Some z => Some (Z.of_nat (String.length (IntegerValue.numeral z)))
    | None => None
    end.

End OptionalInteger.

(** *** Concrete stores and fetchers used to exercise the statements *)

Module Sample.
Import Core.
Local Open Scope string_scope.

Definition Engine : Type := EnhancedMemoryStore.t Z.

Definition emptyEngine : Engine :=
  EnhancedMemoryStore.create EnhancedMemoryStore.noConfig.

(** An engine holding [k = 42] without expiry, written at time 0. *)
Definition engineWithK : Engine :=
  snd (EnhancedMemoryStore.set "k" 42 noSetOptions 0 emptyEngine).

(** An engine holding [k = 42] with a TTL of 100 ms, written at time 0. *)
Definition engineWithTtl : Engine :=
  snd (EnhancedMemoryStore.set "k" 42 (mkSetOptions (Some 100) None) 0
         emptyEngine).

(** Fast tier empty, durable tier holding [k = 42]; default policy. *)
Definition coldTiers
  : MultiTierStore.t Z (Recorder.t Z Engine) (Recorder.t Z Engine) :=
  MultiTierStore.create (Recorder.wrap emptyEngine)
    (Recorder.wrap engineWithK)
    (MultiTierStore.mkMultiTierConfig None None None None None None).

Definition coldTiersE : MultiTierStore.t Z Engine (Recorder.t Z Engine) :=
  MultiTierStore.create emptyEngine (Recorder.wrap engineWithK)
    (MultiTierStore.mkMultiTierConfig None None None None None None).

(** Both tiers empty, write-behind policy. *)
Definition writeBehindTiers : MultiTierStore.t Z Engine (Recorder.t Z Engine) :=
  MultiTierStore.create emptyEngine (Recorder.wrap emptyEngine)
    (MultiTierStore.mkMultiTierConfig None None None (Some false) (Some true)
       None).

Definition writeBehindTiersE : MultiTierStore.t Z Engine Engine :=
  MultiTierStore.create emptyEngine emptyEngine
    (MultiTierStore.mkMultiTierConfig None None None (Some false) (Some true)
       None).

(** Both tiers empty, write-through policy (the default). *)
Definition writeThroughTiers
  : MultiTierStore.t Z (Recorder.t Z Engine) (Recorder.t Z Engine) :=
  MultiTierStore.create (Recorder.wrap emptyEngine) (Recorder.wrap emptyEngine)
    (MultiTierStore.mkMultiTierConfig None None None None None None).

End Sample.

Module SampleFetch.
Import Core CacheItem.
Local Open Scope string_scope.


(** The fetcher of the fallback test: it fails every time. *)
Definition alwaysFails : Fetcher (V := Z) :=
  fun _ => Err (Truthy "Always fails").

Definition freshWorld : World Sample.Engine :=
  mkWorld Sample.emptyEngine 0 0 [].




End SampleFetch.

(* ================================================================== *)
(** * Properties *)
(* ================================================================== *)

(** ** Maps *)

Section JsMapFacts.
Context {A : Type}.

Lemma JsMap_get_set_eq (key : string) (a : A) (m : JsMap.t A) :
  JsMap.get key (JsMap.set key a m) = Some a.
Proof.
  induction m as [|[k b] rest IH]; simpl.
  - now rewrite String.eqb_refl.
  - destruct (String.eqb key k) eqn:E; simpl; rewrite E; auto.
Qed.

Lemma JsMap_get_set_ne (key key' : string) (a : A) (m : JsMap.t A) :
  key <> key' -> JsMap.get key (JsMap.set key' a m) = JsMap.get key m.
Proof.
  intros Hne. induction m as [|[k b] rest IH]; simpl.
  - destruct (String.eqb key key') eqn:E; auto.
    apply String.eqb_eq in E. contradiction.
  - destruct (String.eqb key' k) eqn:E; simpl.
    + apply String.eqb_eq in E. subst k.
      destruct (String.eqb key key') eqn:E'; auto.
      apply String.eqb_eq in E'. contradiction.
    + now rewrite IH.
Qed.

Lemma JsMap_get_delete_eq (key : string) (m : JsMap.t A) :
  JsMap.get key (JsMap.delete key m) = None.
Proof.
  unfold JsMap.delete.
  induction m as [|[k b] rest IH]; simpl; auto.
  destruct (String.eqb key k) eqn:E; simpl; auto.
  now rewrite E.
Qed.

Lemma JsMap_get_in_keys (key : string) (m : JsMap.t A) (a : A) :
  JsMap.get key m = Some a -> In key (JsMap.keys m).
Proof.
  induction m as [|[k b] rest IH]; simpl; [discriminate|].
  destruct (String.eqb key k) eqn:E.
  - apply String.eqb_eq in E. auto.
  - auto.
Qed.

Lemma JsMap_get_not_in_keys (key : string) (m : JsMap.t A) :
  ~ In key (JsMap.keys m) -> JsMap.get key m = None.
Proof.
  intros Hn. destruct (JsMap.get key m) eqn:E; auto.
  apply JsMap_get_in_keys in E. contradiction.
Qed.

Lemma JsMap_keys_set (key : string) (a : A) (m : JsMap.t A) :
  JsMap.keys (JsMap.set key a m) =
  if JsMap.has key m then JsMap.keys m else JsMap.keys m ++ [key].
Proof.
  unfold JsMap.has, JsMap.keys.
  induction m as [|[k b] rest IH]; simpl; auto.
  destruct (String.eqb key k) eqn:E; simpl; auto.
  rewrite IH. destruct (JsMap.get key rest); auto.
Qed.

Lemma JsMap_set_NoDup (key : string) (a : A) (m : JsMap.t A) :
  NoDup (JsMap.keys m) -> NoDup (JsMap.keys (JsMap.set key a m)).
Proof.
  intros Hnd. rewrite JsMap_keys_set. unfold JsMap.has.
  destruct (JsMap.get key m) eqn:E; auto.
  apply NoDup_rev in Hnd. rewrite <- (rev_involutive (_ ++ _)).
  apply NoDup_rev. rewrite rev_app_distr. simpl. constructor; auto.
  rewrite <- in_rev. intros Hin.
  clear Hnd. induction m as [|[k b] rest IH]; simpl in *; auto.
  destruct (String.eqb key k) eqn:E'; [discriminate|].
  destruct Hin as [->|Hin]; auto.
  now rewrite String.eqb_refl in E'.
Qed.

(** Deleting every key of a map, one after the other, empties it. *)
Lemma JsMap_delete_all_keys (m q : JsMap.t A) :
  (forall p, In p q -> In (fst p) (JsMap.keys m)) ->
  List.fold_left (fun q k => JsMap.delete k q) (JsMap.keys m) q = [].
Proof.
  revert q. unfold JsMap.keys.
  induction m as [|[k b] rest IH]; simpl; intros q Hq.
  - destruct q as [|p q]; auto. destruct (Hq p); simpl; auto.
  - apply IH. intros p Hp. unfold JsMap.delete in Hp.
    apply filter_In in Hp. destruct Hp as [Hp Hne].
    destruct (Hq p Hp) as [Heq|Hin]; auto.
    rewrite Heq, String.eqb_refl in Hne. discriminate.
Qed.

End JsMapFacts.

(** ** The cache engine *)

Section EngineFacts.
Import Core EnhancedMemoryStore.
Context {V : Type} `{JV : JsonValue V}.

Lemma removeFromLRU_length_le (key : string) (l : list string) :
  (List.length (removeFromLRU key l) <= List.length l)%nat.
Proof. apply filter_length_le. Qed.

Lemma removeFromLRU_length_lt (key : string) (l : list string) :
  In key l -> (List.length (removeFromLRU key l) < List.length l)%nat.
Proof.
  unfold removeFromLRU. induction l as [|k l IH]; simpl; [tauto|].
  intros [->|Hin].
  - rewrite String.eqb_refl. simpl.
    pose proof (filter_length_le (fun k => negb (String.eqb key k)) l). lia.
  - specialize (IH Hin). destruct (negb (String.eqb key k)); simpl; lia.
Qed.

Lemma evictWalk_lru_le (nodes : list string) (count evicted : Z) (st : t V) :
  (List.length (lru (snd (evictWalk nodes count evicted st)))
   <= List.length (lru st))%nat.
Proof.
  revert evicted st. induction nodes as [|key rest IH]; intros; simpl; auto.
  destruct (evicted <? count); simpl; auto.
  destruct (JsMap.get key (map st)) as [entry|]; auto.
  match goal with |- context [evictWalk rest count ?e ?s] =>
    specialize (IH e s); destruct (evictWalk rest count e s) end.
  simpl in *. pose proof (removeFromLRU_length_le key (lru st)). lia.
Qed.

Lemma evictWalk_progress (nodes : list string) (count evicted : Z)
  (st : t V) :
  (forall k, In k nodes -> In k (lru st)) ->
  fst (evictWalk nodes count evicted st) <> [] ->
  (List.length (lru (snd (evictWalk nodes count evicted st)))
   < List.length (lru st))%nat.
Proof.
  revert evicted st. induction nodes as [|key rest IH]; intros ev st Hin;
    simpl; [congruence|].
  destruct (ev <? count); simpl; [|congruence].
  destruct (JsMap.get key (map st)) as [entry|].
  - intros _.
    match goal with |- context [evictWalk rest count ?e ?s] =>
      pose proof (evictWalk_lru_le rest count e s) as Hle;
      destruct (evictWalk rest count e s) end.
    simpl in *.
    pose proof (removeFromLRU_length_lt key (lru st) (Hin key (or_introl eq_refl))).
    lia.
  - apply IH. intros k Hk. apply Hin. now right.
Qed.

(** The loop of [evictToMakeSpace] leaves within one more iteration than
    the recency list has nodes. *)
Lemma evictLoop_total (fuel : nat) (target : option Z) (st : t V) :
  (List.length (lru st) < fuel)%nat ->
  exists st', evictLoop fuel target st = Some st'.
Proof.
  revert st. induction fuel as [|fuel IH]; intros st Hlt; [lia|].
  simpl.
  destruct (match target with
            | Some tb => memoryUsageBytes (stats st) >? tb
            | None => false
            end); [|eauto].
  unfold evict.
  pose proof (evictWalk_progress (rev (lru st)) 10 0 st) as Hp.
  destruct (evictWalk (rev (lru st)) 10 0 st) as [ks st'] eqn:E.
  simpl in Hp. destruct ks as [|k ks]; [eauto|].
  apply IH.
  assert ((List.length (lru st') < List.length (lru st))%nat).
  { apply Hp; [|discriminate]. intros k0 Hk0. now apply in_rev. }
  lia.
Qed.

Lemma evictToMakeSpace_total (requiredBytes : Z) (st : t V) :
  exists st',
    evictLoop (S (List.length (lru st)))
      (if truthy (maxMemoryBytes (config st))
       then Some (orZero (maxMemoryBytes (config st)) - requiredBytes)
       else None) st = Some st' /\
    evictToMakeSpace requiredBytes st = st'.
Proof.
  unfold evictToMakeSpace.
  destruct (evictLoop_total (S (List.length (lru st)))
              (if truthy (maxMemoryBytes (config st))
               then Some (orZero (maxMemoryBytes (config st)) - requiredBytes)
               else None) st) as [st' Hst']; [lia|].
  exists st'. now rewrite Hst'.
Qed.

(** A [set] that may overwrite and whose value can be sized succeeds and
    leaves the entry it built under the key. *)
Lemma set_stores (key : string) (v : V) (options : SetOptions) (now : Z)
  (st : t V) (n : Z) :
  jsonLength v = Some n ->
  isFalse (overwrite options) = false ->
  fst (set key v options now st) = Ok tt /\
  JsMap.get key (map (snd (set key v options now st))) =
  Some (mkEntry v
          (mkValueMetadata now now
             (if truthy (ttlMs options)
              then Some (now + orZero (ttlMs options)) else None)
             (n * 2) 1)).
Proof.
  intros Hn Hov. unfold set, calculateSize. rewrite Hn, Hov.
  destruct (JsMap.get key (map st)); simpl; split; auto;
    apply JsMap_get_set_eq.
Qed.

(** A [get] of a key whose entry has not expired yields its value. *)
Lemma get_live (key : string) (options : GetOptions V) (now : Z) (st : t V)
  (entry : InMemoryEntry V) :
  JsMap.get key (map st) = Some entry ->
  isExpired now entry = false ->
  fst (get key options now st) = Ok (Some (value entry)).
Proof.
  intros Hget Hexp. unfold get. now rewrite Hget, Hexp.
Qed.

(** A [get] of a key that is absent or expired yields the default value
    of the options and counts a miss. *)
Lemma get_absent (key : string) (options : GetOptions V) (now : Z)
  (st : t V) :
  match JsMap.get key (map st) with
  | None => True
  | Some entry => isExpired now entry = true
  end ->
  fst (get key options now st) = Ok (defaultValue options) /\
  misses (stats (snd (get key options now st))) = misses (stats st) + 1 /\
  JsMap.get key (map (snd (get key options now st))) = None.
Proof.
  unfold get. destruct (JsMap.get key (map st)) as [entry|] eqn:E.
  - intros ->. simpl. repeat split; auto. apply JsMap_get_delete_eq.
  - intros _. simpl. repeat split; auto.
Qed.

End EngineFacts.

(** ** The tiered store *)


Section TieredGetFacts.
Import Core.
Context {V St1 St2 : Type}.
Context `{L1 : IKeyValueStore V St1} `{L2 : IKeyValueStore V St2}.

Local Abbreviation Tiered := (MultiTierStore.t V (Recorder.t V St1) (Recorder.t V St2)).

Variables (key : string) (options : GetOptions V) (now : Z) (st : Tiered).

Let l1 := MultiTierStore.l1Cache st.
Let l2 := MultiTierStore.l2Cache st.
Let r1 := fst (Core.get key options now (Recorder.inner l1)).
Let r2 := fst (Core.get key options now (Recorder.inner l2)).
Let out := MultiTierStore.get key options now st.

Lemma tiered_get_fast_first :
  exists tail,
    Recorder.journal (MultiTierStore.l1Cache (snd out)) =
    Recorder.journal l1 ++ Recorder.CallGet key options :: tail.
Proof.
  subst out r1 r2 l1 l2. unfold MultiTierStore.get. cbn.
  unfold Recorder.forward.
  destruct (Core.get key options now
              (Recorder.inner (MultiTierStore.l1Cache st))) as [a s1].
  destruct (Core.get key options now
              (Recorder.inner (MultiTierStore.l2Cache st))) as [b s2].
  destruct a as [[v|]|e]; cbn; eauto;
    destruct b as [[w|]|e']; cbn; eauto;
    destruct (MultiTierStore.cfg_populateL1OnL2Hit (MultiTierStore.config st));
    cbn; eauto.
  all: destruct (Core.set key w _ now s1); cbn; rewrite <- app_assoc; cbn; eauto.
Qed.

Lemma tiered_get_fast_hit (v : V) :
  r1 = Ok (Some v) ->
  fst out = Ok (Some v) /\ MultiTierStore.l2Cache (snd out) = l2.
Proof.
  subst out r1 r2 l1 l2. unfold MultiTierStore.get. cbn.
  unfold Recorder.forward.
  destruct (Core.get key options now
              (Recorder.inner (MultiTierStore.l1Cache st))) as [a s1].
  cbn. intros ->. cbn. auto.
Qed.

Lemma tiered_get_fast_miss :
  isHit r1 = false ->
  Recorder.journal (MultiTierStore.l2Cache (snd out)) =
  Recorder.journal l2 ++ [Recorder.CallGet key options] /\
  (forall v, r2 = Ok (Some v) ->
     fst out = Ok (Some v) /\
     Recorder.journal (MultiTierStore.l1Cache (snd out)) =
     Recorder.journal l1 ++
       Recorder.CallGet key options ::
       (if MultiTierStore.cfg_populateL1OnL2Hit (MultiTierStore.config st)
        then [Recorder.CallSet key v
                (mkSetOptions
                   (Some (MultiTierStore.cfg_l1TtlMs (MultiTierStore.config st)))
                   (Some true))]
        else [])) /\
  (r2 = Ok None -> fst out = Ok (defaultValue options)) /\
  (forall e, r2 = Err e -> fst out = Err e).
Proof.
  subst out r1 r2 l1 l2. unfold MultiTierStore.get. cbn.
  unfold Recorder.forward.
  destruct (Core.get key options now
              (Recorder.inner (MultiTierStore.l1Cache st))) as [a s1].
  destruct (Core.get key options now
              (Recorder.inner (MultiTierStore.l2Cache st))) as [b s2].
  cbn. intros Hmiss.
  assert (Hgo :
    forall (X : Type) (hit : X) (miss : X),
      match a with
      | Ok (Some _) => hit
      | _ => miss
      end = miss).
  { intros. destruct a as [[?|]|?]; auto. discriminate. }
  rewrite Hgo. clear Hgo Hmiss.
  destruct b as [[w|]|e']; cbn.
  - destruct (MultiTierStore.cfg_populateL1OnL2Hit (MultiTierStore.config st));
      cbn.
    + destruct (Core.set key w _ now s1); cbn.
      split; [reflexivity|]. split; [|split; intros; discriminate].
      intros v [= <-]. split; auto. now rewrite <- app_assoc.
    + split; [reflexivity|]. split; [|split; intros; discriminate].
      intros v [= <-]. auto.
  - split; [reflexivity|]. split; [intros; discriminate|].
    split; [reflexivity|intros; discriminate].
  - split; [reflexivity|]. split; [intros; discriminate|].
    split; [intros; discriminate|]. now intros e [= <-].
Qed.

End TieredGetFacts.

Section TieredOverEngine.
Import Core.
Context {V St2 : Type} `{JV : JsonValue V} `{L2 : IKeyValueStore V St2}.

Local Abbreviation TieredE :=
  (MultiTierStore.t V (EnhancedMemoryStore.t V) (Recorder.t V St2)).

(** The state a fast-tier miss followed by a durable-tier hit leaves when
    repopulation is enabled. *)
Lemma tiered_get_populates (key : string) (options : GetOptions V) (now : Z)
  (st : TieredE) (v : V) :
  isHit (fst (EnhancedMemoryStore.get key options now
                (MultiTierStore.l1Cache st))) = false ->
  fst (Core.get key options now
         (Recorder.inner (MultiTierStore.l2Cache st))) = Ok (Some v) ->
  MultiTierStore.cfg_populateL1OnL2Hit (MultiTierStore.config st) = true ->
  snd (MultiTierStore.get key options now st) =
  MultiTierStore.mkStore
    (snd (EnhancedMemoryStore.set key v
            (mkSetOptions
               (Some (MultiTierStore.cfg_l1TtlMs (MultiTierStore.config st)))
               (Some true))
            now
            (snd (EnhancedMemoryStore.get key options now
                    (MultiTierStore.l1Cache st)))))
    (Recorder.mkRecorder
       (snd (Core.get key options now
               (Recorder.inner (MultiTierStore.l2Cache st))))
       (Recorder.journal (MultiTierStore.l2Cache st) ++
        [Recorder.CallGet key options]))
    (MultiTierStore.config st)
    (MultiTierStore.writeBehindQueue st).
Proof.
  intros Hmiss Hl2 Hpop.
  unfold MultiTierStore.get.
  change (@Core.get V _ EnhancedMemoryStore.store)
    with (@EnhancedMemoryStore.get V).
  change (@Core.set V _ EnhancedMemoryStore.store)
    with (@EnhancedMemoryStore.set V JV).
  destruct (EnhancedMemoryStore.get key options now
              (MultiTierStore.l1Cache st)) as [a s1].
  cbn [fst snd] in *.
  assert (Hgo :
    forall (X : Type) (hit : X) (miss : X),
      match a with
      | Ok (Some _) => hit
      | _ => miss
      end = miss).
  { intros. destruct a as [[?|]|?]; auto. discriminate. }
  rewrite Hgo. clear Hgo.
  unfold MultiTierStore.withL1, MultiTierStore.withL2.
  cbn [MultiTierStore.l2Cache MultiTierStore.l1Cache MultiTierStore.config
       MultiTierStore.writeBehindQueue].
  change (@Core.get V _ Recorder.store)
    with (fun k o t => Recorder.forward (St := St2) (Recorder.CallGet k o)
                         (Core.get k o t)).
  cbv beta. unfold Recorder.forward.
  destruct (Core.get key options now
              (Recorder.inner (MultiTierStore.l2Cache st))) as [b s2].
  cbn [fst snd] in *. subst b.
  unfold MultiTierStore.withL1, MultiTierStore.withL2.
  cbn [MultiTierStore.l2Cache MultiTierStore.l1Cache MultiTierStore.config
       MultiTierStore.writeBehindQueue].
  rewrite Hpop.
  destruct (EnhancedMemoryStore.set key v _ now s1) as [res s1'].
  reflexivity.
Qed.

(** After a durable-tier hit has repopulated an engine used as fast
    tier, a later [get] within the fast-tier TTL is answered by the fast
    tier and leaves the durable tier alone. *)
Lemma tiered_get_repopulated (key : string) (options options' : GetOptions V)
  (now now' : Z) (st : TieredE) (v : V) (n : Z) :
  isHit (fst (EnhancedMemoryStore.get key options now
                (MultiTierStore.l1Cache st))) = false ->
  fst (Core.get key options now
         (Recorder.inner (MultiTierStore.l2Cache st))) = Ok (Some v) ->
  MultiTierStore.cfg_populateL1OnL2Hit (MultiTierStore.config st) = true ->
  jsonLength v = Some n ->
  (MultiTierStore.cfg_l1TtlMs (MultiTierStore.config st) = 0 \/
   now' < now + MultiTierStore.cfg_l1TtlMs (MultiTierStore.config st)) ->
  let st' := snd (MultiTierStore.get key options now st) in
  fst (MultiTierStore.get key options' now' st') = Ok (Some v) /\
  MultiTierStore.l2Cache (snd (MultiTierStore.get key options' now' st')) =
  MultiTierStore.l2Cache st'.
Proof.
  intros Hmiss Hl2 Hpop Hn Httl st'. subst st'.
  rewrite (tiered_get_populates key options now st v Hmiss Hl2 Hpop).
  set (o := mkSetOptions
              (Some (MultiTierStore.cfg_l1TtlMs (MultiTierStore.config st)))
              (Some true)).
  set (s1 := snd (EnhancedMemoryStore.get key options now
                    (MultiTierStore.l1Cache st))).
  destruct (set_stores key v o now s1 n Hn eq_refl) as [_ Hentry].
  pose proof (get_live key options' now'
                (snd (EnhancedMemoryStore.set key v o now s1)) _ Hentry)
    as Hlive.
  unfold MultiTierStore.get.
  unfold MultiTierStore.withL1, MultiTierStore.withL2.
  cbn [MultiTierStore.l2Cache MultiTierStore.l1Cache MultiTierStore.config
       MultiTierStore.writeBehindQueue].
  change (@Core.get V _ EnhancedMemoryStore.store)
    with (@EnhancedMemoryStore.get V).
  destruct (EnhancedMemoryStore.get key options' now'
              (snd (EnhancedMemoryStore.set key v o now s1))) as [c s1''].
  cbn [fst EnhancedMemoryStore.value] in Hlive.
  rewrite Hlive; [cbn; auto|].
  unfold EnhancedMemoryStore.isExpired. cbn.
  destruct (MultiTierStore.cfg_l1TtlMs (MultiTierStore.config st) =? 0) eqn:E;
    cbn; auto.
  apply Z.eqb_neq in E. apply Z.leb_gt. lia.
Qed.

End TieredOverEngine.


(** C1.  A [get] on the tiered store queries the fast tier first.  On a
    fast-tier hit it returns that value and makes no call to the durable
    tier.  On a fast-tier miss it queries the durable tier once; on a
    durable-tier hit with [populateL1OnL2Hit] it writes the value to the
    fast tier with [l1TtlMs] (and [overwrite]) before returning it, and a
    [get] without a default value that misses on both tiers returns
    [undefined].  With the engine as fast tier, the [get] that follows a
    repopulation, within the fast-tier TTL, is answered by the fast tier
    and makes no call to the durable tier. *)
Theorem tiered_get_read_through :
  (forall (V St1 St2 : Type)
          (L1 : Core.IKeyValueStore V St1) (L2 : Core.IKeyValueStore V St2)
          (key : string) (options : Core.GetOptions V) (now : Z)
          (st : MultiTierStore.t V (Recorder.t V St1) (Recorder.t V St2)),
     let l1 := MultiTierStore.l1Cache st in
     let l2 := MultiTierStore.l2Cache st in
     let r1 := fst (Core.get key options now (Recorder.inner l1)) in
     let r2 := fst (Core.get key options now (Recorder.inner l2)) in
     let out := MultiTierStore.get key options now st in
     (exists tail,
        Recorder.journal (MultiTierStore.l1Cache (snd out)) =
        Recorder.journal l1 ++ Recorder.CallGet key options :: tail) /\
     (forall v, r1 = Core.Ok (Some v) ->
        fst out = Core.Ok (Some v) /\
        Recorder.journal (MultiTierStore.l2Cache (snd out)) =
        Recorder.journal l2) /\
     (isHit r1 = false ->
        Recorder.journal (MultiTierStore.l2Cache (snd out)) =
        Recorder.journal l2 ++ [Recorder.CallGet key options]) /\
     (isHit r1 = false ->
      forall v, r2 = Core.Ok (Some v) ->
        MultiTierStore.cfg_populateL1OnL2Hit (MultiTierStore.config st) = true ->
        fst out = Core.Ok (Some v) /\
        Recorder.journal (MultiTierStore.l1Cache (snd out)) =
        Recorder.journal l1 ++
          [Recorder.CallGet key options;
           Recorder.CallSet key v
             (Core.mkSetOptions
                (Some (MultiTierStore.cfg_l1TtlMs (MultiTierStore.config st)))
                (Some true))]) /\
     (isHit r1 = false -> r2 = Core.Ok None ->
      Core.defaultValue options = None ->
      fst out = Core.Ok None)) /\
  (forall (V St2 : Type) (JV : Core.JsonValue V)
          (L2 : Core.IKeyValueStore V St2)
          (key : string) (options options' : Core.GetOptions V)
          (now now' : Z)
          (st : MultiTierStore.t V (EnhancedMemoryStore.t V) (Recorder.t V St2))
          (v : V) (n : Z),
     isHit (fst (EnhancedMemoryStore.get key options now
                   (MultiTierStore.l1Cache st))) = false ->
     fst (Core.get key options now
            (Recorder.inner (MultiTierStore.l2Cache st))) = Core.Ok (Some v) ->
     MultiTierStore.cfg_populateL1OnL2Hit (MultiTierStore.config st) = true ->
     Core.jsonLength v = Some n ->
     (MultiTierStore.cfg_l1TtlMs (MultiTierStore.config st) = 0 \/
      now' < now + MultiTierStore.cfg_l1TtlMs (MultiTierStore.config st)) ->
     let st' := snd (MultiTierStore.get key options now st) in
     let out' := MultiTierStore.get key options' now' st' in
     fst out' = Core.Ok (Some v) /\
     Recorder.journal (MultiTierStore.l2Cache (snd out')) =
     Recorder.journal (MultiTierStore.l2Cache st')).
Proof.
  split.
  - intros V St1 St2 L1 L2 key options now st l1 l2 r1 r2 out.
    split; [apply tiered_get_fast_first|].
    split.
    { intros v Hv.
      destruct (tiered_get_fast_hit key options now st v Hv) as [Hr Hl2].
      split; [exact Hr|]. subst out l2. now rewrite Hl2. }
    split.
    { intros Hmiss. apply (tiered_get_fast_miss key options now st Hmiss). }
    split.
    { intros Hmiss v Hv Hpop.
      destruct (tiered_get_fast_miss key options now st Hmiss)
        as (_ & Hhit & _).
      destruct (Hhit v Hv) as [Hr Hj]. split; [exact Hr|].
      subst out l1. rewrite Hj, Hpop. reflexivity. }
    intros Hmiss Hnone Hdef.
    destruct (tiered_get_fast_miss key options now st Hmiss)
      as (_ & _ & Hboth & _).
    subst out. rewrite (Hboth Hnone). now rewrite Hdef.
  - intros V St2 JV L2 key options options' now now' st v n
           Hmiss Hl2 Hpop Hn Httl st' out'.
    destruct (tiered_get_repopulated key options options' now now' st v n
                Hmiss Hl2 Hpop Hn Httl) as [Hr Hsame].
    split; [exact Hr|]. subst out' st'. now rewrite Hsame.
Qed.

Lemma tiered_get_read_through_witness :
  (let out := MultiTierStore.get "k"%string Core.noGetOptions 0
                Sample.coldTiers in
   fst out = Core.Ok (Some 42) /\
   Recorder.journal (MultiTierStore.l1Cache (snd out)) =
   [Recorder.CallGet "k"%string Core.noGetOptions;
    Recorder.CallSet "k"%string 42
      (Core.mkSetOptions (Some 60000) (Some true))]) /\
  (let st' := snd (MultiTierStore.get "k"%string Core.noGetOptions 0
                     Sample.coldTiersE) in
   let out' := MultiTierStore.get "k"%string Core.noGetOptions 59999 st' in
   fst out' = Core.Ok (Some 42) /\
   Recorder.journal (MultiTierStore.l2Cache (snd out')) =
   Recorder.journal (MultiTierStore.l2Cache st')).
Proof.
  split.
  - destruct tiered_get_read_through as [Hgen _].
    destruct (Hgen Z Sample.Engine Sample.Engine _ _ "k"%string
                Core.noGetOptions 0 Sample.coldTiers)
      as (_ & _ & _ & Hpop & _).
    apply (Hpop eq_refl 42 eq_refl eq_refl).
  - destruct tiered_get_read_through as [_ Heng].
    apply (Heng Z Sample.Engine _ _ "k"%string Core.noGetOptions
             Core.noGetOptions 0 59999 Sample.coldTiersE 42 2);
      try reflexivity.
    right. reflexivity.
Defined.

Section TieredSetFacts.
Import Core.
Context {V St1 St2 : Type}.
Context `{L1 : IKeyValueStore V St1} `{L2 : IKeyValueStore V St2}.

Local Abbreviation TieredR :=
  (MultiTierStore.t V (Recorder.t V St1) (Recorder.t V St2)).

Variables (key : string) (v : V) (options : SetOptions) (now : Z)
          (st : TieredR).

Let l1 := MultiTierStore.l1Cache st.
Let l2 := MultiTierStore.l2Cache st.
Let o1 := mkSetOptions
            (Some (nullish (ttlMs options)
                     (MultiTierStore.cfg_l1TtlMs (MultiTierStore.config st))))
            (overwrite options).
Let o2 := mkSetOptions
            (Some (nullish (ttlMs options)
                     (MultiTierStore.cfg_l2TtlMs (MultiTierStore.config st))))
            (overwrite options).
Let p1 := Core.set key v o1 now (Recorder.inner l1).
Let p2 := Core.set key v o2 now (Recorder.inner l2).
Let out := MultiTierStore.set key v options now st.

Lemma tiered_set_fast_write :
  MultiTierStore.l1Cache (snd out) =
  Recorder.mkRecorder (snd p1)
    (Recorder.journal l1 ++ [Recorder.CallSet key v o1]).
Proof.
  subst out p1 p2 o1 o2 l1 l2. unfold MultiTierStore.set. cbn.
  unfold Recorder.forward.
  destruct (Core.set key v _ now
              (Recorder.inner (MultiTierStore.l1Cache st))) as [a s1].
  destruct a as [[]|e]; cbn; auto.
  destruct (MultiTierStore.cfg_writeThrough (MultiTierStore.config st)); cbn.
  - destruct (Core.set key v _ now
                (Recorder.inner (MultiTierStore.l2Cache st))); cbn; auto.
  - destruct (MultiTierStore.cfg_writeBehind (MultiTierStore.config st));
      cbn; auto.
Qed.

Lemma tiered_set_fast_failure (e : StoreError) :
  fst p1 = Err e ->
  fst out = Err e /\
  MultiTierStore.l2Cache (snd out) = l2 /\
  MultiTierStore.writeBehindQueue (snd out) =
  MultiTierStore.writeBehindQueue st.
Proof.
  subst out p1 p2 o1 o2 l1 l2. unfold MultiTierStore.set. cbn.
  unfold Recorder.forward.
  destruct (Core.set key v _ now
              (Recorder.inner (MultiTierStore.l1Cache st))) as [a s1].
  cbn. intros ->. cbn. auto.
Qed.

Lemma tiered_set_write_through_step :
  fst p1 = Ok tt ->
  MultiTierStore.cfg_writeThrough (MultiTierStore.config st) = true ->
  fst out = Ok tt /\
  MultiTierStore.l2Cache (snd out) =
  Recorder.mkRecorder (snd p2)
    (Recorder.journal l2 ++ [Recorder.CallSet key v o2]) /\
  MultiTierStore.writeBehindQueue (snd out) =
  MultiTierStore.writeBehindQueue st.
Proof.
  subst out p1 p2 o1 o2 l1 l2. unfold MultiTierStore.set. cbn.
  unfold Recorder.forward.
  destruct (Core.set key v _ now
              (Recorder.inner (MultiTierStore.l1Cache st))) as [a s1].
  cbn. intros -> ->. cbn.
  destruct (Core.set key v _ now
              (Recorder.inner (MultiTierStore.l2Cache st))); cbn; auto.
Qed.

End TieredSetFacts.

(** C5.  A [set] on the tiered store writes to the fast tier, once and
    before anything else, with [ttl ?? l1TtlMs].  When that write fails the
    call fails with its error and the durable tier is not called.  Under
    [writeThrough] the durable tier is then written once with
    [ttl ?? l2TtlMs]; whether or not that write fails, the call reports
    success and the fast tier keeps the write. *)
Theorem tiered_set_write_through :
  forall (V St1 St2 : Type)
         (L1 : Core.IKeyValueStore V St1) (L2 : Core.IKeyValueStore V St2)
         (key : string) (v : V) (options : Core.SetOptions) (now : Z)
         (st : MultiTierStore.t V (Recorder.t V St1) (Recorder.t V St2)),
    let l1 := MultiTierStore.l1Cache st in
    let l2 := MultiTierStore.l2Cache st in
    let o1 := Core.mkSetOptions
                (Some (Core.nullish (Core.ttlMs options)
                         (MultiTierStore.cfg_l1TtlMs (MultiTierStore.config st))))
                (Core.overwrite options) in
    let o2 := Core.mkSetOptions
                (Some (Core.nullish (Core.ttlMs options)
                         (MultiTierStore.cfg_l2TtlMs (MultiTierStore.config st))))
                (Core.overwrite options) in
    let p1 := Core.set key v o1 now (Recorder.inner l1) in
    let p2 := Core.set key v o2 now (Recorder.inner l2) in
    let out := MultiTierStore.set key v options now st in
    MultiTierStore.l1Cache (snd out) =
      Recorder.mkRecorder (snd p1)
        (Recorder.journal l1 ++ [Recorder.CallSet key v o1]) /\
    (forall e, fst p1 = Core.Err e ->
       fst out = Core.Err e /\ MultiTierStore.l2Cache (snd out) = l2) /\
    (fst p1 = Core.Ok tt ->
     MultiTierStore.cfg_writeThrough (MultiTierStore.config st) = true ->
     fst out = Core.Ok tt /\
     MultiTierStore.l2Cache (snd out) =
       Recorder.mkRecorder (snd p2)
         (Recorder.journal l2 ++ [Recorder.CallSet key v o2]) /\
     (forall e', fst p2 = Core.Err e' -> fst out = Core.Ok tt)).
Proof.
  intros V St1 St2 L1 L2 key v options now st l1 l2 o1 o2 p1 p2 out.
  split; [apply tiered_set_fast_write|].
  split.
  - intros e He.
    destruct (tiered_set_fast_failure key v options now st e He)
      as (Hr & Hl2 & _).
    auto.
  - intros Hok Hwt.
    destruct (tiered_set_write_through_step key v options now st Hok Hwt)
      as (Hr & Hl2 & _).
    auto.
Qed.

(** A write with [overwrite: false] of a key only the durable tier
    holds: the fast tier accepts it, the durable tier refuses it, the call
    succeeds. *)
Lemma tiered_set_write_through_witness :
  let o := Core.mkSetOptions None (Some false) in
  let out := MultiTierStore.set "k"%string 7 o 0 Sample.coldTiers in
  fst (Core.set "k"%string 7 (Core.mkSetOptions (Some 3600000) (Some false)) 0
         (Recorder.inner (MultiTierStore.l2Cache Sample.coldTiers))) =
    Core.Err (Core.createStoreError Core.OPERATION_FAILED (Some "k"%string)) /\
  fst out = Core.Ok tt /\
  Recorder.journal (MultiTierStore.l2Cache (snd out)) =
    [Recorder.CallSet "k"%string 7
       (Core.mkSetOptions (Some 3600000) (Some false))].
Proof.
  split; [reflexivity|].
  destruct (tiered_set_write_through Z Sample.Engine Sample.Engine _ _
              "k"%string 7 (Core.mkSetOptions None (Some false)) 0
              Sample.coldTiers) as (_ & _ & Hwt).
  destruct (Hwt eq_refl eq_refl) as (Hr & Hl2 & _).
  split; [exact Hr|]. cbv zeta. rewrite Hl2. reflexivity.
Defined.

(** ** Write-behind *)

Section QueueFacts.
Context {A : Type}.

Lemma JsMap_filter_absent (key : string) (m : JsMap.t A) :
  ~ In key (JsMap.keys m) ->
  List.filter (fun p => String.eqb key (fst p)) m = [].
Proof.
  unfold JsMap.keys. induction m as [|[k b] rest IH]; simpl; auto.
  intros Hn. destruct (String.eqb key k) eqn:E.
  - apply String.eqb_eq in E. subst. tauto.
  - apply IH. tauto.
Qed.

(** After [set], the map holds one pair for the key: the one written. *)
Lemma JsMap_filter_set (key : string) (a : A) (m : JsMap.t A) :
  NoDup (JsMap.keys m) ->
  List.filter (fun p => String.eqb key (fst p)) (JsMap.set key a m) =
  [(key, a)].
Proof.
  unfold JsMap.keys. induction m as [|[k b] rest IH]; simpl; intros Hnd.
  - now rewrite String.eqb_refl.
  - inversion Hnd as [|? ? Hnotin Hnd']; subst.
    destruct (String.eqb key k) eqn:E; simpl; rewrite E.
    + apply String.eqb_eq in E. subst k.
      now rewrite (JsMap_filter_absent key rest Hnotin).
    + auto.
Qed.

Lemma JsMap_set_nonempty (key : string) (a : A) (m : JsMap.t A) :
  (JsMap.size (JsMap.set key a m) =? 0) = false.
Proof.
  apply Z.eqb_neq. unfold JsMap.size.
  destruct m as [|[k b] rest]; simpl; [lia|].
  destruct (String.eqb key k); simpl; lia.
Qed.

End QueueFacts.

Section WriteBehindFacts.
Import Core.
Context {V St1 St2 : Type}.
Context `{L1 : IKeyValueStore V St1} `{L2 : IKeyValueStore V St2}.

Lemma queuedOperations_filter (key : string)
  (q : JsMap.t (MultiTierStore.QueueItem V)) :
  List.filter (fun op => String.eqb key (op_key op))
              (MultiTierStore.queuedOperations q) =
  MultiTierStore.queuedOperations
    (List.filter (fun p => String.eqb key (fst p)) q).
Proof.
  unfold MultiTierStore.queuedOperations, JsMap.entries.
  induction q as [|[k item] rest IH]; simpl; auto.
  destruct (String.eqb key k); simpl; now rewrite IH.
Qed.

(** A successful [set] under the write-behind policy queues the write and
    leaves the durable tier as it was. *)
Lemma tiered_set_write_behind_step (key : string) (v : V)
  (options : SetOptions) (now : Z) (st : MultiTierStore.t V St1 St2) :
  MultiTierStore.cfg_writeThrough (MultiTierStore.config st) = false ->
  MultiTierStore.cfg_writeBehind (MultiTierStore.config st) = true ->
  fst (MultiTierStore.set key v options now st) = Ok tt ->
  let st' := snd (MultiTierStore.set key v options now st) in
  MultiTierStore.l2Cache st' = MultiTierStore.l2Cache st /\
  MultiTierStore.config st' = MultiTierStore.config st /\
  MultiTierStore.writeBehindQueue st' =
  JsMap.set key
    (MultiTierStore.mkQueueItem v
       (mkSetOptions
          (Some (nullish (ttlMs options)
                   (MultiTierStore.cfg_l2TtlMs (MultiTierStore.config st))))
          (overwrite options))
       now)
    (MultiTierStore.writeBehindQueue st).
Proof.
  intros Hwt Hwb. unfold MultiTierStore.set.
  destruct (Core.set key v _ now (MultiTierStore.l1Cache st)) as [a s1].
  destruct a as [[]|e]; cbn; [|discriminate].
  rewrite Hwt, Hwb. cbn. auto.
Qed.

(** A flush of a queue that is not empty hands the whole queue to
    [mset] of the durable tier, once, and empties it. *)
Lemma flush_sends_one_batch (now : Z)
  (st : MultiTierStore.t V St1 (Recorder.t V St2)) :
  (JsMap.size (MultiTierStore.writeBehindQueue st) =? 0) = false ->
  let batch :=
    MultiTierStore.queuedOperations (MultiTierStore.writeBehindQueue st) in
  let st' := MultiTierStore.processWriteBehindQueue now st in
  MultiTierStore.l2Cache st' =
    Recorder.mkRecorder
      (snd (Core.mset batch now (Recorder.inner (MultiTierStore.l2Cache st))))
      (Recorder.journal (MultiTierStore.l2Cache st) ++
       [Recorder.CallMset batch]) /\
  MultiTierStore.writeBehindQueue st' = [].
Proof.
  intros Hsize. unfold MultiTierStore.processWriteBehindQueue.
  rewrite Hsize. cbn. unfold Recorder.forward.
  destruct (Core.mset _ now (Recorder.inner (MultiTierStore.l2Cache st)))
    as [r s2].
  cbn. split; auto.
  apply JsMap_delete_all_keys.
  intros p Hp. unfold JsMap.keys. now apply in_map.
Qed.

End WriteBehindFacts.

Section WriteBehindOverEngine.
Import Core.
Context {V St1 : Type} `{JV : JsonValue V} `{L1 : IKeyValueStore V St1}.

(** With an engine as durable tier and nothing else queued, the value a
    flush delivers can be read back from the durable tier until its TTL
    runs out. *)
Lemma flush_reaches_engine (key : string) (v : V) (o : SetOptions)
  (stamp now now' : Z)
  (st : MultiTierStore.t V St1 (EnhancedMemoryStore.t V)) (n : Z) :
  MultiTierStore.writeBehindQueue st =
    [(key, MultiTierStore.mkQueueItem v o stamp)] ->
  jsonLength v = Some n ->
  isFalse (overwrite o) = false ->
  (truthy (ttlMs o) = false \/ now' < now + orZero (ttlMs o)) ->
  forall options,
    fst (EnhancedMemoryStore.get key options now'
           (MultiTierStore.l2Cache
              (MultiTierStore.processWriteBehindQueue now st))) =
    Ok (Some v).
Proof.
  intros Hq Hn Hov Httl options.
  unfold MultiTierStore.processWriteBehindQueue. rewrite Hq.
  change (JsMap.size [(key, MultiTierStore.mkQueueItem v o stamp)] =? 0)
    with false.
  cbv iota.
  change (Core.mset
            (MultiTierStore.queuedOperations
               [(key, MultiTierStore.mkQueueItem v o stamp)])
            now (MultiTierStore.l2Cache st))
    with (let '(br, st') :=
            let '(r, st1) :=
              EnhancedMemoryStore.set key v o now (MultiTierStore.l2Cache st) in
            let '(br, st2) := (mkBatchResult [] [], st1) in
            match r with
            | Ok _ => (mkBatchResult (key :: successful br) (failed br), st2)
            | Err e =>
                (mkBatchResult (successful br) ((key, e) :: failed br), st2)
            end in
          (Ok (E := StoreError) br, st')).
  destruct (set_stores key v o now (MultiTierStore.l2Cache st) n Hn Hov)
    as [_ Hentry].
  destruct (EnhancedMemoryStore.set key v o now (MultiTierStore.l2Cache st))
    as [r s2].
  cbn [snd] in Hentry.
  assert (Hlive : fst (EnhancedMemoryStore.get key options now' s2) =
                  Ok (Some v)).
  { rewrite (get_live key options now' s2 _ Hentry); auto.
    unfold EnhancedMemoryStore.isExpired. cbn.
    destruct Httl as [Hf|Hlt]; [now rewrite Hf|].
    destruct (truthy (ttlMs o)); auto. apply Z.leb_gt. lia. }
  destruct r; exact Hlive.
Qed.

End WriteBehindOverEngine.

(** C2.  Under the write-behind policy ([writeThrough] off,
    [writeBehind] on), two successful writes of [k], of [v1] and then of
    [v2], with no flush in between, leave one queued entry for [k], the one
    of [v2], and make no call to the durable tier.  The flush that follows
    makes one call to the durable tier, an [mset] of the whole queue, and
    empties the queue; that batch has one operation for [k], which writes
    [v2].  With an engine as durable tier and nothing else queued, [k] then
    reads as [v2] from the durable tier. *)
Theorem write_behind_coalescing :
  (forall (V St1 St2 : Type)
          (L1 : Core.IKeyValueStore V St1) (L2 : Core.IKeyValueStore V St2)
          (st : MultiTierStore.t V St1 (Recorder.t V St2))
          (k : string) (v1 v2 : V) (o1 o2 : Core.SetOptions) (t1 t2 t3 : Z),
     MultiTierStore.cfg_writeThrough (MultiTierStore.config st) = false ->
     MultiTierStore.cfg_writeBehind (MultiTierStore.config st) = true ->
     NoDup (JsMap.keys (MultiTierStore.writeBehindQueue st)) ->
     let s1 := MultiTierStore.set k v1 o1 t1 st in
     let s2 := MultiTierStore.set k v2 o2 t2 (snd s1) in
     let st3 := MultiTierStore.processWriteBehindQueue t3 (snd s2) in
     fst s1 = Core.Ok tt ->
     fst s2 = Core.Ok tt ->
     let l2Options :=
       Core.mkSetOptions
         (Some (Core.nullish (Core.ttlMs o2)
                  (MultiTierStore.cfg_l2TtlMs (MultiTierStore.config st))))
         (Core.overwrite o2) in
     let batch :=
       MultiTierStore.queuedOperations
         (MultiTierStore.writeBehindQueue (snd s2)) in
     List.filter (fun p => String.eqb k (fst p))
                 (MultiTierStore.writeBehindQueue (snd s2)) =
       [(k, MultiTierStore.mkQueueItem v2 l2Options t2)] /\
     MultiTierStore.l2Cache (snd s2) = MultiTierStore.l2Cache st /\
     Recorder.journal (MultiTierStore.l2Cache st3) =
       Recorder.journal (MultiTierStore.l2Cache st) ++
       [Recorder.CallMset batch] /\
     MultiTierStore.writeBehindQueue st3 = [] /\
     List.filter (fun op => String.eqb k (Core.op_key op)) batch =
       [Core.mkBatchSetOperation k v2 l2Options]) /\
  (forall (V St1 : Type) (JV : Core.JsonValue V)
          (L1 : Core.IKeyValueStore V St1)
          (st : MultiTierStore.t V St1 (EnhancedMemoryStore.t V))
          (k : string) (v1 v2 : V) (o1 o2 : Core.SetOptions)
          (t1 t2 t3 t4 : Z) (n : Z) (options : Core.GetOptions V),
     MultiTierStore.cfg_writeThrough (MultiTierStore.config st) = false ->
     MultiTierStore.cfg_writeBehind (MultiTierStore.config st) = true ->
     MultiTierStore.writeBehindQueue st = [] ->
     let s1 := MultiTierStore.set k v1 o1 t1 st in
     let s2 := MultiTierStore.set k v2 o2 t2 (snd s1) in
     let st3 := MultiTierStore.processWriteBehindQueue t3 (snd s2) in
     fst s1 = Core.Ok tt ->
     fst s2 = Core.Ok tt ->
     Core.jsonLength v2 = Some n ->
     Core.isFalse (Core.overwrite o2) = false ->
     let ttl := Core.nullish (Core.ttlMs o2)
                  (MultiTierStore.cfg_l2TtlMs (MultiTierStore.config st)) in
     (ttl = 0 \/ t4 < t3 + ttl) ->
     fst (EnhancedMemoryStore.get k options t4 (MultiTierStore.l2Cache st3)) =
     Core.Ok (Some v2)).
Proof.
  split.
  - intros V St1 St2 L1 L2 st k v1 v2 o1 o2 t1 t2 t3 Hwt Hwb Hnd
           s1 s2 st3 Hs1 Hs2 l2Options batch.
    destruct (tiered_set_write_behind_step k v1 o1 t1 st Hwt Hwb Hs1)
      as (Hl2a & Hca & Hqa).
    fold s1 in Hl2a, Hca, Hqa.
    assert (Hwt' : MultiTierStore.cfg_writeThrough
                     (MultiTierStore.config (snd s1)) = false)
      by now rewrite Hca.
    assert (Hwb' : MultiTierStore.cfg_writeBehind
                     (MultiTierStore.config (snd s1)) = true)
      by now rewrite Hca.
    destruct (tiered_set_write_behind_step k v2 o2 t2 (snd s1) Hwt' Hwb' Hs2)
      as (Hl2b & Hcb & Hqb).
    fold s2 in Hl2b, Hcb, Hqb. rewrite Hca in Hqb. fold l2Options in Hqb.
    assert (Hnd1 : NoDup (JsMap.keys
                            (MultiTierStore.writeBehindQueue (snd s1)))).
    { rewrite Hqa. now apply JsMap_set_NoDup. }
    assert (Hfilter :
      List.filter (fun p => String.eqb k (fst p))
                  (MultiTierStore.writeBehindQueue (snd s2)) =
      [(k, MultiTierStore.mkQueueItem v2 l2Options t2)]).
    { rewrite Hqb. now apply JsMap_filter_set. }
    assert (Hsize :
      (JsMap.size (MultiTierStore.writeBehindQueue (snd s2)) =? 0) = false).
    { rewrite Hqb. apply JsMap_set_nonempty. }
    destruct (flush_sends_one_batch t3 (snd s2) Hsize) as [Hflush Hempty].
    fold st3 batch in Hflush, Hempty.
    split; [exact Hfilter|].
    split; [now rewrite Hl2b, Hl2a|].
    split; [rewrite Hflush; cbn; now rewrite Hl2b, Hl2a|].
    split; [exact Hempty|].
    subst batch. rewrite queuedOperations_filter, Hfilter. reflexivity.
  - intros V St1 JV L1 st k v1 v2 o1 o2 t1 t2 t3 t4 n options Hwt Hwb Hq
           s1 s2 st3 Hs1 Hs2 Hn Hov ttl Httl.
    destruct (tiered_set_write_behind_step k v1 o1 t1 st Hwt Hwb Hs1)
      as (Hl2a & Hca & Hqa).
    fold s1 in Hl2a, Hca, Hqa.
    assert (Hwt' : MultiTierStore.cfg_writeThrough
                     (MultiTierStore.config (snd s1)) = false)
      by now rewrite Hca.
    assert (Hwb' : MultiTierStore.cfg_writeBehind
                     (MultiTierStore.config (snd s1)) = true)
      by now rewrite Hca.
    destruct (tiered_set_write_behind_step k v2 o2 t2 (snd s1) Hwt' Hwb' Hs2)
      as (Hl2b & Hcb & Hqb).
    fold s2 in Hl2b, Hcb, Hqb. rewrite Hca in Hqb.
    rewrite Hqa, Hq in Hqb. cbn in Hqb. rewrite String.eqb_refl in Hqb.
    subst st3.
    apply (flush_reaches_engine k v2 _ t2 t3 t4 (snd s2) n Hqb Hn Hov).
    cbn. fold ttl. destruct Httl as [->|Hlt]; [now left|].
    destruct (ttl =? 0); cbn; auto.
Qed.

Lemma write_behind_coalescing_witness :
  (let s1 := MultiTierStore.set "k"%string 1 Core.noSetOptions 0
               Sample.writeBehindTiers in
   let s2 := MultiTierStore.set "k"%string 2 Core.noSetOptions 10 (snd s1) in
   let st3 := MultiTierStore.processWriteBehindQueue 5000 (snd s2) in
   Recorder.journal (MultiTierStore.l2Cache st3) =
     [Recorder.CallMset
        [Core.mkBatchSetOperation "k"%string 2
           (Core.mkSetOptions (Some 3600000) None)]] /\
   MultiTierStore.writeBehindQueue st3 = []) /\
  (let s1 := MultiTierStore.set "k"%string 1 Core.noSetOptions 0
               Sample.writeBehindTiersE in
   let s2 := MultiTierStore.set "k"%string 2 Core.noSetOptions 10 (snd s1) in
   let st3 := MultiTierStore.processWriteBehindQueue 5000 (snd s2) in
   fst (EnhancedMemoryStore.get "k"%string Core.noGetOptions 6000
          (MultiTierStore.l2Cache st3)) = Core.Ok (Some 2)).
Proof.
  split.
  2: {
    destruct write_behind_coalescing as [_ Heng].
    pose proof (Heng Z Sample.Engine _ _ Sample.writeBehindTiersE
                  "k"%string 1 2 Core.noSetOptions Core.noSetOptions
                  0 10 5000 6000 1 Core.noGetOptions
                  eq_refl eq_refl eq_refl) as H.
    cbv zeta in H.
    apply (H eq_refl eq_refl eq_refl eq_refl).
    right. reflexivity. }
  destruct write_behind_coalescing as [Hgen _].
  pose proof (Hgen Z Sample.Engine Sample.Engine _ _ Sample.writeBehindTiers
                "k"%string 1 2 Core.noSetOptions Core.noSetOptions 0 10 5000
                eq_refl eq_refl (NoDup_nil _)) as H.
  cbv zeta in H.
  destruct (H eq_refl eq_refl) as (_ & _ & Hj & Hq & _).
  split; [exact Hj | exact Hq].
Defined.

(** ** Default values *)

Section DefaultValueFacts.
Import Core.
Context {V : Type} `{JV : JsonValue V}.

(** With a default value in its options, the engine never answers
    [undefined]. *)
Lemma engine_get_with_default (key : string) (refresh : option bool) (d : V)
  (now : Z) (st : EnhancedMemoryStore.t V) :
  exists x,
    fst (EnhancedMemoryStore.get key (mkGetOptions refresh (Some d)) now st) =
    Ok (Some x).
Proof.
  unfold EnhancedMemoryStore.get.
  destruct (JsMap.get key (EnhancedMemoryStore.map st)) as [entry|];
    [destruct (EnhancedMemoryStore.isExpired now entry)|]; cbn; eauto.
Qed.

Lemma tiered_get_with_default {St2 : Type} `{L2 : IKeyValueStore V St2}
  (key : string) (refresh : option bool) (d : V) (now : Z)
  (st : MultiTierStore.t V (EnhancedMemoryStore.t V) St2) :
  let options := mkGetOptions refresh (Some d) in
  fst (MultiTierStore.get key options now st) =
    fst (EnhancedMemoryStore.get key options now (MultiTierStore.l1Cache st)) /\
  MultiTierStore.l2Cache (snd (MultiTierStore.get key options now st)) =
    MultiTierStore.l2Cache st.
Proof.
  intros options. unfold MultiTierStore.get.
  change (@Core.get V _ EnhancedMemoryStore.store)
    with (@EnhancedMemoryStore.get V).
  destruct (engine_get_with_default key refresh d now
              (MultiTierStore.l1Cache st)) as [x Hx].
  fold options in Hx.
  destruct (EnhancedMemoryStore.get key options now
              (MultiTierStore.l1Cache st)) as [a s1].
  cbn [fst] in Hx. subst a. cbn. auto.
Qed.

End DefaultValueFacts.

(** C10.  An engine [get] that carries a default value answers a missing
    or expired key with a success holding that default, and counts a miss.
    A tiered [get] that carries a default value, over an engine as fast
    tier, returns what the fast tier answers and never calls the durable
    tier; for a key the fast tier does not hold, that answer is the
    default value. *)
Theorem default_value_masks_miss :
  (forall (V : Type) (JV : Core.JsonValue V)
          (key : string) (refresh : option bool) (d : V) (now : Z)
          (st : EnhancedMemoryStore.t V),
     match JsMap.get key (EnhancedMemoryStore.map st) with
     | None => True
     | Some entry => EnhancedMemoryStore.isExpired now entry = true
     end ->
     let out := EnhancedMemoryStore.get key
                  (Core.mkGetOptions refresh (Some d)) now st in
     fst out = Core.Ok (Some d) /\
     EnhancedMemoryStore.misses (EnhancedMemoryStore.stats (snd out)) =
     EnhancedMemoryStore.misses (EnhancedMemoryStore.stats st) + 1) /\
  (forall (V St2 : Type) (JV : Core.JsonValue V)
          (L2 : Core.IKeyValueStore V St2)
          (key : string) (refresh : option bool) (d : V) (now : Z)
          (st : MultiTierStore.t V (EnhancedMemoryStore.t V)
                  (Recorder.t V St2)),
     let options := Core.mkGetOptions refresh (Some d) in
     let out := MultiTierStore.get key options now st in
     fst out =
       fst (EnhancedMemoryStore.get key options now
              (MultiTierStore.l1Cache st)) /\
     Recorder.journal (MultiTierStore.l2Cache (snd out)) =
       Recorder.journal (MultiTierStore.l2Cache st) /\
     (match JsMap.get key
              (EnhancedMemoryStore.map (MultiTierStore.l1Cache st)) with
      | None => True
      | Some entry => EnhancedMemoryStore.isExpired now entry = true
      end -> fst out = Core.Ok (Some d))).
Proof.
  split.
  - intros V JV key refresh d now st Habs out.
    destruct (get_absent key (Core.mkGetOptions refresh (Some d)) now st Habs)
      as (Hr & Hm & _).
    auto.
  - intros V St2 JV L2 key refresh d now st options out.
    destruct (tiered_get_with_default key refresh d now st) as [Hr Hl2].
    fold options in Hr, Hl2. fold out in Hr, Hl2.
    split; [exact Hr|]. split; [now rewrite Hl2|].
    intros Habs. rewrite Hr.
    apply (get_absent key options now (MultiTierStore.l1Cache st) Habs).
Qed.

(** The durable tier holds [k = 42], the fast tier is empty: with a
    default of 7 the tiered [get] answers 7 and the durable tier is not
    asked. *)
Lemma default_value_masks_miss_witness :
  let out := MultiTierStore.get "k"%string (Core.mkGetOptions None (Some 7)) 0
               Sample.coldTiersE in
  fst out = Core.Ok (Some 7) /\
  Recorder.journal (MultiTierStore.l2Cache (snd out)) = [].
Proof.
  destruct default_value_masks_miss as [_ Htier].
  destruct (Htier Z Sample.Engine _ _ "k"%string None 7 0 Sample.coldTiersE)
    as (_ & Hj & Hd).
  split; [exact (Hd I) | exact Hj].
Defined.

(** ** Fetch orchestration *)

Section RetryLoopFacts.
Import Core CacheItem.
Context {V St : Type}.

Variables (f : Fetcher (V := V)) (maxRetries retryDelayMs : Z).

(** The loop left through [break]: [j] failed attempts, then a success. *)
Definition succeeded (ls : LoopState (V := V)) (w : World St)
  (ls' : LoopState (V := V)) (w' : World St) : Prop :=
  exists (j : nat) (v : V),
    (forall i, (i < j)%nat -> isOk (f (fetcherCalls w + i)%nat) = false) /\
    f (fetcherCalls w + j)%nat = Ok v /\
    ls_retryCount ls + Z.of_nat j <= maxRetries /\
    ls' = mkLoopState (ls_retryCount ls + Z.of_nat j)
                      (ls_retryAttempted ls || negb (Nat.eqb j 0))
                      (Some (Ok v)) /\
    fetcherCalls w' = S (fetcherCalls w + j) /\
    timers w' = timers w ++ List.repeat retryDelayMs j /\
    clock w' = clock w + Z.of_nat j * Z.max 0 retryDelayMs.

(** The loop left through its condition: every attempt the bound allows
    was made and failed. *)
Definition exhausted (ls : LoopState (V := V)) (w : World St)
  (ls' : LoopState (V := V)) (w' : World St) : Prop :=
  let n := Z.to_nat (maxRetries + 1 - ls_retryCount ls) in
  (forall i, (i < n)%nat -> isOk (f (fetcherCalls w + i)%nat) = false) /\
  fetcherCalls w' = (fetcherCalls w + n)%nat /\
  timers w' = timers w ++ List.repeat retryDelayMs (n - 1) /\
  clock w' = clock w + Z.of_nat (n - 1) * Z.max 0 retryDelayMs /\
  (n = O -> ls' = ls) /\
  ((0 < n)%nat ->
   ls' = mkLoopState (maxRetries + 1) true
                     (Some (f (fetcherCalls w + (n - 1))%nat))).

(** The retry loop terminates, and leaves in one of the two ways above
    without touching the store. *)
Lemma retryLoop_spec (fuel : nat) (ls : LoopState (V := V)) (w : World St) :
  (Z.to_nat (maxRetries + 1 - ls_retryCount ls) < fuel)%nat ->
  exists ls' w',
    retryLoop fuel f maxRetries retryDelayMs ls w = Some (ls', w') /\
    store w' = store w /\
    (succeeded ls w ls' w' \/ exhausted ls w ls' w').
Proof.
  revert ls w. induction fuel as [|fuel IH]; intros ls w Hfuel; [lia|].
  cbn [retryLoop].
  destruct (ls_retryCount ls <=? maxRetries) eqn:Hle.
  - apply Z.leb_le in Hle. unfold invoke.
    destruct (f (fetcherCalls w)) as [v|e] eqn:Hf.
    + eexists _, _. split; [reflexivity|]. split; [reflexivity|].
      left. exists O, v. cbn.
      rewrite Nat.add_0_r, Z.add_0_r, orb_false_r, app_nil_r.
      repeat split; auto; try lia.
    + set (w1 := mkWorld (store w) (S (fetcherCalls w)) (clock w) (timers w)).
      set (ls2 := mkLoopState (ls_retryCount ls + 1) true
                              (Some (Err (T := V) e))).
      set (w2 := if ls_retryCount ls + 1 <=? maxRetries
                 then sleep retryDelayMs w1 else w1).
      assert (Hstore2 : store w2 = store w).
      { subst w2. destruct (_ <=? _); reflexivity. }
      assert (Hcalls2 : fetcherCalls w2 = S (fetcherCalls w)).
      { subst w2. destruct (_ <=? _); reflexivity. }
      destruct (IH ls2 w2) as (ls' & w' & Hrun & Hst & Hout).
      { subst ls2. cbn. lia. }
      exists ls', w'. split; [exact Hrun|].
      split; [now rewrite Hst|].
      destruct Hout as [(j & v & Hfail & Hok & Hbound & Hls & Hc & Ht & Hk)
                       |(Hfail & Hc & Ht & Hk & Hz & Hp)].
      * left. exists (S j), v. subst ls2. cbn in Hbound, Hls.
        assert (Hsleep : (ls_retryCount ls + 1 <=? maxRetries) = true)
          by (apply Z.leb_le; lia).
        subst w2. rewrite Hsleep in *. cbn in Hc, Ht, Hk, Hok, Hfail.
        repeat split.
        -- intros i Hi. destruct i as [|i].
           ++ now rewrite Nat.add_0_r, Hf.
           ++ rewrite Nat.add_succ_r. apply Hfail. lia.
        -- now rewrite Nat.add_succ_r.
        -- lia.
        -- rewrite Hls, orb_true_r. f_equal. lia.
        -- rewrite Hc. lia.
        -- rewrite Ht, <- app_assoc. reflexivity.
        -- rewrite Hk. lia.
      * right. subst ls2. unfold exhausted in *.
        cbn [ls_retryCount] in Hfail, Hc, Ht, Hk, Hz, Hp.
        remember (Z.to_nat (maxRetries + 1 - (ls_retryCount ls + 1))) as n'
          eqn:Hn'.
        replace (Z.to_nat (maxRetries + 1 - ls_retryCount ls)) with (S n')
          by lia.
        cbv zeta in *. rewrite Hcalls2 in *.
        assert (Hw2 :
          timers w2 ++ List.repeat retryDelayMs (n' - 1) =
            timers w ++ List.repeat retryDelayMs n' /\
          clock w2 + Z.of_nat (n' - 1) * Z.max 0 retryDelayMs =
            clock w + Z.of_nat n' * Z.max 0 retryDelayMs).
        { subst w2.
          destruct (ls_retryCount ls + 1 <=? maxRetries) eqn:Hs.
          - apply Z.leb_le in Hs.
            destruct n' as [|n'']; [lia|].
            cbn [Nat.sub sleep timers clock w1 List.repeat].
            rewrite Nat.sub_0_r, <- app_assoc. split; [reflexivity|]. lia.
          - apply Z.leb_gt in Hs.
            assert (n' = O) by lia. subst n'. rewrite H.
            cbn. rewrite app_nil_r. split; [reflexivity|]. lia. }
        destruct Hw2 as [Hw2t Hw2k].
        cbn [Nat.sub]. rewrite !Nat.sub_0_r.
        repeat split.
        -- intros i Hi. destruct i as [|i].
           ++ now rewrite Nat.add_0_r, Hf.
           ++ rewrite Nat.add_succ_r. apply Hfail. lia.
        -- rewrite Hc. lia.
        -- now rewrite Ht, Hw2t.
        -- now rewrite Hk, Hw2k.
        -- lia.
        -- intros _. destruct n' as [|n''].
           ++ rewrite (Hz eq_refl). rewrite Nat.add_0_r, Hf.
              f_equal. lia.
           ++ rewrite Hp by lia. cbn [Nat.sub].
              rewrite !Nat.sub_0_r, Nat.add_succ_r. reflexivity.
  - apply Z.leb_gt in Hle.
    eexists _, _. split; [reflexivity|]. split; [reflexivity|].
    right. unfold exhausted.
    replace (Z.to_nat (maxRetries + 1 - ls_retryCount ls)) with O by lia.
    cbn. rewrite Nat.add_0_r, app_nil_r.
    repeat split; auto; try lia.
Qed.

End RetryLoopFacts.

Section CacheItemFacts.
Import Core CacheItem.
Context {V St : Type} `{Store : IKeyValueStore V St}.

Variables (cfg : GlobalConfig) (input : CacheItemInput (V := V)) (w : World St).

Let o := options input.
Let m := nullish (maxRetries o) 2.
Let d := nullish (retryDelayMs o) 1000.
Let g := Core.get (key input)
           (mkGetOptions (Some (nullish (refreshTtl o) false)) None)
           (clock w) (store w).
Let w1 := withStore (snd g) w.
Let ls0 := mkLoopState (V := V) 0 false None.
Let out := cacheItem cfg input w.

(** A hit returns the stored value and leaves fetcher and timers alone. *)
Lemma cacheItem_hit (v : V) :
  fst g = Ok (Some v) ->
  out = (Ok (mkCacheResult v true (mkMetadata (clock w - clock w) true false 0)),
         w1).
Proof.
  subst out w1 g o. unfold cacheItem.
  destruct (Core.get (key input) _ (clock w) (store w)) as [a s1].
  cbn [fst snd]. intros ->. reflexivity.
Qed.

(** On a miss the retry loop runs to its end; what [cacheItem] returns
    is decided by the loop variables it leaves. *)
Lemma cacheItem_miss :
  isHit (fst g) = false ->
  exists ls w2,
    retryLoop (retryFuel m) (fetcher input) m d ls0 w1 = Some (ls, w2) /\
    store w2 = store w1 /\
    (succeeded (fetcher input) m d ls0 w1 ls w2 \/
     exhausted (fetcher input) m d ls0 w1 ls w2) /\
    match ls_fetchResult ls with
    | Some (Ok fetched) =>
        let p := Core.set (key input) fetched
                   (mkSetOptions
                      (Some (nullish (ttlMs o)
                               (nullish (defaultTtlMs cfg) (5 * 60 * 1000))))
                      (Some true))
                   (clock w2) (store w2) in
        let fresh :=
          mkCacheResult fetched false
            (mkMetadata (clock w2 - clock w) false
                        (ls_retryAttempted ls) (ls_retryCount ls)) in
        snd out = withStore (snd p) w2 /\
        (match fst p with
         | Ok _ => fst out = Ok fresh
         | Err e =>
             if negb (nullish (storeOnError o) false)
             then fst out = Ok fresh
             else fst out =
                  Err (createCacheError STORE_FAILED
                         (StoreContext (key input) e))
         end)
    | other =>
        snd out = w2 /\
        match defaultValue o with
        | Some dv =>
            fst out =
            Ok (mkCacheResult dv false
                  (mkMetadata (clock w2 - clock w) false
                              (ls_retryAttempted ls) (ls_retryCount ls)))
        | None =>
            fst out =
            Err (createCacheError FETCH_FAILED
                   (FetchContext (key input) (ls_retryCount ls)
                                 (lastErrorOf other)))
        end
    end.
Proof.
  intros Hmiss.
  destruct (retryLoop_spec (St := St) (fetcher input) m d (retryFuel m) ls0 w1)
    as (ls & w2 & Hrun & Hst & Hout).
  { subst ls0. cbn. unfold retryFuel. rewrite Z.sub_0_r. lia. }
  exists ls, w2. split; [exact Hrun|]. split; [exact Hst|].
  split; [exact Hout|].
  subst out. unfold cacheItem.
  fold o. fold m. fold d. fold g.
  destruct g as [a s1] eqn:Hg. cbn [fst snd] in *.
  fold w1.
  assert (Hgo :
    forall (X : Type) (hit : V -> X) (miss : X),
      match a with
      | Ok (Some v) => hit v
      | _ => miss
      end = miss).
  { intros. destruct a as [[?|]|?]; auto. discriminate. }
  rewrite Hgo. clear Hgo. fold ls0. rewrite Hrun.
  destruct (ls_fetchResult ls) as [[fetched|e]|] eqn:Hres.
  - cbv zeta.
    destruct (Core.set (key input) fetched _ (clock w2) (store w2))
      as [sr s3].
    cbn [fst snd]. destruct sr as [u|e].
    + auto.
    + destruct (negb (nullish (storeOnError o) false)); auto.
  - destruct (defaultValue o); auto.
  - destruct (defaultValue o); auto.
Qed.

End CacheItemFacts.




Section CacheItemFailureFacts.
Import Core CacheItem.
Context {V : Type} `{JV : JsonValue V}.


End CacheItemFailureFacts.


Section AllAttemptsFail.
Import Core CacheItem.
Context {V St : Type} `{Store : IKeyValueStore V St}.

Variables (cfg : GlobalConfig) (input : CacheItemInput (V := V)) (w : World St).

Let o := options input.
Let m := nullish (maxRetries o) 2.
Let c := fetcherCalls w.
Let out := cacheItem cfg input w.


End AllAttemptsFail.



(** ** Expired entries that are still in the map *)

Section LazyExpiryFacts.
Import Core EnhancedMemoryStore.
Context {V : Type} `{JV : JsonValue V}.

(** The expiry branch of [get] unlinks the entry and leaves [keyCount]
    and [memoryUsageBytes] as they were. *)
Lemma get_expired_keeps_counters (key : string) (options : GetOptions V)
  (now : Z) (st : t V) (entry : InMemoryEntry V) :
  JsMap.get key (map st) = Some entry ->
  isExpired now entry = true ->
  let st' := snd (get key options now st) in
  map st' = JsMap.delete key (map st) /\
  keyCount (stats st') = keyCount (stats st) /\
  memoryUsageBytes (stats st') = memoryUsageBytes (stats st).
Proof.
  intros Hget Hexp. unfold get. rewrite Hget, Hexp. cbn. auto.
Qed.

Lemma JsMap_delete_absent {A : Type} (key : string) (m : JsMap.t A) :
  ~ In key (JsMap.keys m) -> JsMap.delete key m = m.
Proof.
  unfold JsMap.delete, JsMap.keys.
  induction m as [|[k b] rest IH]; cbn; auto.
  intros Hn. destruct (String.eqb key k) eqn:E; cbn.
  - apply String.eqb_eq in E. subst. tauto.
  - rewrite IH; tauto.
Qed.

(** Deleting a key a well-formed map holds removes one entry and its
    size. *)
Lemma JsMap_delete_present (key : string) (m : JsMap.t (InMemoryEntry V))
  (entry : InMemoryEntry V) :
  NoDup (JsMap.keys m) ->
  JsMap.get key m = Some entry ->
  JsMap.size (JsMap.delete key m) = JsMap.size m - 1 /\
  totalSize (JsMap.delete key m) =
  totalSize m - sizeBytes (metadata entry).
Proof.
  unfold JsMap.size.
  induction m as [|[k b] rest IH]; cbn [JsMap.get]; [discriminate|].
  intros Hnd Hget. inversion Hnd as [|? ? Hnotin Hnd']; subst.
  unfold JsMap.delete. cbn [List.filter fst].
  destruct (String.eqb key k) eqn:E; cbn [negb].
  - apply String.eqb_eq in E. subst k. injection Hget as ->.
    fold (JsMap.delete key rest).
    rewrite (JsMap_delete_absent key rest Hnotin).
    unfold totalSize. cbn [List.length List.fold_right snd].
    split; lia.
  - fold (JsMap.delete key rest).
    destruct (IH Hnd' Hget) as [Hsz Htot].
    unfold totalSize in *. cbn [List.length List.fold_right snd].
    rewrite Htot. split; lia.
Qed.

(** [delete] keeps the statistics in step with the map. *)
Lemma delete_keeps_consistency (key : string) (now : Z) (st : t V) :
  NoDup (JsMap.keys (map st)) ->
  statsConsistent st ->
  statsConsistent (snd (delete key now st)).
Proof.
  intros Hnd [Hk Hm]. unfold delete.
  destruct (JsMap.get key (map st)) as [entry|] eqn:E; [|now split].
  destruct (JsMap_delete_present key (map st) entry Hnd E) as [Hsz Htot].
  unfold statsConsistent, withStats, unlink, release.
  cbn [snd stats map keyCount memoryUsageBytes].
  rewrite Hsz, Htot. split; lia.
Qed.

(** The expiry branch of [get] does not: after it the counters exceed
    the map by the entry that was unlinked. *)
Lemma get_expired_breaks_consistency (key : string) (options : GetOptions V)
  (now : Z) (st : t V) (entry : InMemoryEntry V) :
  NoDup (JsMap.keys (map st)) ->
  statsConsistent st ->
  JsMap.get key (map st) = Some entry ->
  isExpired now entry = true ->
  let st' := snd (get key options now st) in
  keyCount (stats st') = JsMap.size (map st') + 1 /\
  memoryUsageBytes (stats st') =
  totalSize (map st') + sizeBytes (metadata entry).
Proof.
  intros Hnd [Hk Hm] Hget Hexp st'.
  destruct (get_expired_keeps_counters key options now st entry Hget Hexp)
    as (Hmap & Hkc & Hmem).
  fold st' in Hmap, Hkc, Hmem.
  destruct (JsMap_delete_present key (map st) entry Hnd Hget) as [Hsz Htot].
  rewrite Hkc, Hmem, Hmap, Hsz, Htot. split; lia.
Qed.

(** With a pattern, [keys] keeps the keys the regular expression obtained
    from the pattern accepts. *)
Lemma keys_pattern_filters (RE : RegExpEngine) (c : ascii) (p : string)
  (test : string -> bool) (st : t V) :
  newRegExp (replaceStars (String c p)) = Some test ->
  keys (Some (String c p)) st = Ok (List.filter test (JsMap.keys (map st))).
Proof.
  intros Hre. unfold keys. now rewrite Hre.
Qed.

(** [set] with [overwrite: false] is refused exactly when the map has an
    entry under the key, expired or not. *)
Lemma set_no_overwrite_refused_iff (key : string) (v : V) (ttl : option Z)
  (now : Z) (st : t V) (n : Z) :
  jsonLength v = Some n ->
  (isOk (fst (set key v (mkSetOptions ttl (Some false)) now st)) = false <->
   JsMap.get key (map st) <> None).
Proof.
  intros Hn. unfold set, calculateSize. rewrite Hn.
  destruct (JsMap.get key (map st)) as [entry|]; cbn; split; intros H;
    congruence.
Qed.

End LazyExpiryFacts.

(** C6.  At time 0, [k = 42] is stored with a TTL of 100 ms; the
    statistics agree with the map.  A [get] at time 200 expires the entry:
    the map is empty, [keyCount] is still 1 and [memoryUsageBytes] still 4.
    [has], [getTtl] and [sizeof] do the same.  [delete], [cleanup] and
    [evict] on the same state bring both counters to 0. *)
Theorem lazy_expiry_leaves_stats_stale :
  let st := Sample.engineWithTtl in
  let stale (st' : Sample.Engine) :=
    EnhancedMemoryStore.map st' = [] /\
    EnhancedMemoryStore.keyCount (EnhancedMemoryStore.stats st') = 1 /\
    EnhancedMemoryStore.memoryUsageBytes (EnhancedMemoryStore.stats st') = 4 /\
    ~ EnhancedMemoryStore.statsConsistent st' in
  let settled (st' : Sample.Engine) :=
    EnhancedMemoryStore.map st' = [] /\
    EnhancedMemoryStore.statsConsistent st' in
  EnhancedMemoryStore.statsConsistent st /\
  stale (snd (EnhancedMemoryStore.get "k"%string Core.noGetOptions 200 st)) /\
  stale (snd (EnhancedMemoryStore.has "k"%string 200 st)) /\
  stale (snd (EnhancedMemoryStore.getTtl "k"%string 200 st)) /\
  stale (snd (EnhancedMemoryStore.sizeof "k"%string 200 st)) /\
  settled (snd (EnhancedMemoryStore.delete "k"%string 200 st)) /\
  settled (snd (EnhancedMemoryStore.cleanup 200 st)) /\
  settled (snd (EnhancedMemoryStore.evict 1 st)).
Proof.
  cbv zeta. unfold EnhancedMemoryStore.statsConsistent.
  repeat split; try reflexivity; cbn; intros [H _]; discriminate H.
Qed.

(** C7.  At time 0, [k = 42] is stored with a TTL of 100 ms.  At time 200
    the entry has expired and [has] answers [false], yet [keys()], which
    consults no clock, lists [k]. *)
Theorem keys_lists_expired_entry :
  forall RE : Core.RegExpEngine,
    let st := Sample.engineWithTtl in
    (exists entry,
       JsMap.get "k"%string (EnhancedMemoryStore.map st) = Some entry /\
       EnhancedMemoryStore.isExpired 200 entry = true) /\
    fst (EnhancedMemoryStore.has "k"%string 200 st) = Core.Ok false /\
    EnhancedMemoryStore.keys None st = Core.Ok ["k"%string].
Proof.
  intros RE. cbv zeta. split; [|split]; try reflexivity.
  eexists. split; reflexivity.
Qed.

(** C8.  [k] is stored at time 0 with a TTL of 100 ms.  A refreshing
    [get] at time 50 sets [expiresAt] to 150, which is 50 + 100.  A second
    refreshing [get] at time 100 sets it to 250, not to 100 + 100: the
    duration added is [expiresAt - createdAt], which the first refresh made
    150. *)
Theorem repeated_refresh_drifts :
  let refresh := Core.mkGetOptions (V := Z) (Some true) None in
  let expiry (st : Sample.Engine) :=
    match JsMap.get "k"%string (EnhancedMemoryStore.map st) with
    | Some entry => Core.expiresAt (EnhancedMemoryStore.metadata entry)
    | None => None
    end in
  let st0 := Sample.engineWithTtl in
  let st1 := snd (EnhancedMemoryStore.get "k"%string refresh 50 st0) in
  let st2 := snd (EnhancedMemoryStore.get "k"%string refresh 100 st1) in
  expiry st0 = Some 100 /\
  expiry st1 = Some (50 + 100) /\
  expiry st2 = Some 250 /\
  expiry st2 <> Some (100 + 100).
Proof.
  cbv zeta. repeat split; try reflexivity. cbn. discriminate.
Qed.

(** C9.  [k] is stored at time 0 with a TTL of 100 ms.  At time 200 the
    entry has expired ([has] answers [false]), and [set] with
    [overwrite: false] is refused with [OPERATION_FAILED], leaving the
    store as it was. *)
Theorem set_no_overwrite_refuses_expired_key :
  let st := Sample.engineWithTtl in
  fst (EnhancedMemoryStore.has "k"%string 200 st) = Core.Ok false /\
  EnhancedMemoryStore.set "k"%string 7 (Core.mkSetOptions None (Some false))
    200 st =
  (Core.Err (Core.createStoreError Core.OPERATION_FAILED (Some "k"%string)),
   st).
Proof.
  cbv zeta. split; reflexivity.
Qed.

(* ================================================================== *)
(** * Further properties *)
(* ================================================================== *)

(** ** The engine keeps map and recency list in step *)

Section JsMapKeyFacts.
Context {A : Type}.

Lemma JsMap_keys_delete (key : string) (m : JsMap.t A) :
  JsMap.keys (JsMap.delete key m) =
  List.filter (fun k => negb (String.eqb key k)) (JsMap.keys m).
Proof.
  unfold JsMap.keys, JsMap.delete.
  induction m as [|[k b] rest IH]; cbn; auto.
  destruct (String.eqb key k); cbn; now rewrite IH.
Qed.

Lemma JsMap_get_delete_ne (key key' : string) (m : JsMap.t A) :
  key <> key' -> JsMap.get key (JsMap.delete key' m) = JsMap.get key m.
Proof.
  intros Hne. unfold JsMap.delete.
  induction m as [|[k b] rest IH]; cbn; auto.
  destruct (String.eqb key' k) eqn:E; cbn.
  - apply String.eqb_eq in E. subst k.
    destruct (String.eqb key key') eqn:E'; auto.
    apply String.eqb_eq in E'. contradiction.
  - now rewrite IH.
Qed.

Lemma JsMap_in_keys_get (key : string) (m : JsMap.t A) :
  In key (JsMap.keys m) -> exists a, JsMap.get key m = Some a.
Proof.
  unfold JsMap.keys. induction m as [|[k b] rest IH]; cbn; [tauto|].
  intros [->|Hin].
  - rewrite String.eqb_refl. eauto.
  - destruct (String.eqb key k); eauto.
Qed.

Lemma JsMap_has_in_keys (key : string) (m : JsMap.t A) :
  JsMap.has key m = true <-> In key (JsMap.keys m).
Proof.
  unfold JsMap.has. split.
  - destruct (JsMap.get key m) eqn:E; [|discriminate].
    intros _. eapply JsMap_get_in_keys; eauto.
  - intros Hin. destruct (JsMap_in_keys_get key m Hin) as [a ->]. reflexivity.
Qed.

End JsMapKeyFacts.

Section WellFormedFacts.
Import Core EnhancedMemoryStore.
Context {V : Type} `{JV : JsonValue V}.

Lemma wellFormed_ext (st st' : t V) :
  map st' = map st -> lru st' = lru st -> wellFormed st -> wellFormed st'.
Proof. unfold wellFormed. intros -> ->. auto. Qed.

Lemma wellFormed_create (cfg : MemoryStoreConfig) :
  wellFormed (create (V := V) cfg).
Proof.
  unfold wellFormed, create. cbn.
  split; [constructor|]. split; [constructor|]. tauto.
Qed.

Lemma wellFormed_unlink (key : string) (st : t V) :
  wellFormed st -> wellFormed (unlink key st).
Proof.
  intros (Hm & Hl & Hiff). unfold wellFormed, unlink, removeFromLRU.
  cbn [map lru]. rewrite JsMap_keys_delete.
  split; [now apply NoDup_filter|]. split; [now apply NoDup_filter|].
  intros k. rewrite !filter_In, Hiff. tauto.
Qed.

(** Writing an entry under [key] and moving [key] to the head. *)
Lemma wellFormed_write (key : string) (entry : InMemoryEntry V)
  (st st' : t V) :
  map st' = JsMap.set key entry (map st) ->
  lru st' = moveToHead key (lru st) ->
  wellFormed st -> wellFormed st'.
Proof.
  intros Hmap Hlru (Hm & Hl & Hiff). unfold wellFormed.
  rewrite Hmap, Hlru. unfold moveToHead, removeFromLRU.
  split; [now apply JsMap_set_NoDup|].
  split.
  - constructor; [|now apply NoDup_filter].
    rewrite filter_In, String.eqb_refl. cbn. intros [_ ?]. discriminate.
  - intros k0. rewrite JsMap_keys_set. cbn. rewrite filter_In, Hiff.
    destruct (JsMap.has key (map st)) eqn:Hhas.
    + apply JsMap_has_in_keys in Hhas.
      destruct (String.eqb key k0) eqn:E.
      * apply String.eqb_eq in E. subst. tauto.
      * apply String.eqb_neq in E. cbn. tauto.
    + rewrite in_app_iff. cbn.
      destruct (String.eqb key k0) eqn:E.
      * apply String.eqb_eq in E. subst. tauto.
      * apply String.eqb_neq in E. cbn. intuition congruence.
Qed.

(** Replacing the entry of a key the map holds, recency untouched. *)
Lemma wellFormed_update (key : string) (old entry : InMemoryEntry V)
  (st st' : t V) :
  JsMap.get key (map st) = Some old ->
  map st' = JsMap.set key entry (map st) ->
  lru st' = lru st ->
  wellFormed st -> wellFormed st'.
Proof.
  intros Hget Hmap Hlru (Hm & Hl & Hiff). unfold wellFormed.
  rewrite Hmap, Hlru, JsMap_keys_set. unfold JsMap.has. rewrite Hget. auto.
Qed.

Lemma wellFormed_evictWalk (nodes : list string) (count evicted : Z)
  (st : t V) :
  wellFormed st -> wellFormed (snd (evictWalk nodes count evicted st)).
Proof.
  revert evicted st. induction nodes as [|key rest IH]; intros ev st Hwf;
    cbn; auto.
  destruct (ev <? count); cbn; auto.
  destruct (JsMap.get key (map st)) as [entry|]; auto.
  match goal with |- context [evictWalk rest count ?e ?s] =>
    specialize (IH e s); destruct (evictWalk rest count e s) end.
  cbn in *. apply IH.
  apply (wellFormed_ext (unlink key st)); auto.
  now apply wellFormed_unlink.
Qed.

Lemma wellFormed_evict (count : Z) (st : t V) :
  wellFormed st -> wellFormed (snd (evict count st)).
Proof.
  intros Hwf. unfold evict.
  pose proof (wellFormed_evictWalk (rev (lru st)) count 0 st Hwf).
  destruct (evictWalk (rev (lru st)) count 0 st). exact H.
Qed.

Lemma wellFormed_evictLoop (fuel : nat) (target : option Z) (st st' : t V) :
  wellFormed st -> evictLoop fuel target st = Some st' -> wellFormed st'.
Proof.
  revert st. induction fuel as [|fuel IH]; intros st Hwf; cbn; [discriminate|].
  destruct (match target with
            | Some tb => memoryUsageBytes (stats st) >? tb
            | None => false
            end); [|now intros [= <-]].
  pose proof (wellFormed_evict 10 st Hwf) as Hev.
  destruct (evict 10 st) as [r s1]. cbn in Hev.
  destruct r as [[|k ks]|e].
  - now intros [= <-].
  - now apply IH.
  - now apply IH.
Qed.

Lemma wellFormed_evictToMakeSpace (requiredBytes : Z) (st : t V) :
  wellFormed st -> wellFormed (evictToMakeSpace requiredBytes st).
Proof.
  intros Hwf.
  destruct (evictToMakeSpace_total requiredBytes st) as (st' & Hrun & ->).
  eapply wellFormed_evictLoop; eauto.
Qed.

Lemma wellFormed_set (key : string) (v : V) (options : SetOptions) (now : Z)
  (st : t V) :
  wellFormed st -> wellFormed (snd (set key v options now st)).
Proof.
  intros Hwf. unfold set.
  destruct (JsMap.get key (map st)) as [existing|];
    destruct (isFalse (overwrite options)); cbn; auto;
    destruct (calculateSize v) as [size|]; cbn; auto.
  all: match goal with
       | |- wellFormed (mkStore _ (JsMap.set ?k ?e (map ?s1)) _ _) =>
           apply (wellFormed_write k e s1); auto
       end.
  all: match goal with
       | |- wellFormed (if ?c then _ else _) => destruct c; auto
       end.
  all: now apply wellFormed_evictToMakeSpace.
Qed.

Lemma wellFormed_get (key : string) (options : GetOptions V) (now : Z)
  (st : t V) :
  wellFormed st -> wellFormed (snd (get key options now st)).
Proof.
  intros Hwf. unfold get.
  destruct (JsMap.get key (map st)) as [entry|]; cbn.
  - destruct (isExpired now entry); cbn.
    + apply (wellFormed_ext (unlink key st)); auto.
      now apply wellFormed_unlink.
    + eapply wellFormed_write; eauto; reflexivity.
  - eapply wellFormed_ext; eauto.
Qed.

Lemma wellFormed_expire (key : string) (st : t V) :
  wellFormed st -> wellFormed (expire key st).
Proof.
  intros Hwf. apply (wellFormed_ext (unlink key st)); auto.
  now apply wellFormed_unlink.
Qed.

Lemma wellFormed_delete (key : string) (now : Z) (st : t V) :
  wellFormed st -> wellFormed (snd (delete key now st)).
Proof.
  intros Hwf. unfold delete.
  destruct (JsMap.get key (map st)); cbn; auto.
  apply (wellFormed_ext (unlink key st)); auto.
  now apply wellFormed_unlink.
Qed.

Lemma wellFormed_cleanupLoop (entries : list (string * InMemoryEntry V))
  (now n : Z) (st : t V) :
  wellFormed st -> wellFormed (snd (cleanupLoop entries now n st)).
Proof.
  revert n st. induction entries as [|[key entry] rest IH]; intros n st Hwf;
    cbn; auto.
  destruct (truthy (expiresAt (metadata entry)) &&
            (orZero (expiresAt (metadata entry)) <=? now)); auto.
  apply IH. apply (wellFormed_ext (unlink key st)); auto.
  now apply wellFormed_unlink.
Qed.

Lemma wellFormed_msetLoop (operations : list (BatchSetOperation V)) (now : Z)
  (st : t V) :
  wellFormed st -> wellFormed (snd (msetLoop operations now st)).
Proof.
  revert st. induction operations as [|op rest IH]; intros st Hwf; cbn; auto.
  pose proof (wellFormed_set (op_key op) (op_value op) (op_options op) now st
                Hwf) as Hset.
  destruct (set (op_key op) (op_value op) (op_options op) now st) as [r s1].
  specialize (IH s1 Hset).
  destruct (msetLoop rest now s1) as [br s2].
  destruct r; exact IH.
Qed.

End WellFormedFacts.

Section WellFormedOperations.
Import Core EnhancedMemoryStore.
Context {V : Type} `{JV : JsonValue V}.

Lemma wellFormed_mgetLoop (keys : list string) (options : GetOptions V)
  (now : Z) (st : t V) (acc : JsMap.t V) :
  wellFormed st -> wellFormed (snd (mgetLoop keys options now st acc)).
Proof.
  revert st acc. induction keys as [|key rest IH]; intros st acc Hwf; cbn; auto.
  pose proof (wellFormed_get key options now st Hwf) as Hget.
  destruct (get key options now st) as [r s1].
  destruct r as [[v|]|e]; apply IH; exact Hget.
Qed.

Lemma wellFormed_mdelLoop (keys : list string) (now : Z) (st : t V) :
  wellFormed st -> wellFormed (snd (mdelLoop keys now st)).
Proof.
  revert st. induction keys as [|key rest IH]; intros st Hwf; cbn; auto.
  pose proof (wellFormed_delete key now st Hwf) as Hdel.
  destruct (delete key now st) as [r s1].
  specialize (IH s1 Hdel). destruct (mdelLoop rest now s1) as [br s2].
  destruct r as [[|]|e]; exact IH.
Qed.

End WellFormedOperations.

(** X1.  Every engine state reached from a new store has one recency node
    per key of the map and no other: the map keys are distinct, the
    recency list has no repetition and holds the same keys.  The new store
    satisfies this and every operation keeps it. *)
Theorem engine_keeps_map_and_recency_in_step :
  forall (V : Type) (JV : Core.JsonValue V) (st : EnhancedMemoryStore.t V),
    EnhancedMemoryStore.wellFormed st ->
    (forall key options now,
       EnhancedMemoryStore.wellFormed
         (snd (EnhancedMemoryStore.get key options now st))) /\
    (forall key v options now,
       EnhancedMemoryStore.wellFormed
         (snd (EnhancedMemoryStore.set key v options now st))) /\
    (forall key now,
       EnhancedMemoryStore.wellFormed
         (snd (EnhancedMemoryStore.has key now st)) /\
       EnhancedMemoryStore.wellFormed
         (snd (EnhancedMemoryStore.delete key now st)) /\
       EnhancedMemoryStore.wellFormed
         (snd (EnhancedMemoryStore.getTtl key now st)) /\
       EnhancedMemoryStore.wellFormed
         (snd (EnhancedMemoryStore.sizeof key now st)) /\
       EnhancedMemoryStore.wellFormed
         (snd (EnhancedMemoryStore.getWithMetadata key now st))) /\
    (forall key ttl now,
       EnhancedMemoryStore.wellFormed
         (snd (EnhancedMemoryStore.updateTtl key ttl now st))) /\
    EnhancedMemoryStore.wellFormed (snd (EnhancedMemoryStore.clear st)) /\
    (forall now,
       EnhancedMemoryStore.wellFormed
         (snd (EnhancedMemoryStore.cleanup now st))) /\
    (forall count,
       EnhancedMemoryStore.wellFormed
         (snd (EnhancedMemoryStore.evict count st))) /\
    (forall operations now,
       EnhancedMemoryStore.wellFormed
         (snd (EnhancedMemoryStore.mset operations now st))) /\
    (forall keys options now,
       EnhancedMemoryStore.wellFormed
         (snd (EnhancedMemoryStore.mget keys options now st))) /\
    (forall keys now,
       EnhancedMemoryStore.wellFormed
         (snd (EnhancedMemoryStore.mdel keys now st))).
Proof.
  intros V JV st Hwf.
  assert (Hexp : forall key now (entry : EnhancedMemoryStore.InMemoryEntry V)
                        (R : Type) (a b : R),
            EnhancedMemoryStore.wellFormed
              (snd (if EnhancedMemoryStore.isExpired now entry
                    then (a, EnhancedMemoryStore.expire key st)
                    else (b, st)))).
  { intros. destruct (EnhancedMemoryStore.isExpired now entry); cbn; auto.
    now apply wellFormed_expire. }
  split; [intros; now apply wellFormed_get|].
  split; [intros; now apply wellFormed_set|].
  split.
  { intros key now. split; [|split; [|split; [|split]]].
    - unfold EnhancedMemoryStore.has.
      destruct (JsMap.get key (EnhancedMemoryStore.map st)); auto.
    - now apply wellFormed_delete.
    - unfold EnhancedMemoryStore.getTtl.
      destruct (JsMap.get key (EnhancedMemoryStore.map st)) as [entry|]; auto.
      destruct (EnhancedMemoryStore.isExpired now entry); cbn;
        [now apply wellFormed_expire|].
      destruct (negb _); auto.
    - unfold EnhancedMemoryStore.sizeof.
      destruct (JsMap.get key (EnhancedMemoryStore.map st)); auto.
    - unfold EnhancedMemoryStore.getWithMetadata.
      destruct (JsMap.get key (EnhancedMemoryStore.map st)) as [entry|]; cbn.
      + destruct (EnhancedMemoryStore.isExpired now entry); cbn.
        * apply (wellFormed_ext (EnhancedMemoryStore.unlink key st)); auto.
          now apply wellFormed_unlink.
        * eapply wellFormed_ext; eauto.
      + eapply wellFormed_ext; eauto. }
  split.
  { intros key ttl now. unfold EnhancedMemoryStore.updateTtl.
    destruct (JsMap.get key (EnhancedMemoryStore.map st)) as [entry|] eqn:E;
      auto.
    destruct (EnhancedMemoryStore.isExpired now entry); cbn;
      [now apply wellFormed_expire|].
    eapply wellFormed_update; eauto; reflexivity. }
  split.
  { unfold EnhancedMemoryStore.clear, EnhancedMemoryStore.wellFormed. cbn.
    split; [constructor|]. split; [constructor|]. tauto. }
  split.
  { intros now. unfold EnhancedMemoryStore.cleanup.
    pose proof (wellFormed_cleanupLoop
                  (JsMap.entries (EnhancedMemoryStore.map st)) now 0 st Hwf).
    destruct (EnhancedMemoryStore.cleanupLoop _ now 0 st). exact H. }
  split; [intros; now apply wellFormed_evict|].
  split.
  { intros operations now. unfold EnhancedMemoryStore.mset.
    pose proof (wellFormed_msetLoop operations now st Hwf).
    destruct (EnhancedMemoryStore.msetLoop operations now st). exact H. }
  split.
  { intros keys options now. unfold EnhancedMemoryStore.mget.
    pose proof (wellFormed_mgetLoop keys options now st JsMap.empty Hwf).
    destruct (EnhancedMemoryStore.mgetLoop keys options now st JsMap.empty).
    exact H. }
  intros keys now. unfold EnhancedMemoryStore.mdel.
  pose proof (wellFormed_mdelLoop keys now st Hwf).
  destruct (EnhancedMemoryStore.mdelLoop keys now st). exact H.
Qed.

Lemma engine_keeps_map_and_recency_in_step_witness :
  EnhancedMemoryStore.wellFormed Sample.emptyEngine /\
  EnhancedMemoryStore.wellFormed
    (snd (EnhancedMemoryStore.set "k"%string 42 Core.noSetOptions 0
            Sample.emptyEngine)).
Proof.
  split; [apply wellFormed_create|].
  apply (engine_keeps_map_and_recency_in_step Z _ Sample.emptyEngine
           (wellFormed_create _)).
Defined.

(** ** Where the statistics follow the map *)

Section ConsistencyFacts.
Import Core EnhancedMemoryStore.
Context {V : Type} `{JV : JsonValue V}.

Lemma JsMap_in_get {A : Type} (key : string) (a : A) (m : JsMap.t A) :
  NoDup (JsMap.keys m) -> In (key, a) m -> JsMap.get key m = Some a.
Proof.
  unfold JsMap.keys. induction m as [|[k b] rest IH]; cbn; [tauto|].
  intros Hnd Hin. inversion Hnd as [|? ? Hnotin Hnd']; subst.
  destruct Hin as [[= -> ->]|Hin].
  - now rewrite String.eqb_refl.
  - destruct (String.eqb key k) eqn:E; auto.
    apply String.eqb_eq in E. subst k. exfalso. apply Hnotin.
    change key with (fst (key, a)). now apply in_map.
Qed.

Lemma JsMap_set_sizes (key : string) (entry : InMemoryEntry V)
  (m : JsMap.t (InMemoryEntry V)) :
  JsMap.size (JsMap.set key entry m) =
    JsMap.size m + (if JsMap.has key m then 0 else 1) /\
  totalSize (JsMap.set key entry m) =
    totalSize m + sizeBytes (metadata entry) -
    match JsMap.get key m with
    | Some old => sizeBytes (metadata old)
    | None => 0
    end.
Proof.
  unfold JsMap.size, JsMap.has, totalSize.
  induction m as [|[k b] rest IH]; cbn [JsMap.set JsMap.get].
  - cbn. lia.
  - destruct (String.eqb key k) eqn:E.
    + cbn [List.length List.fold_right snd]. lia.
    + cbn [List.length List.fold_right snd].
      destruct IH as [IH1 IH2]. rewrite IH2.
      destruct (JsMap.get key rest); lia.
Qed.

Lemma statsConsistent_release (key : string) (entry : InMemoryEntry V)
  (st st' : t V) :
  NoDup (JsMap.keys (map st)) ->
  statsConsistent st ->
  JsMap.get key (map st) = Some entry ->
  map st' = JsMap.delete key (map st) ->
  keyCount (stats st') = keyCount (stats st) - 1 ->
  memoryUsageBytes (stats st') =
    memoryUsageBytes (stats st) - sizeBytes (metadata entry) ->
  statsConsistent st'.
Proof.
  intros Hnd [Hk Hm] Hget Hmap Hk' Hm'.
  destruct (JsMap_delete_present key (map st) entry Hnd Hget) as [Hsz Htot].
  unfold statsConsistent. rewrite Hmap, Hk', Hm', Hsz, Htot. split; lia.
Qed.

Lemma consistent_evictWalk (nodes : list string) (count evicted : Z)
  (st : t V) :
  wellFormed st -> statsConsistent st ->
  statsConsistent (snd (evictWalk nodes count evicted st)).
Proof.
  revert evicted st. induction nodes as [|key rest IH]; intros ev st Hwf Hc;
    cbn; auto.
  destruct (ev <? count); cbn; auto.
  destruct (JsMap.get key (map st)) as [entry|] eqn:E; auto.
  match goal with |- context [evictWalk rest count ?e ?s] =>
    specialize (IH e s); destruct (evictWalk rest count e s) end.
  cbn in *. apply IH.
  - apply (wellFormed_ext (unlink key st)); auto.
    now apply wellFormed_unlink.
  - eapply (statsConsistent_release key entry st); eauto; try reflexivity.
    apply Hwf.
Qed.

Lemma consistent_evict (count : Z) (st : t V) :
  wellFormed st -> statsConsistent st ->
  statsConsistent (snd (evict count st)).
Proof.
  intros Hwf Hc. unfold evict.
  pose proof (consistent_evictWalk (rev (lru st)) count 0 st Hwf Hc).
  destruct (evictWalk (rev (lru st)) count 0 st). exact H.
Qed.

Lemma consistent_evictLoop (fuel : nat) (target : option Z) (st st' : t V) :
  wellFormed st -> statsConsistent st ->
  evictLoop fuel target st = Some st' -> statsConsistent st'.
Proof.
  revert st. induction fuel as [|fuel IH]; intros st Hwf Hc; cbn;
    [discriminate|].
  destruct (match target with
            | Some tb => memoryUsageBytes (stats st) >? tb
            | None => false
            end); [|now intros [= <-]].
  pose proof (wellFormed_evict 10 st Hwf) as Hev.
  pose proof (consistent_evict 10 st Hwf Hc) as Hcv.
  destruct (evict 10 st) as [r s1]. cbn in Hev, Hcv.
  destruct r as [[|k ks]|e].
  - now intros [= <-].
  - now apply IH.
  - now apply IH.
Qed.

(** Eviction only unlinks: a key the map does not hold stays out. *)
Lemma absent_evictWalk (key : string) (nodes : list string)
  (count evicted : Z) (st : t V) :
  JsMap.get key (map st) = None ->
  JsMap.get key (map (snd (evictWalk nodes count evicted st))) = None.
Proof.
  revert evicted st. induction nodes as [|k rest IH]; intros ev st Habs;
    cbn; auto.
  destruct (ev <? count); cbn; auto.
  destruct (JsMap.get k (map st)) as [entry|] eqn:E; auto.
  match goal with |- context [evictWalk rest count ?e ?s] =>
    specialize (IH e s); destruct (evictWalk rest count e s) end.
  cbn in *. apply IH.
  destruct (String.eqb key k) eqn:Ek.
  - apply String.eqb_eq in Ek. subst. apply JsMap_get_delete_eq.
  - apply String.eqb_neq in Ek. now rewrite JsMap_get_delete_ne.
Qed.

Lemma absent_evictLoop (key : string) (fuel : nat) (target : option Z)
  (st st' : t V) :
  JsMap.get key (map st) = None ->
  evictLoop fuel target st = Some st' ->
  JsMap.get key (map st') = None.
Proof.
  revert st. induction fuel as [|fuel IH]; intros st Habs; cbn;
    [discriminate|].
  destruct (match target with
            | Some tb => memoryUsageBytes (stats st) >? tb
            | None => false
            end); [|now intros [= <-]].
  unfold evict.
  pose proof (absent_evictWalk key (rev (lru st)) 10 0 st Habs) as Hev.
  destruct (evictWalk (rev (lru st)) 10 0 st) as [ks s1]. cbn in Hev.
  destruct ks as [|k ks].
  - now intros [= <-].
  - now apply IH.
Qed.

Lemma consistent_cleanupLoop (entries : list (string * InMemoryEntry V))
  (now n : Z) (st : t V) :
  wellFormed st -> statsConsistent st ->
  NoDup (List.map fst entries) ->
  (forall k e, In (k, e) entries -> JsMap.get k (map st) = Some e) ->
  statsConsistent (snd (cleanupLoop entries now n st)).
Proof.
  revert n st. induction entries as [|[key entry] rest IH];
    intros n st Hwf Hc Hnd Hin; cbn; auto.
  inversion Hnd as [|? ? Hnotin Hnd']; subst.
  destruct (truthy (expiresAt (metadata entry)) &&
            (orZero (expiresAt (metadata entry)) <=? now)).
  - apply IH; auto.
    + apply (wellFormed_ext (unlink key st)); auto.
      now apply wellFormed_unlink.
    + eapply (statsConsistent_release key entry st); eauto;
        try reflexivity; [apply Hwf|].
      apply Hin. now left.
    + intros k e Hke. cbn.
      rewrite JsMap_get_delete_ne; [apply Hin; now right|].
      intros ->. apply Hnotin. change key with (fst (key, e)).
      now apply in_map.
  - apply IH; auto. intros k e Hke. apply Hin. now right.
Qed.

Lemma consistent_set (key : string) (v : V) (options : SetOptions) (now : Z)
  (st : t V) :
  wellFormed st -> statsConsistent st ->
  (truthy (maxMemoryBytes (config st)) = false \/
   JsMap.get key (map st) = None) ->
  statsConsistent (snd (set key v options now st)).
Proof.
  intros Hwf Hc Hcase. unfold set.
  destruct (JsMap.get key (map st)) as [existing|] eqn:E.
  - destruct Hcase as [Hno|]; [|discriminate].
    destruct (isFalse (overwrite options)); cbn; auto.
    destruct (calculateSize v) as [size|]; cbn; auto.
    rewrite Hno. cbn [andb].
    destruct Hc as [Hk Hm]. unfold statsConsistent.
    cbn [snd stats map keyCount memoryUsageBytes existingSize].
    destruct (JsMap_set_sizes key
                (mkEntry v (mkValueMetadata now now
                   (if truthy (ttlMs options)
                    then Some (now + orZero (ttlMs options)) else None)
                   size 1)) (map st)) as [Hsz Htot].
    unfold JsMap.has in Hsz. rewrite E in Hsz, Htot.
    rewrite Hsz, Htot. cbn [sizeBytes metadata]. split; lia.
  - assert (Hst1 : forall st1 : t V,
              statsConsistent st1 -> JsMap.get key (map st1) = None ->
              forall size e, sizeBytes (metadata e) = size ->
              statsConsistent
                (mkStore (config st1) (JsMap.set key e (map st1))
                   (moveToHead key (lru st1))
                   (mkStats (keyCount (stats st1) + 1)
                      (memoryUsageBytes (stats st1) + (size - 0))
                      (hits (stats st1)) (misses (stats st1))
                      (evictions (stats st1)) (expirations (stats st1))))).
    { intros st1 [Hk Hm] Habs size e He. unfold statsConsistent.
      cbn [stats map keyCount memoryUsageBytes].
      destruct (JsMap_set_sizes key e (map st1)) as [Hsz Htot].
      unfold JsMap.has in Hsz. rewrite Habs in Hsz, Htot.
      rewrite Hsz, Htot, He. split; lia. }
    destruct (isFalse (overwrite options));
      destruct (calculateSize v) as [size|]; cbn; auto.
    all: apply Hst1; auto.
    all: match goal with
         | |- statsConsistent (if ?c then _ else _) => destruct c; auto
         | |- JsMap.get _ (map (if ?c then _ else _)) = None =>
             destruct c; auto
         end.
    all: destruct (evictToMakeSpace_total size st) as (st' & Hrun & ->).
    all: try (eapply consistent_evictLoop; eauto).
    all: eapply absent_evictLoop; eauto.
Qed.

End ConsistencyFacts.

(** X2.  In a store whose map and recency list are in step and whose
    [keyCount] and [memoryUsageBytes] agree with the map, they still agree
    after [delete], [clear], [cleanup], [evict], and after a [set] made
    without a memory budget or for a key the map does not hold. *)
Theorem engine_statistics_follow_the_map :
  forall (V : Type) (JV : Core.JsonValue V) (st : EnhancedMemoryStore.t V),
    EnhancedMemoryStore.wellFormed st ->
    EnhancedMemoryStore.statsConsistent st ->
    (forall key v options now,
       (Core.truthy (EnhancedMemoryStore.maxMemoryBytes
                       (EnhancedMemoryStore.config st)) = false \/
        JsMap.get key (EnhancedMemoryStore.map st) = None) ->
       EnhancedMemoryStore.statsConsistent
         (snd (EnhancedMemoryStore.set key v options now st))) /\
    (forall key now,
       EnhancedMemoryStore.statsConsistent
         (snd (EnhancedMemoryStore.delete key now st))) /\
    EnhancedMemoryStore.statsConsistent (snd (EnhancedMemoryStore.clear st)) /\
    (forall now,
       EnhancedMemoryStore.statsConsistent
         (snd (EnhancedMemoryStore.cleanup now st))) /\
    (forall count,
       EnhancedMemoryStore.statsConsistent
         (snd (EnhancedMemoryStore.evict count st))).
Proof.
  intros V JV st Hwf Hc.
  split; [intros; now apply consistent_set|].
  split; [intros; apply delete_keeps_consistency; auto; apply Hwf|].
  split; [unfold EnhancedMemoryStore.statsConsistent; cbn; auto|].
  split; [|intros; now apply consistent_evict].
  intros now. unfold EnhancedMemoryStore.cleanup.
  pose proof (consistent_cleanupLoop
                (JsMap.entries (EnhancedMemoryStore.map st)) now 0 st Hwf Hc)
    as H.
  destruct (EnhancedMemoryStore.cleanupLoop _ now 0 st). apply H.
  - apply Hwf.
  - intros k e Hin. apply JsMap_in_get; auto. apply Hwf.
Qed.

Lemma engine_statistics_follow_the_map_witness :
  EnhancedMemoryStore.statsConsistent
    (snd (EnhancedMemoryStore.cleanup 200 Sample.engineWithTtl)) /\
  EnhancedMemoryStore.statsConsistent
    (snd (EnhancedMemoryStore.set "j"%string 7 Core.noSetOptions 5
            Sample.engineWithTtl)).
Proof.
  assert (Hwf : EnhancedMemoryStore.wellFormed Sample.engineWithTtl).
  { unfold Sample.engineWithTtl. apply wellFormed_set, wellFormed_create. }
  assert (Hc : EnhancedMemoryStore.statsConsistent Sample.engineWithTtl).
  { split; reflexivity. }
  destruct (engine_statistics_follow_the_map Z _ Sample.engineWithTtl Hwf Hc)
    as (Hset & _ & _ & Hclean & _).
  split; [apply Hclean|].
  apply Hset. left. reflexivity.
Defined.

(** ** Reading back what was written *)

Section EngineReadWrite.
Import Core EnhancedMemoryStore.
Context {V : Type} `{JV : JsonValue V}.

(** What [get] answers depends on the entry the map holds for the key
    and on nothing else. *)
Lemma get_result_by_lookup (key : string) (options : GetOptions V) (now : Z)
  (a b : t V) :
  JsMap.get key (map a) = JsMap.get key (map b) ->
  fst (get key options now a) = fst (get key options now b).
Proof.
  intros H. unfold get. rewrite H.
  destruct (JsMap.get key (map b)) as [entry|]; auto.
  destruct (isExpired now entry); auto.
Qed.

(** Without a memory budget, [set] changes the map at its key only. *)
Lemma set_lookup_other (key key' : string) (v : V) (options : SetOptions)
  (now : Z) (st : t V) :
  key <> key' ->
  truthy (maxMemoryBytes (config st)) = false ->
  JsMap.get key (map (snd (set key' v options now st))) =
  JsMap.get key (map st).
Proof.
  intros Hne Hno. unfold set. rewrite Hno. cbn [andb].
  destruct (JsMap.get key' (map st)); destruct (isFalse (overwrite options));
    cbn [snd]; auto;
    destruct (calculateSize v); cbn [snd map]; auto;
    now apply JsMap_get_set_ne.
Qed.

Lemma get_expired_effect (key : string) (options : GetOptions V) (now : Z)
  (st : t V) (entry : InMemoryEntry V) :
  JsMap.get key (map st) = Some entry ->
  isExpired now entry = true ->
  fst (get key options now st) = Ok (defaultValue options) /\
  expirations (stats (snd (get key options now st))) =
    expirations (stats st) + 1 /\
  JsMap.get key (map (snd (get key options now st))) = None.
Proof.
  intros Hget Hexp. unfold get. rewrite Hget, Hexp. cbn.
  repeat split. apply JsMap_get_delete_eq.
Qed.

Lemma get_missing_effect (key : string) (options : GetOptions V) (now : Z)
  (st : t V) :
  JsMap.get key (map st) = None ->
  expirations (stats (snd (get key options now st))) = expirations (stats st).
Proof.
  intros Hget. unfold get. now rewrite Hget.
Qed.

End EngineReadWrite.

(** X3.  A [set] that may overwrite and whose value can be sized succeeds.
    A later [get] of the key answers the value when no TTL was given or
    the instant is before [t0 + ttl], and the default of its options from
    [t0 + ttl] on.  The first [get] from [t0 + ttl] on counts one
    expiration and removes the entry; a [get] after that counts none. *)
Theorem engine_set_get_roundtrip :
  forall (V : Type) (JV : Core.JsonValue V)
         (key : string) (v : V) (options : Core.SetOptions)
         (o o2 : Core.GetOptions V) (t0 t t2 : Z)
         (st : EnhancedMemoryStore.t V) (n : Z),
    Core.jsonLength v = Some n ->
    Core.isFalse (Core.overwrite options) = false ->
    let st1 := snd (EnhancedMemoryStore.set key v options t0 st) in
    let expired :=
      Core.truthy (Core.ttlMs options) &&
      (t0 + Core.orZero (Core.ttlMs options) <=? t) in
    let st2 := snd (EnhancedMemoryStore.get key o t st1) in
    let count (s : EnhancedMemoryStore.t V) :=
      EnhancedMemoryStore.expirations (EnhancedMemoryStore.stats s) in
    fst (EnhancedMemoryStore.set key v options t0 st) = Core.Ok tt /\
    fst (EnhancedMemoryStore.get key o t st1) =
      (if expired then Core.Ok (Core.defaultValue o) else Core.Ok (Some v)) /\
    (expired = true ->
     count st2 = count st1 + 1 /\
     JsMap.get key (EnhancedMemoryStore.map st2) = None /\
     count (snd (EnhancedMemoryStore.get key o2 t2 st2)) = count st2).
Proof.
  intros V JV key v options o o2 t0 t t2 st n Hn Hov st1 expired st2 count.
  destruct (set_stores key v options t0 st n Hn Hov) as [Hok Hentry].
  fold st1 in Hentry. split; [exact Hok|].
  set (entry := EnhancedMemoryStore.mkEntry v
                  (Core.mkValueMetadata t0 t0
                     (if Core.truthy (Core.ttlMs options)
                      then Some (t0 + Core.orZero (Core.ttlMs options))
                      else None) (n * 2) 1)) in *.
  assert (Hexp : EnhancedMemoryStore.isExpired t entry = expired).
  { subst entry expired. unfold EnhancedMemoryStore.isExpired. cbn.
    destruct (Core.truthy (Core.ttlMs options)); reflexivity. }
  destruct expired eqn:E.
  - destruct (get_expired_effect key o t st1 entry Hentry Hexp)
      as (Hr & Hc & Habs).
    split; [exact Hr|]. intros _. subst st2 count. cbv beta.
    split; [exact Hc|]. split; [exact Habs|].
    now apply get_missing_effect.
  - split; [|discriminate].
    apply (get_live key o t st1 entry Hentry Hexp).
Qed.

Lemma engine_set_get_roundtrip_witness :
  fst (EnhancedMemoryStore.get "k"%string Core.noGetOptions 99
         Sample.engineWithTtl) = Core.Ok (Some 42) /\
  fst (EnhancedMemoryStore.get "k"%string Core.noGetOptions 100
         Sample.engineWithTtl) = Core.Ok None.
Proof.
  split.
  - apply (engine_set_get_roundtrip Z _ "k"%string 42
             (Core.mkSetOptions (Some 100) None) Core.noGetOptions
             Core.noGetOptions 0 99 0 Sample.emptyEngine 2 eq_refl eq_refl).
  - apply (engine_set_get_roundtrip Z _ "k"%string 42
             (Core.mkSetOptions (Some 100) None) Core.noGetOptions
             Core.noGetOptions 0 100 0 Sample.emptyEngine 2 eq_refl eq_refl).
Defined.

(** X4.  Without a memory budget, a [set] of one key changes what [get]
    and [has] answer for no other key. *)
Theorem engine_set_leaves_other_keys :
  forall (V : Type) (JV : Core.JsonValue V)
         (key key' : string) (v : V) (options : Core.SetOptions)
         (o : Core.GetOptions V) (t0 t : Z) (st : EnhancedMemoryStore.t V),
    key <> key' ->
    Core.truthy (EnhancedMemoryStore.maxMemoryBytes
                   (EnhancedMemoryStore.config st)) = false ->
    let st1 := snd (EnhancedMemoryStore.set key' v options t0 st) in
    fst (EnhancedMemoryStore.get key o t st1) =
      fst (EnhancedMemoryStore.get key o t st) /\
    fst (EnhancedMemoryStore.has key t st1) =
      fst (EnhancedMemoryStore.has key t st).
Proof.
  intros V JV key key' v options o t0 t st Hne Hno st1.
  pose proof (set_lookup_other key key' v options t0 st Hne Hno) as Hsame.
  fold st1 in Hsame.
  split; [now apply get_result_by_lookup|].
  unfold EnhancedMemoryStore.has. rewrite Hsame.
  destruct (JsMap.get key (EnhancedMemoryStore.map st)) as [entry|]; auto.
  destruct (EnhancedMemoryStore.isExpired t entry); auto.
Qed.

Lemma engine_set_leaves_other_keys_witness :
  fst (EnhancedMemoryStore.get "k"%string Core.noGetOptions 5
         (snd (EnhancedMemoryStore.set "j"%string 7 Core.noSetOptions 1
                 Sample.engineWithK))) = Core.Ok (Some 42).
Proof.
  assert (Hne : "k"%string <> "j"%string) by discriminate.
  destruct (engine_set_leaves_other_keys Z _ "k"%string "j"%string 7
              Core.noSetOptions Core.noGetOptions 1 5 Sample.engineWithK
              Hne eq_refl) as [Hget _].
  cbv zeta in Hget. rewrite Hget. reflexivity.
Defined.

(** X5.  [delete] answers whether the map held the key, expired or not.
    After it the key reads as missing, [has] answers [false], a second
    [delete] answers [false], and every other key is as it was. *)
Theorem engine_delete_removes_key :
  forall (V : Type) (JV : Core.JsonValue V)
         (key : string) (o : Core.GetOptions V) (t0 t : Z)
         (st : EnhancedMemoryStore.t V),
    let st1 := snd (EnhancedMemoryStore.delete key t0 st) in
    fst (EnhancedMemoryStore.delete key t0 st) =
      Core.Ok (JsMap.has key (EnhancedMemoryStore.map st)) /\
    fst (EnhancedMemoryStore.get key o t st1) =
      Core.Ok (Core.defaultValue o) /\
    fst (EnhancedMemoryStore.has key t st1) = Core.Ok false /\
    fst (EnhancedMemoryStore.delete key t st1) = Core.Ok false /\
    (forall key', key' <> key ->
       JsMap.get key' (EnhancedMemoryStore.map st1) =
       JsMap.get key' (EnhancedMemoryStore.map st)).
Proof.
  intros V JV key o t0 t st st1.
  assert (Habs : JsMap.get key (EnhancedMemoryStore.map st1) = None).
  { subst st1. unfold EnhancedMemoryStore.delete.
    destruct (JsMap.get key (EnhancedMemoryStore.map st)) eqn:E; cbn; auto.
    apply JsMap_get_delete_eq. }
  split.
  { unfold EnhancedMemoryStore.delete, JsMap.has.
    destruct (JsMap.get key (EnhancedMemoryStore.map st)); reflexivity. }
  split; [unfold EnhancedMemoryStore.get; now rewrite Habs|].
  split; [unfold EnhancedMemoryStore.has; now rewrite Habs|].
  split; [unfold EnhancedMemoryStore.delete; now rewrite Habs|].
  intros key' Hne. subst st1. unfold EnhancedMemoryStore.delete.
  destruct (JsMap.get key (EnhancedMemoryStore.map st)); cbn; auto.
  now apply JsMap_get_delete_ne.
Qed.

Lemma engine_delete_removes_key_witness :
  let st1 := snd (EnhancedMemoryStore.delete "k"%string 0 Sample.engineWithK) in
  fst (EnhancedMemoryStore.has "k"%string 1 st1) = Core.Ok false /\
  JsMap.get "j"%string (EnhancedMemoryStore.map st1) =
  JsMap.get "j"%string (EnhancedMemoryStore.map Sample.engineWithK).
Proof.
  intros st1.
  destruct (engine_delete_removes_key Z _ "k"%string
              (Core.mkGetOptions None None) 0 1 Sample.engineWithK)
    as (_ & _ & Hh & _ & Hother).
  split; [exact Hh|apply Hother; discriminate].
Defined.

(** ** The sweep *)

Section CleanupFacts.
Import Core EnhancedMemoryStore.
Context {V : Type} `{JV : JsonValue V}.

Lemma JsMap_delete_middle {A : Type} (key : string) (a : A)
  (pre rest : JsMap.t A) :
  NoDup (JsMap.keys (pre ++ (key, a) :: rest)) ->
  JsMap.delete key (pre ++ (key, a) :: rest) = pre ++ rest.
Proof.
  intros Hnd. unfold JsMap.keys in Hnd. rewrite map_app in Hnd. cbn in Hnd.
  pose proof (NoDup_remove_2 _ _ _ Hnd) as Hnotin.
  rewrite in_app_iff in Hnotin.
  unfold JsMap.delete. rewrite filter_app. cbn. rewrite String.eqb_refl. cbn.
  fold (JsMap.delete key pre). fold (JsMap.delete key rest).
  rewrite !JsMap_delete_absent; auto.
Qed.

Lemma cleanupLoop_spec (entries pre : list (string * InMemoryEntry V))
  (now n : Z) (st : t V) :
  map st = pre ++ entries ->
  NoDup (JsMap.keys (pre ++ entries)) ->
  let out := cleanupLoop entries now n st in
  map (snd out) = pre ++ List.filter (fun p => negb (swept now p)) entries /\
  fst out = n + Z.of_nat (List.length (List.filter (swept now) entries)) /\
  expirations (stats (snd out)) =
    expirations (stats st) +
    Z.of_nat (List.length (List.filter (swept now) entries)).
Proof.
  revert pre n st. induction entries as [|[key entry] rest IH];
    intros pre n st Hmap Hnd; cbn [cleanupLoop List.filter].
  - cbn. rewrite Hmap. repeat split; lia.
  - assert (Hsw : swept now (key, entry) =
                  truthy (expiresAt (metadata entry)) &&
                  (orZero (expiresAt (metadata entry)) <=? now))
      by reflexivity.
    rewrite !Hsw.
    destruct (truthy (expiresAt (metadata entry)) &&
              (orZero (expiresAt (metadata entry)) <=? now)) eqn:E;
      cbn [negb].
    + match goal with |- context [cleanupLoop rest now ?m ?s] =>
        destruct (IH pre m s) as (H1 & H2 & H3) end.
      * cbn [map withStats unlink]. rewrite Hmap.
        now apply JsMap_delete_middle.
      * unfold JsMap.keys in *. rewrite map_app in *. cbn in Hnd.
        now apply NoDup_remove_1 in Hnd.
      * cbv zeta in *. rewrite H1, H2, H3.
        cbn [List.length stats withStats unlink countExpiration release
             expirations].
        rewrite Nat2Z.inj_succ.
        split; [reflexivity|]. split; lia.
    + destruct (IH (pre ++ [(key, entry)]) n st) as (H1 & H2 & H3).
      * now rewrite <- app_assoc.
      * now rewrite <- app_assoc.
      * cbv zeta in *. rewrite H1, H2, H3, <- app_assoc.
        repeat split.
Qed.

Lemma JsMap_filter_NoDup {A : Type} (f : string * A -> bool)
  (m : JsMap.t A) :
  NoDup (JsMap.keys m) -> NoDup (JsMap.keys (List.filter f m)).
Proof.
  unfold JsMap.keys. induction m as [|p l IH]; cbn; [constructor|].
  intros Hnd. inversion Hnd as [|? ? Hnotin Hnd']; subst.
  destruct (f p); cbn; auto.
  constructor; auto. intros Hin. apply Hnotin.
  apply in_map_iff in Hin. destruct Hin as (q & Hq & Hin).
  apply filter_In in Hin. rewrite <- Hq. apply in_map. tauto.
Qed.

Lemma filter_swept_kept {A : Type} (f : A -> bool) (l : list A) :
  List.filter f (List.filter (fun p => negb (f p)) l) = [].
Proof.
  induction l as [|a l IH]; cbn; auto.
  destruct (f a) eqn:E; cbn; auto. now rewrite E.
Qed.

End CleanupFacts.

(** X7.  [cleanup] removes the entries whose [expiresAt] is set, not 0
    and not after [now], keeps the others in their order, answers how
    many it removed and adds that number to [expirations].  A second
    [cleanup] at the same instant removes nothing. *)
Theorem engine_cleanup_sweeps_expired :
  forall (V : Type) (JV : Core.JsonValue V) (now : Z)
         (st : EnhancedMemoryStore.t V),
    NoDup (JsMap.keys (EnhancedMemoryStore.map st)) ->
    let m := EnhancedMemoryStore.map st in
    let removed := Z.of_nat (List.length (List.filter (swept now) m)) in
    let st1 := snd (EnhancedMemoryStore.cleanup now st) in
    fst (EnhancedMemoryStore.cleanup now st) = Core.Ok removed /\
    EnhancedMemoryStore.map st1 =
      List.filter (fun p => negb (swept now p)) m /\
    EnhancedMemoryStore.expirations (EnhancedMemoryStore.stats st1) =
      EnhancedMemoryStore.expirations (EnhancedMemoryStore.stats st)
      + removed /\
    fst (EnhancedMemoryStore.cleanup now st1) = Core.Ok 0.
Proof.
  intros V JV now st Hnd m removed st1.
  assert (Hrun : forall s : EnhancedMemoryStore.t V,
            NoDup (JsMap.keys (EnhancedMemoryStore.map s)) ->
            fst (EnhancedMemoryStore.cleanup now s) =
              Core.Ok (Z.of_nat (List.length
                         (List.filter (swept now)
                            (EnhancedMemoryStore.map s)))) /\
            EnhancedMemoryStore.map (snd (EnhancedMemoryStore.cleanup now s)) =
              List.filter (fun p => negb (swept now p))
                          (EnhancedMemoryStore.map s) /\
            EnhancedMemoryStore.expirations
              (EnhancedMemoryStore.stats
                 (snd (EnhancedMemoryStore.cleanup now s))) =
              EnhancedMemoryStore.expirations (EnhancedMemoryStore.stats s) +
              Z.of_nat (List.length
                          (List.filter (swept now)
                             (EnhancedMemoryStore.map s)))).
  { intros s Hs. unfold EnhancedMemoryStore.cleanup, JsMap.entries.
    destruct (cleanupLoop_spec (EnhancedMemoryStore.map s) [] now 0 s
                eq_refl Hs) as (H1 & H2 & H3).
    destruct (EnhancedMemoryStore.cleanupLoop
                (EnhancedMemoryStore.map s) now 0 s) as [c s'].
    cbn [fst snd] in *. cbn [app] in H1. rewrite H2. auto. }
  destruct (Hrun st Hnd) as (H1 & H2 & H3).
  fold st1 in H2, H3. fold m in H1, H2, H3. fold removed in H1, H3.
  split; [exact H1|]. split; [exact H2|]. split; [exact H3|].
  destruct (Hrun st1) as (H4 & _).
  { rewrite H2. now apply JsMap_filter_NoDup. }
  rewrite H4, H2, filter_swept_kept. reflexivity.
Qed.

Lemma engine_cleanup_sweeps_expired_witness :
  fst (EnhancedMemoryStore.cleanup 200 Sample.engineWithTtl) = Core.Ok 1 /\
  EnhancedMemoryStore.map
    (snd (EnhancedMemoryStore.cleanup 200 Sample.engineWithTtl)) = [].
Proof.
  assert (Hnd : NoDup (JsMap.keys
                         (EnhancedMemoryStore.map Sample.engineWithTtl))).
  { repeat constructor. intros []. }
  destruct (engine_cleanup_sweeps_expired Z _ 200 Sample.engineWithTtl Hnd)
    as (H1 & H2 & _).
  split; [exact H1 | exact H2].
Defined.

(** ** Eviction order *)

Section EvictionFacts.
Import Core EnhancedMemoryStore.
Context {V : Type} `{JV : JsonValue V}.

Lemma lruWalk_firstn (nodes : list string) (count collected : Z) :
  lruWalk nodes count collected =
  List.firstn (Z.to_nat (count - collected)) nodes.
Proof.
  revert collected. induction nodes as [|key rest IH]; intros c; cbn.
  - now rewrite firstn_nil.
  - destruct (c <? count) eqn:E.
    + apply Z.ltb_lt in E.
      replace (Z.to_nat (count - c)) with (S (Z.to_nat (count - (c + 1))))
        by lia.
      cbn. now rewrite IH.
    + apply Z.ltb_ge in E.
      replace (Z.to_nat (count - c)) with O by lia. reflexivity.
Qed.

Lemma evictWalk_spec (nodes : list string) (count evicted : Z) (st : t V) :
  NoDup nodes ->
  (forall k, In k nodes -> JsMap.get k (map st) <> None) ->
  let ks := fst (evictWalk nodes count evicted st) in
  let st' := snd (evictWalk nodes count evicted st) in
  ks = lruWalk nodes count evicted /\
  (forall k, JsMap.get k (map st') =
             if List.existsb (String.eqb k) ks then None
             else JsMap.get k (map st)) /\
  evictions (stats st') = evictions (stats st) + Z.of_nat (List.length ks) /\
  keyCount (stats st') = keyCount (stats st) - Z.of_nat (List.length ks).
Proof.
  revert evicted st. induction nodes as [|key rest IH];
    intros ev st Hnd Hin; cbn [evictWalk lruWalk].
  - cbn. repeat split; lia.
  - inversion Hnd as [|? ? Hnotin Hnd']; subst.
    destruct (ev <? count); [|cbn; repeat split; lia].
    destruct (JsMap.get key (map st)) as [entry|] eqn:E;
      [|exfalso; apply (Hin key); [now left|exact E]].
    match goal with |- context [evictWalk rest count ?e ?s] =>
      destruct (IH e s Hnd') as (H1 & H2 & H3 & H4);
      [|destruct (evictWalk rest count e s) as [ks s2]] end.
    { intros k Hk. cbn [map withStats unlink].
      rewrite JsMap_get_delete_ne; [apply Hin; now right|].
      intros ->. contradiction. }
    cbn [fst snd] in *. cbv zeta.
    split; [now rewrite H1|].
    split.
    { intros k. rewrite H2. cbn [List.existsb map withStats unlink].
      destruct (String.eqb k key) eqn:Ek; cbn [orb].
      - apply String.eqb_eq in Ek. subst k.
        rewrite JsMap_get_delete_eq. now destruct (List.existsb _ ks).
      - apply String.eqb_neq in Ek.
        rewrite JsMap_get_delete_ne by assumption. reflexivity. }
    rewrite H3, H4.
    cbn [List.length stats withStats unlink countEviction release
         evictions keyCount].
    rewrite Nat2Z.inj_succ. split; lia.
Qed.

Lemma firstn_incl {A : Type} (n : nat) (l : list A) (x : A) :
  In x (List.firstn n l) -> In x l.
Proof.
  revert n. induction l as [|a l IH]; intros [|n]; cbn; try tauto.
  intros [->|Hin]; eauto.
Qed.

Lemma removeFromLRU_absent (key : string) (l : list string) :
  ~ In key (removeFromLRU key l).
Proof.
  unfold removeFromLRU. rewrite filter_In, String.eqb_refl.
  cbn. intros [_ ?]. discriminate.
Qed.

Lemma wellFormed_lengths (st : t V) :
  wellFormed st -> JsMap.size (map st) = Z.of_nat (List.length (lru st)).
Proof.
  intros (Hm & Hl & Hiff). unfold JsMap.size.
  assert (List.length (JsMap.keys (map st)) = List.length (lru st)).
  { apply Nat.le_antisymm; apply NoDup_incl_length; auto;
      intros k Hk; now apply Hiff. }
  unfold JsMap.keys in H. rewrite length_map in H. lia.
Qed.

(** The key at the head of the recency list is evicted only when every
    other key is. *)
Lemma head_survives (key : string) (l : list string) (count : Z) (st : t V) :
  wellFormed st ->
  lru st = key :: l ->
  count <= JsMap.size (map st) - 1 ->
  ~ In key (fst (evictWalk (List.rev (lru st)) count 0 st)).
Proof.
  intros Hwf Hlru Hcount.
  pose proof (wellFormed_lengths st Hwf) as Hlen.
  destruct Hwf as (Hm & Hl & Hiff).
  destruct (evictWalk_spec (List.rev (lru st)) count 0 st) as (Hks & _).
  { now apply NoDup_rev. }
  { intros k Hk. apply in_rev in Hk. apply Hiff in Hk.
    destruct (JsMap_in_keys_get k (map st) Hk) as [a ->]. discriminate. }
  rewrite Hks, lruWalk_firstn, Z.sub_0_r, Hlru. cbn [List.rev].
  rewrite Hlru in Hlen, Hl. cbn [List.length] in Hlen.
  rewrite firstn_app.
  replace (Z.to_nat count - List.length (List.rev l))%nat with O
    by (rewrite length_rev; lia).
  cbn [List.firstn]. rewrite app_nil_r.
  intros Hin. apply firstn_incl in Hin. apply in_rev in Hin.
  inversion Hl; subst. contradiction.
Qed.

End EvictionFacts.

(** X8.  In a store whose map and recency list are in step, [evict(n)]
    evicts the keys [getLruKeys(n)] lists, in that order: the [n] least
    recently used ones, or all keys when there are fewer.  Afterwards these
    keys are out of the map, every other key has the entry it had, and
    [evictions] and [keyCount] moved by the number of evicted keys. *)
Theorem engine_evict_takes_least_recent :
  forall (V : Type) (JV : Core.JsonValue V) (count : Z)
         (st : EnhancedMemoryStore.t V),
    EnhancedMemoryStore.wellFormed st ->
    let ks := List.firstn (Z.to_nat count)
                (List.rev (EnhancedMemoryStore.lru st)) in
    let st1 := snd (EnhancedMemoryStore.evict count st) in
    let s := EnhancedMemoryStore.stats st in
    let s1 := EnhancedMemoryStore.stats st1 in
    fst (EnhancedMemoryStore.evict count st) = Core.Ok ks /\
    EnhancedMemoryStore.getLruKeys count st = Core.Ok ks /\
    Z.of_nat (List.length ks) =
      Z.min (Z.max 0 count) (JsMap.size (EnhancedMemoryStore.map st)) /\
    (forall k,
       JsMap.get k (EnhancedMemoryStore.map st1) =
       if List.existsb (String.eqb k) ks then None
       else JsMap.get k (EnhancedMemoryStore.map st)) /\
    EnhancedMemoryStore.evictions s1 =
      EnhancedMemoryStore.evictions s + Z.of_nat (List.length ks) /\
    EnhancedMemoryStore.keyCount s1 =
      EnhancedMemoryStore.keyCount s - Z.of_nat (List.length ks).
Proof.
  intros V JV count st Hwf ks st1 s s1.
  pose proof (wellFormed_lengths st Hwf) as Hlen.
  destruct Hwf as (Hm & Hl & Hiff).
  destruct (evictWalk_spec (List.rev (EnhancedMemoryStore.lru st)) count 0 st)
    as (Hks & Hmap & Hev & Hkc).
  { now apply NoDup_rev. }
  { intros k Hk. apply in_rev in Hk. apply Hiff in Hk.
    destruct (JsMap_in_keys_get k (EnhancedMemoryStore.map st) Hk) as [a ->].
    discriminate. }
  rewrite lruWalk_firstn, Z.sub_0_r in Hks. fold ks in Hks.
  subst st1 s1. unfold EnhancedMemoryStore.evict.
  destruct (EnhancedMemoryStore.evictWalk
              (List.rev (EnhancedMemoryStore.lru st)) count 0 st)
    as [ks' st'].
  cbn [fst snd] in *. subst ks'.
  split; [reflexivity|].
  split.
  { unfold EnhancedMemoryStore.getLruKeys.
    now rewrite lruWalk_firstn, Z.sub_0_r. }
  split.
  { subst ks. rewrite length_firstn, length_rev, Hlen. lia. }
  auto.
Qed.

Lemma engine_evict_takes_least_recent_witness :
  fst (EnhancedMemoryStore.evict 1 Sample.engineWithK) =
  Core.Ok ["k"%string].
Proof.
  assert (Hwf : EnhancedMemoryStore.wellFormed Sample.engineWithK).
  { unfold Sample.engineWithK. apply wellFormed_set, wellFormed_create. }
  apply (engine_evict_takes_least_recent Z _ 1 Sample.engineWithK Hwf).
Defined.

(** X9.  After a [get] that hits or a [set] that succeeds, the key is the
    most recently used one: an [evict(n)] with [n] below the number of
    keys does not evict it. *)
Theorem engine_touched_key_survives_eviction :
  forall (V : Type) (JV : Core.JsonValue V) (key : string) (count : Z)
         (st : EnhancedMemoryStore.t V),
    EnhancedMemoryStore.wellFormed st ->
    (forall options now v,
       fst (EnhancedMemoryStore.get key options now st) = Core.Ok (Some v) ->
       Core.defaultValue options = None ->
       let st1 := snd (EnhancedMemoryStore.get key options now st) in
       count <= JsMap.size (EnhancedMemoryStore.map st1) - 1 ->
       forall ks, fst (EnhancedMemoryStore.evict count st1) = Core.Ok ks ->
                  ~ In key ks) /\
    (forall v options now,
       fst (EnhancedMemoryStore.set key v options now st) = Core.Ok tt ->
       let st1 := snd (EnhancedMemoryStore.set key v options now st) in
       count <= JsMap.size (EnhancedMemoryStore.map st1) - 1 ->
       forall ks, fst (EnhancedMemoryStore.evict count st1) = Core.Ok ks ->
                  ~ In key ks).
Proof.
  intros V JV key count st Hwf.
  assert (Hgo : forall (st1 : EnhancedMemoryStore.t V) l,
            EnhancedMemoryStore.wellFormed st1 ->
            EnhancedMemoryStore.lru st1 = key :: l ->
            count <= JsMap.size (EnhancedMemoryStore.map st1) - 1 ->
            forall ks, fst (EnhancedMemoryStore.evict count st1) = Core.Ok ks ->
                       ~ In key ks).
  { intros st1 l Hwf1 Hlru Hcount ks Hks.
    pose proof (head_survives key l count st1 Hwf1 Hlru Hcount) as H.
    unfold EnhancedMemoryStore.evict in Hks.
    destruct (EnhancedMemoryStore.evictWalk _ count 0 st1) as [ks' s'].
    cbn [fst] in *. injection Hks as <-. exact H. }
  split.
  - intros options now v Hhit Hdef st1.
    apply (Hgo st1 (EnhancedMemoryStore.removeFromLRU key
                      (EnhancedMemoryStore.lru st))).
    + now apply wellFormed_get.
    + subst st1. revert Hhit. unfold EnhancedMemoryStore.get.
      destruct (JsMap.get key (EnhancedMemoryStore.map st)) as [entry|].
      * destruct (EnhancedMemoryStore.isExpired now entry); cbn.
        -- rewrite Hdef. discriminate.
        -- reflexivity.
      * cbn. rewrite Hdef. discriminate.
  - intros v options now Hok st1.
    assert (Hlru : exists l, EnhancedMemoryStore.lru st1 = key :: l).
    { subst st1. revert Hok. unfold EnhancedMemoryStore.set.
      destruct (JsMap.get key (EnhancedMemoryStore.map st));
        destruct (Core.isFalse (Core.overwrite options)); cbn;
        try discriminate;
        destruct (EnhancedMemoryStore.calculateSize v); cbn;
        try discriminate; intros _; eexists; reflexivity. }
    destruct Hlru as [l Hlru].
    apply (Hgo st1 l); auto. now apply wellFormed_set.
Qed.

Lemma engine_touched_key_survives_eviction_witness :
  let st1 := snd (EnhancedMemoryStore.set "j"%string 7 Core.noSetOptions 1
                    Sample.engineWithK) in
  let st2 := snd (EnhancedMemoryStore.get "k"%string Core.noGetOptions 2 st1) in
  fst (EnhancedMemoryStore.evict 1 st2) = Core.Ok ["j"%string] /\
  ~ In "k"%string ["j"%string].
Proof.
  cbv zeta. split; [reflexivity|].
  assert (Hwf : EnhancedMemoryStore.wellFormed
                  (snd (EnhancedMemoryStore.set "j"%string 7
                          Core.noSetOptions 1 Sample.engineWithK))).
  { unfold Sample.engineWithK.
    apply wellFormed_set, wellFormed_set, wellFormed_create. }
  destruct (engine_touched_key_survives_eviction Z _ "k"%string 1 _ Hwf)
    as [Hget _].
  assert (Hcount : 1 <= 2 - 1) by lia.
  exact (Hget Core.noGetOptions 2 42 eq_refl eq_refl Hcount
           ["j"%string] eq_refl).
Defined.

(** ** Hit and miss accounting, remaining time *)

(** X10.  Every [get] and every [getWithMetadata] counts one hit or one
    miss, a hit exactly when the key has an entry that has not expired.
    [set], [has], [delete], [getTtl], [sizeof] and [updateTtl] count
    neither. *)
Theorem engine_hit_miss_accounting :
  forall (V : Type) (JV : Core.JsonValue V) (key : string) (now : Z)
         (st : EnhancedMemoryStore.t V),
    let h (s : EnhancedMemoryStore.t V) :=
      EnhancedMemoryStore.hits (EnhancedMemoryStore.stats s) in
    let m (s : EnhancedMemoryStore.t V) :=
      EnhancedMemoryStore.misses (EnhancedMemoryStore.stats s) in
    let live :=
      match JsMap.get key (EnhancedMemoryStore.map st) with
      | Some entry => negb (EnhancedMemoryStore.isExpired now entry)
      | None => false
      end in
    let counted (s : EnhancedMemoryStore.t V) :=
      if live then h s = h st + 1 /\ m s = m st
      else h s = h st /\ m s = m st + 1 in
    let untouched (s : EnhancedMemoryStore.t V) :=
      h s = h st /\ m s = m st in
    (forall options, counted (snd (EnhancedMemoryStore.get key options now st))) /\
    counted (snd (EnhancedMemoryStore.getWithMetadata key now st)) /\
    (forall v options,
       untouched (snd (EnhancedMemoryStore.set key v options now st))) /\
    untouched (snd (EnhancedMemoryStore.has key now st)) /\
    untouched (snd (EnhancedMemoryStore.delete key now st)) /\
    untouched (snd (EnhancedMemoryStore.getTtl key now st)) /\
    untouched (snd (EnhancedMemoryStore.sizeof key now st)) /\
    (forall ttl,
       untouched (snd (EnhancedMemoryStore.updateTtl key ttl now st))).
Proof.
  intros V JV key now st h m live counted untouched.
  assert (Hwalk : forall nodes count ev (s : EnhancedMemoryStore.t V),
            h (snd (EnhancedMemoryStore.evictWalk nodes count ev s)) = h s /\
            m (snd (EnhancedMemoryStore.evictWalk nodes count ev s)) = m s).
  { induction nodes as [|k rest IH]; intros count ev s; cbn; auto.
    destruct (ev <? count); cbn; auto.
    destruct (JsMap.get k (EnhancedMemoryStore.map s)); auto.
    match goal with |- context [EnhancedMemoryStore.evictWalk rest count ?e ?x] =>
      specialize (IH count e x);
      destruct (EnhancedMemoryStore.evictWalk rest count e x) end.
    exact IH. }
  assert (Hloop : forall fuel target (s s' : EnhancedMemoryStore.t V),
            EnhancedMemoryStore.evictLoop fuel target s = Some s' ->
            h s' = h s /\ m s' = m s).
  { induction fuel as [|fuel IH]; intros target s s'; cbn; [discriminate|].
    destruct (match target with
              | Some tb => _
              | None => false
              end); [|now intros [= <-]].
    unfold EnhancedMemoryStore.evict.
    pose proof (Hwalk (rev (EnhancedMemoryStore.lru s)) 10 0 s) as Hw.
    destruct (EnhancedMemoryStore.evictWalk _ 10 0 s) as [ks s1].
    cbn [snd] in Hw.
    destruct ks as [|k ks]; [now intros [= <-]|].
    intros Hrun. destruct (IH _ _ _ Hrun). split; lia. }
  subst counted untouched live. cbv beta.
  split.
  { intros options. unfold EnhancedMemoryStore.get.
    destruct (JsMap.get key (EnhancedMemoryStore.map st)) as [entry|];
      [destruct (EnhancedMemoryStore.isExpired now entry)|]; cbn; auto. }
  split.
  { unfold EnhancedMemoryStore.getWithMetadata.
    destruct (JsMap.get key (EnhancedMemoryStore.map st)) as [entry|];
      [destruct (EnhancedMemoryStore.isExpired now entry)|]; cbn; auto. }
  split.
  { intros v options. unfold EnhancedMemoryStore.set.
    assert (Hst1 : forall size
                     (existing : option (EnhancedMemoryStore.InMemoryEntry V)),
              let st1 :=
                if Core.truthy (EnhancedMemoryStore.maxMemoryBytes
                                  (EnhancedMemoryStore.config st)) &&
                   (EnhancedMemoryStore.memoryUsageBytes
                      (EnhancedMemoryStore.stats st) + size -
                    EnhancedMemoryStore.existingSize existing >?
                    Core.orZero (EnhancedMemoryStore.maxMemoryBytes
                                   (EnhancedMemoryStore.config st)))
                then EnhancedMemoryStore.evictToMakeSpace size st
                else st in
              h st1 = h st /\ m st1 = m st).
    { intros size existing. cbv zeta.
      destruct (_ && _); auto.
      destruct (evictToMakeSpace_total size st) as (st' & Hrun & ->).
      now apply (Hloop _ _ _ _ Hrun). }
    destruct (JsMap.get key (EnhancedMemoryStore.map st)) as [existing|];
      destruct (Core.isFalse (Core.overwrite options)); cbn [snd]; auto;
      destruct (EnhancedMemoryStore.calculateSize v) as [size|];
      cbn [snd]; auto.
    all: match goal with
         | |- context [EnhancedMemoryStore.existingSize ?e] =>
             apply (Hst1 size e)
         end. }
  split.
  { unfold EnhancedMemoryStore.has.
    destruct (JsMap.get key (EnhancedMemoryStore.map st)) as [entry|];
      [destruct (EnhancedMemoryStore.isExpired now entry)|]; cbn; auto. }
  split.
  { unfold EnhancedMemoryStore.delete.
    destruct (JsMap.get key (EnhancedMemoryStore.map st)); cbn; auto. }
  split.
  { unfold EnhancedMemoryStore.getTtl.
    destruct (JsMap.get key (EnhancedMemoryStore.map st)) as [entry|];
      [destruct (EnhancedMemoryStore.isExpired now entry);
         [|destruct (negb _)]|]; cbn; auto. }
  split.
  { unfold EnhancedMemoryStore.sizeof.
    destruct (JsMap.get key (EnhancedMemoryStore.map st)) as [entry|];
      [destruct (EnhancedMemoryStore.isExpired now entry)|]; cbn; auto. }
  intros ttl. unfold EnhancedMemoryStore.updateTtl.
  destruct (JsMap.get key (EnhancedMemoryStore.map st)) as [entry|];
    [destruct (EnhancedMemoryStore.isExpired now entry)|]; cbn; auto.
Qed.

(** X11.  For a key whose entry has not expired, [updateTtl(key, ttl)]
    with [now + ttl] not 0 answers [true], and a [getTtl] at an instant
    before [now + ttl] answers the time that remains, [now + ttl] minus that
    instant.  For a key that is missing or expired, [updateTtl] answers
    [false] and [getTtl] answers [undefined]. *)
Theorem engine_ttl_update_and_read :
  forall (V : Type) (JV : Core.JsonValue V) (key : string) (ttl now now' : Z)
         (st : EnhancedMemoryStore.t V),
    (forall entry,
       JsMap.get key (EnhancedMemoryStore.map st) = Some entry ->
       EnhancedMemoryStore.isExpired now entry = false ->
       now + ttl <> 0 ->
       now' < now + ttl ->
       fst (EnhancedMemoryStore.updateTtl key ttl now st) = Core.Ok true /\
       fst (EnhancedMemoryStore.getTtl key now'
              (snd (EnhancedMemoryStore.updateTtl key ttl now st))) =
       Core.Ok (Some (now + ttl - now'))) /\
    (match JsMap.get key (EnhancedMemoryStore.map st) with
     | Some entry => EnhancedMemoryStore.isExpired now entry = true
     | None => True
     end ->
     fst (EnhancedMemoryStore.updateTtl key ttl now st) = Core.Ok false /\
     fst (EnhancedMemoryStore.getTtl key now st) = Core.Ok None).
Proof.
  intros V JV key ttl now now' st. split.
  - intros entry Hget Hlive Hnz Hlt.
    unfold EnhancedMemoryStore.updateTtl. rewrite Hget, Hlive.
    split; [reflexivity|].
    unfold EnhancedMemoryStore.getTtl.
    cbn [snd EnhancedMemoryStore.map]. rewrite JsMap_get_set_eq.
    unfold EnhancedMemoryStore.isExpired.
    cbn [EnhancedMemoryStore.metadata Core.expiresAt Core.truthy Core.orZero].
    replace (now + ttl <=? now') with false by (symmetry; apply Z.leb_gt; lia).
    replace (now + ttl =? 0) with false by (symmetry; now apply Z.eqb_neq).
    cbn. f_equal. f_equal. lia.
  - unfold EnhancedMemoryStore.updateTtl, EnhancedMemoryStore.getTtl.
    destruct (JsMap.get key (EnhancedMemoryStore.map st)) as [entry|].
    + intros ->. auto.
    + auto.
Qed.

Lemma engine_ttl_update_and_read_witness :
  fst (EnhancedMemoryStore.getTtl "k"%string 60
         (snd (EnhancedMemoryStore.updateTtl "k"%string 30 50
                 Sample.engineWithTtl))) = Core.Ok (Some 20).
Proof.
  destruct (engine_ttl_update_and_read Z _ "k"%string 30 50 60
              Sample.engineWithTtl) as [Hlive _].
  assert (Hnz : 50 + 30 <> 0) by lia.
  assert (Hlt : 60 < 50 + 30) by lia.
  destruct (Hlive _ eq_refl eq_refl Hnz Hlt) as [_ H]. exact H.
Defined.

(** ** Batches on the engine *)

Section EngineBatchFacts.
Import Core EnhancedMemoryStore.
Context {V : Type} `{JV : JsonValue V}.




(** What [get] answers: the live value, or else the default of the
    options. *)
Lemma get_answer (key : string) (options : GetOptions V) (now : Z) (st : t V) :
  fst (get key options now st) =
  Ok (match liveValue now st key with
      | Some v => Some v
      | None => defaultValue options
      end).
Proof.
  unfold get, liveValue.
  destruct (JsMap.get key (map st)) as [entry|]; auto.
  destruct (isExpired now entry); auto.
Qed.

(** A [get] that does not refresh leaves the live value of every key as
    it is. *)
Lemma get_keeps_live (key k : string) (options : GetOptions V) (now : Z)
  (st : t V) :
  flag (refreshTtl options) = false ->
  liveValue now (snd (get key options now st)) k = liveValue now st k.
Proof.
  intros Hnr. unfold get, liveValue.
  destruct (JsMap.get key (map st)) as [entry|] eqn:E; cbn [snd map]; auto.
  destruct (isExpired now entry) eqn:Hexp; cbn [snd map withStats unlink].
  - destruct (String.eqb k key) eqn:Ek.
    + apply String.eqb_eq in Ek. subst k.
      now rewrite JsMap_get_delete_eq, E, Hexp.
    + apply String.eqb_neq in Ek. now rewrite JsMap_get_delete_ne.
  - destruct (String.eqb k key) eqn:Ek.
    + apply String.eqb_eq in Ek. subst k.
      rewrite JsMap_get_set_eq, E, Hexp.
      unfold isExpired, touch in *. rewrite Hnr. cbn in *. now rewrite Hexp.
    + apply String.eqb_neq in Ek. now rewrite JsMap_get_set_ne.
Qed.

Lemma mgetLoop_spec (keys : list string) (options : GetOptions V) (now : Z)
  (st : t V) (acc : JsMap.t V) :
  flag (refreshTtl options) = false ->
  forall k,
    JsMap.get k (fst (mgetLoop keys options now st acc)) =
    if List.existsb (String.eqb k) keys then
      match liveValue now st k, defaultValue options with
      | Some v, _ => Some v
      | None, Some d => Some d
      | None, None => JsMap.get k acc
      end
    else JsMap.get k acc.
Proof.
  intros Hnr. revert st acc.
  induction keys as [|key rest IH]; intros st acc k;
    cbn [mgetLoop List.existsb]; auto.
  pose proof (get_answer key options now st) as Hans.
  pose proof (fun k => get_keeps_live key k options now st Hnr) as Hlive.
  destruct (get key options now st) as [r s1]. cbn [fst snd] in *.
  subst r.
  assert (Hset : forall v,
            JsMap.get k (JsMap.set key v acc) =
            if String.eqb k key then Some v else JsMap.get k acc).
  { intros v. destruct (String.eqb k key) eqn:Ek.
    - apply String.eqb_eq in Ek. subst. apply JsMap_get_set_eq.
    - apply String.eqb_neq in Ek. now apply JsMap_get_set_ne. }
  destruct (liveValue now st key) as [v|] eqn:Lk.
  - rewrite IH, Hlive, Hset.
    destruct (String.eqb k key) eqn:Ek; cbn [orb].
    + apply String.eqb_eq in Ek. subst k. rewrite Lk.
      now destruct (List.existsb _ rest).
    + reflexivity.
  - destruct (defaultValue options) as [d|] eqn:Hd.
    + rewrite IH, Hlive, Hset, ?Hd.
      destruct (String.eqb k key) eqn:Ek; cbn [orb].
      * apply String.eqb_eq in Ek. subst k. rewrite Lk.
        now destruct (List.existsb _ rest).
      * reflexivity.
    + rewrite IH, Hlive, ?Hd.
      destruct (String.eqb k key) eqn:Ek; cbn [orb]; auto.
      apply String.eqb_eq in Ek. subst k. rewrite Lk.
      now destruct (List.existsb _ rest).
Qed.

Lemma mdelLoop_spec (keys : list string) (now : Z) (st : t V) :
  let br := fst (mdelLoop keys now st) in
  let st' := snd (mdelLoop keys now st) in
  failed br = [] /\
  (forall k, In k (successful br) <->
             In k keys /\ JsMap.has k (map st) = true) /\
  (forall k, JsMap.get k (map st') =
             if List.existsb (String.eqb k) keys then None
             else JsMap.get k (map st)).
Proof.
  revert st. induction keys as [|key rest IH]; intros st;
    cbn [mdelLoop List.existsb].
  - cbn. repeat split; tauto.
  - assert (Hdel :
      fst (delete key now st) = Ok (JsMap.has key (map st)) /\
      forall k, JsMap.get k (map (snd (delete key now st))) =
                if String.eqb k key then None else JsMap.get k (map st)).
    { unfold delete, JsMap.has.
      destruct (JsMap.get key (map st)) as [entry|] eqn:E;
        cbn [fst snd map withStats unlink]; split; auto; intros k;
        destruct (String.eqb k key) eqn:Ek.
      - apply String.eqb_eq in Ek. subst. apply JsMap_get_delete_eq.
      - apply String.eqb_neq in Ek. now apply JsMap_get_delete_ne.
      - apply String.eqb_eq in Ek. now subst.
      - reflexivity. }
    destruct Hdel as [Hr Hmap].
    destruct (delete key now st) as [r s1]. cbn [fst snd] in *. subst r.
    destruct (IH s1) as (Hf & Hs & Hm).
    destruct (mdelLoop rest now s1) as [br s2]. cbn [fst snd] in *.
    assert (Hhas1 : forall k, JsMap.has k (map s1) =
                              if String.eqb k key then false
                              else JsMap.has k (map st)).
    { intros k. unfold JsMap.has. rewrite Hmap.
      now destruct (String.eqb k key). }
    split; [now destruct (JsMap.has key (map st))|].
    split.
    + intros k. specialize (Hs k). rewrite Hhas1 in Hs.
      destruct (String.eqb k key) eqn:Ek.
      * apply String.eqb_eq in Ek. subst k.
        destruct (JsMap.has key (map st)) eqn:Hk;
          cbn [fst successful In].
        -- split; auto.
        -- split; [intros Hin; apply Hs in Hin|intros [_ ?]];
             [destruct Hin|]; discriminate.
      * apply String.eqb_neq in Ek.
        destruct (JsMap.has key (map st)) eqn:Hk; cbn [successful In].
        -- split.
           ++ intros [Heq|Hin]; [congruence|]. apply Hs in Hin. tauto.
           ++ intros [[Heq|Hin] Hh]; [congruence|]. right. apply Hs. tauto.
        -- split.
           ++ intros Hin. apply Hs in Hin. tauto.
           ++ intros [[Heq|Hin] Hh]; [congruence|]. apply Hs. tauto.
    + intros k. destruct (JsMap.has key (map st)); cbn [snd];
        rewrite Hm, Hmap;
        destruct (String.eqb k key); cbn [orb];
        now destruct (List.existsb _ rest).
Qed.

End EngineBatchFacts.



(** X13.  [mget] on the engine, with options that do not refresh, answers
    a map that holds, for each requested key, its live value or else the
    default value of the options, and holds no other key: without a
    default, exactly the requested keys that are live; with one, every
    requested key. *)
Theorem engine_mget_batch :
  forall (V : Type) (JV : Core.JsonValue V)
         (keys : list string) (options : Core.GetOptions V) (now : Z)
         (st : EnhancedMemoryStore.t V),
    Core.flag (Core.refreshTtl options) = false ->
    exists result,
      fst (EnhancedMemoryStore.mget keys options now st) = Core.Ok result /\
      forall k,
        JsMap.get k result =
        if List.existsb (String.eqb k) keys then
          match liveValue now st k with
          | Some v => Some v
          | None => Core.defaultValue options
          end
        else None.
Proof.
  intros V JV keys options now st Hnr.
  unfold EnhancedMemoryStore.mget.
  pose proof (mgetLoop_spec keys options now st JsMap.empty Hnr) as H.
  destruct (EnhancedMemoryStore.mgetLoop keys options now st JsMap.empty)
    as [result st'].
  exists result. split; [reflexivity|].
  intros k. cbn [fst] in H. rewrite H.
  destruct (List.existsb (String.eqb k) keys); auto.
  destruct (liveValue now st k); auto.
  destruct (Core.defaultValue options); auto.
Qed.

Lemma engine_mget_batch_witness :
  fst (EnhancedMemoryStore.mget ["k"; "x"]%string
         (Core.mkGetOptions None (Some 7)) 200 Sample.engineWithK) =
  Core.Ok [("k"%string, 42); ("x"%string, 7)].
Proof.
  destruct (engine_mget_batch Z _ ["k"; "x"]%string
              (Core.mkGetOptions None (Some 7)) 200 Sample.engineWithK
              eq_refl) as (result & Hr & _).
  rewrite Hr. f_equal. injection Hr as <-. reflexivity.
Defined.

(** X14.  [mdel] on the engine always succeeds as a call and reports no
    failure; its successful keys are the requested keys the map held.
    Afterwards no requested key is in the map and every other key has the
    entry it had. *)
Theorem engine_mdel_batch :
  forall (V : Type) (JV : Core.JsonValue V)
         (keys : list string) (now : Z) (st : EnhancedMemoryStore.t V),
    exists br,
      fst (EnhancedMemoryStore.mdel keys now st) = Core.Ok br /\
      Core.failed br = [] /\
      (forall k, In k (Core.successful br) <->
                 In k keys /\
                 JsMap.has k (EnhancedMemoryStore.map st) = true) /\
      (forall k,
         JsMap.get k (EnhancedMemoryStore.map
                        (snd (EnhancedMemoryStore.mdel keys now st))) =
         if List.existsb (String.eqb k) keys then None
         else JsMap.get k (EnhancedMemoryStore.map st)).
Proof.
  intros V JV keys now st. unfold EnhancedMemoryStore.mdel.
  pose proof (mdelLoop_spec keys now st) as H.
  destruct (EnhancedMemoryStore.mdelLoop keys now st) as [br st'].
  exists br. cbn [fst snd] in *. split; [reflexivity|exact H].
Qed.

Lemma engine_mdel_batch_witness :
  exists br,
    fst (EnhancedMemoryStore.mdel ["k"; "j"]%string 0 Sample.engineWithK)
    = Core.Ok br /\
    In "k"%string (Core.successful br) /\
    ~ In "j"%string (Core.successful br).
Proof.
  destruct (engine_mdel_batch Z _ ["k"; "j"]%string 0 Sample.engineWithK)
    as (br & Hr & _ & Hs & _).
  exists br. split; [exact Hr|]. split.
  - apply Hs. split; [left; reflexivity|reflexivity].
  - intros Hj. apply Hs in Hj. destruct Hj as [_ Hj]. discriminate.
Defined.

(** ** More of the tiered store *)

Section TieredMoreFacts.
Import Core.
Context {V St1 St2 : Type}.
Context `{L1 : IKeyValueStore V St1} `{L2 : IKeyValueStore V St2}.

Lemma JsMap_delete_filter {A : Type} (key : string) (q : JsMap.t A) :
  List.filter (fun p => String.eqb key (fst p)) (JsMap.delete key q) = [].
Proof.
  apply JsMap_filter_absent. rewrite JsMap_keys_delete, filter_In.
  rewrite String.eqb_refl. cbn. intros [_ ?]. discriminate.
Qed.

(** The flush leaves the queue empty. *)
Lemma flush_empties_queue (now : Z) (st : MultiTierStore.t V St1 St2) :
  MultiTierStore.writeBehindQueue
    (MultiTierStore.processWriteBehindQueue now st) = [].
Proof.
  unfold MultiTierStore.processWriteBehindQueue.
  destruct (JsMap.size (MultiTierStore.writeBehindQueue st) =? 0) eqn:E.
  - apply Z.eqb_eq in E. unfold JsMap.size in E.
    destruct (MultiTierStore.writeBehindQueue st); [reflexivity|].
    cbn in E. lia.
  - destruct (Core.mset _ now (MultiTierStore.l2Cache st)) as [r l2].
    cbn. apply JsMap_delete_all_keys.
    intros p Hp. unfold JsMap.keys. now apply in_map.
Qed.

Lemma queue_fold_has (operations : list (BatchSetOperation V)) (now : Z)
  (st : MultiTierStore.t V St1 St2) :
  let st' :=
    List.fold_left
      (fun s op =>
         MultiTierStore.queueWriteBehind (op_key op) (op_value op)
           (op_options op) now s)
      operations st in
  MultiTierStore.l1Cache st' = MultiTierStore.l1Cache st /\
  MultiTierStore.l2Cache st' = MultiTierStore.l2Cache st /\
  (forall k,
     JsMap.has k (MultiTierStore.writeBehindQueue st') =
     List.existsb (String.eqb k) (List.map op_key operations) ||
     JsMap.has k (MultiTierStore.writeBehindQueue st)).
Proof.
  revert st. induction operations as [|op rest IH]; intros st;
    cbn [List.fold_left List.map List.existsb].
  - cbn. auto.
  - destruct (IH (MultiTierStore.queueWriteBehind (op_key op) (op_value op)
                    (op_options op) now st)) as (H1 & H2 & H3).
    cbv zeta. rewrite H1, H2. split; [reflexivity|]. split; [reflexivity|].
    intros k. rewrite H3. cbn [MultiTierStore.queueWriteBehind
      MultiTierStore.withQueue MultiTierStore.writeBehindQueue].
    unfold MultiTierStore.queueWriteBehind, MultiTierStore.withQueue.
    cbn [MultiTierStore.writeBehindQueue]. unfold JsMap.has.
    destruct (String.eqb k (op_key op)) eqn:E.
    + apply String.eqb_eq in E. subst k. rewrite JsMap_get_set_eq.
      cbn. now rewrite orb_true_r.
    + apply String.eqb_neq in E. rewrite JsMap_get_set_ne by assumption.
      cbn. reflexivity.
Qed.

End TieredMoreFacts.

(** X15.  [has] on the tiered store answers [true] without asking the
    durable tier when the fast tier answers [true]; in every other case,
    a failure of the fast tier included, it asks the durable tier once and
    returns what it answers. *)
Theorem tiered_has_short_circuits :
  forall (V St1 St2 : Type)
         (L1 : Core.IKeyValueStore V St1) (L2 : Core.IKeyValueStore V St2)
         (key : string) (now : Z)
         (st : MultiTierStore.t V St1 (Recorder.t V St2)),
    let r1 := fst (Core.has key now (MultiTierStore.l1Cache st)) in
    let l2 := MultiTierStore.l2Cache st in
    let out := MultiTierStore.has key now st in
    (r1 = Core.Ok true ->
     fst out = Core.Ok true /\ MultiTierStore.l2Cache (snd out) = l2) /\
    (r1 <> Core.Ok true ->
     fst out = fst (Core.has key now (Recorder.inner l2)) /\
     Recorder.journal (MultiTierStore.l2Cache (snd out)) =
     Recorder.journal l2 ++ [Recorder.CallHas key]).
Proof.
  intros V St1 St2 L1 L2 key now st r1 l2 out.
  subst out r1 l2. unfold MultiTierStore.has.
  destruct (Core.has key now (MultiTierStore.l1Cache st)) as [a s1].
  cbn [fst]. split.
  - intros ->. cbn. auto.
  - intros Hne. cbn. unfold Recorder.forward.
    destruct (Core.has key now
                (Recorder.inner (MultiTierStore.l2Cache st))) as [b s2].
    destruct a as [[|]|e]; cbn; auto. congruence.
Qed.

Lemma tiered_has_short_circuits_witness :
  let out := MultiTierStore.has "k"%string 0 Sample.coldTiersE in
  fst out = Core.Ok true /\
  Recorder.journal (MultiTierStore.l2Cache (snd out)) =
  [Recorder.CallHas "k"%string].
Proof.
  destruct (tiered_has_short_circuits Z Sample.Engine Sample.Engine _ _
              "k"%string 0 Sample.coldTiersE) as [_ H].
  assert (Hne : fst (Core.has "k"%string 0
                       (MultiTierStore.l1Cache Sample.coldTiersE)) <>
                Core.Ok (E := Core.StoreError) true) by discriminate.
  destruct (H Hne) as [Hr Hj]. split; [exact Hr|exact Hj].
Defined.

(** X16.  [delete] on the tiered store always succeeds as a call, with
    [true] exactly when a tier answered [true], and takes the key out of
    the write-behind queue: the batch of a later flush has no operation for
    it.  Under the write-behind policy with nothing else queued, a [set]
    followed by a [delete] of the key and a flush makes one call to the
    durable tier, the [delete], and no [mset]. *)
Theorem tiered_delete_cancels_pending_write :
  forall (V St1 St2 : Type)
         (L1 : Core.IKeyValueStore V St1) (L2 : Core.IKeyValueStore V St2)
         (key : string) (now : Z)
         (st : MultiTierStore.t V St1 (Recorder.t V St2)),
    let hit {St} `{Core.IKeyValueStore V St} (s : St) :=
      match fst (Core.delete key now s) with
      | Core.Ok true => true
      | _ => false
      end in
    let out := MultiTierStore.delete key now st in
    fst out =
      Core.Ok (hit (MultiTierStore.l1Cache st) ||
               hit (Recorder.inner (MultiTierStore.l2Cache st))) /\
    List.filter (fun op => String.eqb key (Core.op_key op))
      (MultiTierStore.queuedOperations
         (MultiTierStore.writeBehindQueue (snd out))) = [] /\
    (forall v options t1 t3,
       MultiTierStore.cfg_writeThrough (MultiTierStore.config st) = false ->
       MultiTierStore.cfg_writeBehind (MultiTierStore.config st) = true ->
       MultiTierStore.writeBehindQueue st = [] ->
       let s1 := MultiTierStore.set key v options t1 st in
       let s2 := MultiTierStore.delete key now (snd s1) in
       let st3 := MultiTierStore.processWriteBehindQueue t3 (snd s2) in
       fst s1 = Core.Ok tt ->
       Recorder.journal (MultiTierStore.l2Cache st3) =
       Recorder.journal (MultiTierStore.l2Cache st) ++
       [Recorder.CallDelete key]).
Proof.
  intros V St1 St2 L1 L2 key now st hit out.
  assert (Hdel : forall s : MultiTierStore.t V St1 (Recorder.t V St2),
            MultiTierStore.writeBehindQueue
              (snd (MultiTierStore.delete key now s)) =
              JsMap.delete key (MultiTierStore.writeBehindQueue s) /\
            Recorder.journal
              (MultiTierStore.l2Cache (snd (MultiTierStore.delete key now s))) =
              Recorder.journal (MultiTierStore.l2Cache s) ++
              [Recorder.CallDelete key]).
  { intros s. unfold MultiTierStore.delete. cbn. unfold Recorder.forward.
    destruct (Core.delete key now (MultiTierStore.l1Cache s)).
    destruct (Core.delete key now
                (Recorder.inner (MultiTierStore.l2Cache s))).
    cbn. auto. }
  split; [|split].
  - subst out hit. unfold MultiTierStore.delete. cbn. unfold Recorder.forward.
    destruct (Core.delete key now (MultiTierStore.l1Cache st)) as [a s1].
    destruct (Core.delete key now
                (Recorder.inner (MultiTierStore.l2Cache st))) as [b s2].
    cbn. destruct a as [[|]|e1]; destruct b as [[|]|e2]; reflexivity.
  - subst out. destruct (Hdel st) as [-> _].
    rewrite queuedOperations_filter, JsMap_delete_filter. reflexivity.
  - intros v options t1 t3 Hwt Hwb Hq s1 s2 st3 Hok.
    destruct (tiered_set_write_behind_step key v options t1 st Hwt Hwb Hok)
      as (Hl2 & _ & Hqueue).
    fold s1 in Hl2, Hqueue. rewrite Hq in Hqueue.
    destruct (Hdel (snd s1)) as [Hq2 Hj2]. fold s2 in Hq2, Hj2.
    rewrite Hqueue in Hq2. cbn in Hq2. rewrite String.eqb_refl in Hq2.
    cbn in Hq2.
    subst st3. unfold MultiTierStore.processWriteBehindQueue.
    rewrite Hq2. cbn. now rewrite Hj2, Hl2.
Qed.

Lemma tiered_delete_cancels_pending_write_witness :
  let s1 := MultiTierStore.set "k"%string 1 Core.noSetOptions 0
              Sample.writeBehindTiers in
  let s2 := MultiTierStore.delete "k"%string 1 (snd s1) in
  let st3 := MultiTierStore.processWriteBehindQueue 5000 (snd s2) in
  Recorder.journal (MultiTierStore.l2Cache st3) =
  [Recorder.CallDelete "k"%string].
Proof.
  destruct (tiered_delete_cancels_pending_write Z Sample.Engine Sample.Engine
              _ _ "k"%string 1 Sample.writeBehindTiers) as (_ & _ & H).
  exact (H 1 Core.noSetOptions 0 5000 eq_refl eq_refl eq_refl eq_refl).
Defined.

(** X17.  A flush of an empty queue changes nothing and calls no tier;
    after any flush the queue is empty, so a second flush in a row does
    nothing.  When neither [writeThrough] nor [writeBehind] is set, a
    [set] leaves the durable tier and the queue as they were. *)
Theorem tiered_flush_and_untouched_durable_tier :
  forall (V St1 St2 : Type)
         (L1 : Core.IKeyValueStore V St1) (L2 : Core.IKeyValueStore V St2)
         (st : MultiTierStore.t V St1 St2),
    (MultiTierStore.writeBehindQueue st = [] ->
     forall now, MultiTierStore.processWriteBehindQueue now st = st) /\
    (forall now now',
       MultiTierStore.processWriteBehindQueue now'
         (MultiTierStore.processWriteBehindQueue now st) =
       MultiTierStore.processWriteBehindQueue now st) /\
    (MultiTierStore.cfg_writeThrough (MultiTierStore.config st) = false ->
     MultiTierStore.cfg_writeBehind (MultiTierStore.config st) = false ->
     forall key v options now,
       let st1 := snd (MultiTierStore.set key v options now st) in
       MultiTierStore.l2Cache st1 = MultiTierStore.l2Cache st /\
       MultiTierStore.writeBehindQueue st1 =
       MultiTierStore.writeBehindQueue st).
Proof.
  intros V St1 St2 L1 L2 st.
  assert (Hempty : forall s : MultiTierStore.t V St1 St2,
            MultiTierStore.writeBehindQueue s = [] ->
            forall now, MultiTierStore.processWriteBehindQueue now s = s).
  { intros s Hq now. unfold MultiTierStore.processWriteBehindQueue.
    now rewrite Hq. }
  split; [apply Hempty|]. split.
  - intros now now'. apply Hempty. apply flush_empties_queue.
  - intros Hwt Hwb key v options now. unfold MultiTierStore.set.
    destruct (Core.set key v _ now (MultiTierStore.l1Cache st)) as [a s1].
    destruct a as [[]|e]; cbn; auto. rewrite Hwt, Hwb. cbn. auto.
Qed.

Lemma tiered_flush_and_untouched_durable_tier_witness :
  MultiTierStore.processWriteBehindQueue 5000 Sample.writeBehindTiers =
  Sample.writeBehindTiers.
Proof.
  destruct (tiered_flush_and_untouched_durable_tier Z Sample.Engine
              (Recorder.t Z Sample.Engine) _ _ Sample.writeBehindTiers)
    as (H & _).
  exact (H eq_refl 5000).
Defined.

(** X18.  [mset] on the tiered store hands the batch to the fast tier once,
    each operation with [ttl ?? l1TtlMs], and returns the fast tier's
    outcome.  When the fast tier fails, the durable tier is not called.
    Otherwise, under [writeThrough] the durable tier receives one [mset]
    of the batch with [ttl ?? l2TtlMs]; under write-behind it receives no
    call and every key of the batch is queued; with neither it is left
    alone. *)
Theorem tiered_mset_propagation :
  forall (V St1 St2 : Type)
         (L1 : Core.IKeyValueStore V St1) (L2 : Core.IKeyValueStore V St2)
         (operations : list (Core.BatchSetOperation V)) (now : Z)
         (st : MultiTierStore.t V (Recorder.t V St1) (Recorder.t V St2)),
    let cfg := MultiTierStore.config st in
    let l1 := MultiTierStore.l1Cache st in
    let l2 := MultiTierStore.l2Cache st in
    let l1Operations :=
      List.map (MultiTierStore.withTtl (MultiTierStore.cfg_l1TtlMs cfg))
               operations in
    let l2Operations :=
      List.map (MultiTierStore.withTtl (MultiTierStore.cfg_l2TtlMs cfg))
               operations in
    let p1 := Core.mset l1Operations now (Recorder.inner l1) in
    let out := MultiTierStore.mset operations now st in
    fst out = fst p1 /\
    Recorder.journal (MultiTierStore.l1Cache (snd out)) =
      Recorder.journal l1 ++ [Recorder.CallMset l1Operations] /\
    (forall e, fst p1 = Core.Err e ->
       MultiTierStore.l2Cache (snd out) = l2) /\
    (forall br, fst p1 = Core.Ok br ->
       if MultiTierStore.cfg_writeThrough cfg then
         Recorder.journal (MultiTierStore.l2Cache (snd out)) =
         Recorder.journal l2 ++ [Recorder.CallMset l2Operations]
       else
         MultiTierStore.l2Cache (snd out) = l2 /\
         (MultiTierStore.cfg_writeBehind cfg = true ->
          forall op, In op operations ->
            JsMap.has (Core.op_key op)
              (MultiTierStore.writeBehindQueue (snd out)) = true)).
Proof.
  intros V St1 St2 L1 L2 operations now st cfg l1 l2 l1Operations
         l2Operations p1 out.
  subst out p1. unfold MultiTierStore.mset. fold cfg.
  fold l1Operations l2Operations. cbn. unfold Recorder.forward.
  fold l1. destruct (Core.mset l1Operations now (Recorder.inner l1))
    as [a s1].
  cbn [fst]. destruct a as [br|e].
  - cbn [MultiTierStore.withL1 MultiTierStore.config].
    fold cfg. destruct (MultiTierStore.cfg_writeThrough cfg) eqn:Hwt.
    + destruct (Core.mset l2Operations now _) as [b s2]. cbn.
      split; [reflexivity|]. split; [reflexivity|].
      split; [intros; discriminate|]. intros br' _. reflexivity.
    + destruct (MultiTierStore.cfg_writeBehind cfg) eqn:Hwb.
      * match goal with |- context [List.fold_left ?f operations ?s] =>
          destruct (queue_fold_has operations now s) as (H1 & H2 & H3) end.
        cbv zeta in H1, H2, H3. cbn [fst snd]. rewrite H1, H2.
        split; [reflexivity|]. split; [reflexivity|].
        split; [intros; discriminate|]. intros br' _.
        split; [reflexivity|]. intros _ op Hin. rewrite H3.
        apply orb_true_iff. left. apply existsb_exists.
        exists (Core.op_key op). split; [now apply in_map|].
        apply String.eqb_refl.
      * cbn. split; [reflexivity|]. split; [reflexivity|].
        split; [intros; discriminate|]. intros br' _.
        split; [reflexivity|discriminate].
  - cbn. split; [reflexivity|]. split; [reflexivity|].
    split; [reflexivity|]. intros; discriminate.
Qed.

Lemma tiered_mset_propagation_witness :
  let ops := [Core.mkBatchSetOperation "a"%string 1 Core.noSetOptions] in
  let out := MultiTierStore.mset ops 0 Sample.writeThroughTiers in
  Recorder.journal (MultiTierStore.l2Cache (snd out)) =
  [Recorder.CallMset
     [Core.mkBatchSetOperation "a"%string 1
        (Core.mkSetOptions (Some 3600000) None)]].
Proof.
  intros ops out.
  destruct (tiered_mset_propagation Z Sample.Engine Sample.Engine _ _ ops 0
              Sample.writeThroughTiers) as (_ & _ & _ & H).
  exact (H (Core.mkBatchResult ["a"%string] []) eq_refl).
Defined.

(** ** The namespacing decorator *)

Section NamespaceFacts.
Import Core.

Lemma prefix_append (p s : string) : String.prefix p (String.append p s) = true.
Proof.
  induction p as [|c p IH]; cbn.
  - now destruct s.
  - destruct (Ascii.ascii_dec c c); [exact IH|contradiction].
Qed.

Lemma slice_append (p s : string) :
  NamespacedStore.slice (String.length p) (String.append p s) = s.
Proof. induction p as [|c p IH]; cbn; auto. Qed.

Lemma append_assoc_colon (ns key : string) :
  String.append ns (String ":"%char key) =
  String.append (String.append ns (String ":"%char EmptyString)) key.
Proof. induction ns as [|c ns IH]; cbn; auto. now rewrite IH. Qed.

Lemma unk_k (ns key : string) :
  NamespacedStore.unk ns (NamespacedStore.k ns key) = key.
Proof.
  unfold NamespacedStore.unk, NamespacedStore.k.
  rewrite (append_assoc_colon ns key), prefix_append. apply slice_append.
Qed.

Lemma k_injective (ns key key' : string) :
  NamespacedStore.k ns key = NamespacedStore.k ns key' -> key = key'.
Proof.
  intros H. rewrite <- (unk_k ns key), <- (unk_k ns key'). now rewrite H.
Qed.

Lemma k_disjoint (ns ns' key key' : string) :
  colonFree ns = true -> colonFree ns' = true ->
  NamespacedStore.k ns key = NamespacedStore.k ns' key' -> ns = ns'.
Proof.
  unfold NamespacedStore.k. revert ns'.
  induction ns as [|c ns IH]; intros [|c' ns'] Hf Hf'; cbn in *; auto.
  - intros [= <- _]. cbn in Hf'. discriminate.
  - intros [= -> _]. cbn in Hf. discriminate.
  - intros [= -> Hrest].
    apply andb_true_iff in Hf. apply andb_true_iff in Hf'.
    f_equal. apply IH; tauto.
Qed.

End NamespaceFacts.

(** X19.  In a [NamespacedStore], [unk] undoes [k]: a key that went in
    through the namespace comes back as it was, so two keys of one
    namespace never share an inner key; and two namespaces without a colon
    in their names never share an inner key either. *)
Theorem namespaced_keys_round_trip :
  forall (ns key : string),
    NamespacedStore.unk ns (NamespacedStore.k ns key) = key /\
    (forall key',
       NamespacedStore.k ns key = NamespacedStore.k ns key' -> key = key') /\
    (forall ns' key',
       colonFree ns = true -> colonFree ns' = true -> ns <> ns' ->
       NamespacedStore.k ns key <> NamespacedStore.k ns' key').
Proof.
  intros ns key. split; [apply unk_k|]. split; [apply k_injective|].
  intros ns' key' Hf Hf' Hne Heq. apply Hne.
  now apply (k_disjoint ns ns' key key').
Qed.

Lemma namespaced_keys_round_trip_witness :
  NamespacedStore.k "users" "a" <> NamespacedStore.k "orders" "a".
Proof.
  destruct (namespaced_keys_round_trip "users" "a") as (_ & _ & H).
  apply (H "orders"%string "a"%string eq_refl eq_refl). discriminate.
Defined.

(** ** The legacy store, alone and under a namespace *)

Section LegacyFacts.
Import Core.
Context {V : Type}.

Lemma legacy_set_ok (key : string) (v : V) (options : SetOptions) (now : Z)
  (m : InMemoryStore.t V) :
  JsMap.has key m && isFalse (overwrite options) = false ->
  InMemoryStore.set key v options now m = (Ok tt, JsMap.set key v m).
Proof. intros H. unfold InMemoryStore.set. now rewrite H. Qed.

Lemma legacy_msetLoop_all (operations : list (BatchSetOperation V)) (now : Z)
  (m : InMemoryStore.t V) :
  (forall op, In op operations ->
     isFalse (overwrite (op_options op)) = false) ->
  fst (InMemoryStore.msetLoop operations now m) =
  mkBatchResult (List.map op_key operations) [].
Proof.
  revert m. induction operations as [|op rest IH]; intros m Hall; cbn; auto.
  rewrite legacy_set_ok
    by (rewrite (Hall op (or_introl eq_refl)); apply andb_false_r).
  specialize (IH (JsMap.set (op_key op) (op_value op) m)
                 (fun o Hin => Hall o (or_intror Hin))).
  destruct (InMemoryStore.msetLoop rest now _) as [br s2].
  cbn in *. now rewrite IH.
Qed.

Lemma length_append (a b : string) :
  String.length (String.append a b) =
  (String.length a + String.length b)%nat.
Proof. induction a as [|c a IH]; cbn; auto. Qed.

Lemma k_longer (ns key : string) : NamespacedStore.k ns key <> key.
Proof.
  intros H. apply (f_equal String.length) in H.
  unfold NamespacedStore.k in H. rewrite length_append in H.
  cbn in H. lia.
Qed.

End LegacyFacts.

(** X20.  On the legacy [InMemoryStore]: a [set] of a key that is new, or
    that may be overwritten, succeeds, and the key then reads back as the
    value while every other key reads as before; a [set] with
    [overwrite: false] of a key the store holds fails with
    [OPERATION_FAILED] and changes nothing; [delete] answers whether the
    key was there, after which the key reads as the default of the options. *)
Theorem legacy_store_set_get_delete :
  forall (V : Type) (key : string) (v : V) (options : Core.SetOptions)
         (o : Core.GetOptions V) (now t : Z) (m : InMemoryStore.t V),
    (JsMap.has key m && Core.isFalse (Core.overwrite options) = false ->
     let out := InMemoryStore.set key v options now m in
     fst out = Core.Ok tt /\
     fst (InMemoryStore.get key o t (snd out)) = Core.Ok (Some v) /\
     (forall key', key' <> key ->
        fst (InMemoryStore.get key' o t (snd out)) =
        fst (InMemoryStore.get key' o t m))) /\
    (JsMap.has key m && Core.isFalse (Core.overwrite options) = true ->
     InMemoryStore.set key v options now m =
     (Core.Err (Core.createStoreError Core.OPERATION_FAILED (Some key)), m)) /\
    (let out := InMemoryStore.delete key now m in
     fst out = Core.Ok (JsMap.has key m) /\
     fst (InMemoryStore.get key o t (snd out)) =
     Core.Ok (Core.defaultValue o)).
Proof.
  intros V key v options o now t m. split; [|split].
  - intros Hok out. subst out. rewrite (legacy_set_ok key v options now m Hok).
    cbn [fst snd]. split; [reflexivity|]. unfold InMemoryStore.get. cbn [fst].
    split; [now rewrite JsMap_get_set_eq|].
    intros key' Hne. now rewrite JsMap_get_set_ne.
  - intros Hno. unfold InMemoryStore.set. now rewrite Hno.
  - cbn. split; [reflexivity|]. unfold InMemoryStore.get. cbn.
    change (List.filter _ m) with (JsMap.delete key m).
    now rewrite JsMap_get_delete_eq.
Qed.

Lemma legacy_store_set_get_delete_witness :
  let m := snd (InMemoryStore.set "test"%string 1 Core.noSetOptions 0
                  InMemoryStore.create) in
  Core.isOk (fst (InMemoryStore.set "test"%string 2
                    (Core.mkSetOptions None (Some false)) 0 m)) = false /\
  fst (InMemoryStore.get "test"%string Core.noGetOptions 0 m) =
  Core.Ok (Some 1).
Proof.
  intros m.
  destruct (legacy_store_set_get_delete Z "test"%string 2
              (Core.mkSetOptions None (Some false)) Core.noGetOptions 0 0 m)
    as (_ & Hfail & _).
  rewrite (Hfail eq_refl). split; [reflexivity|].
  destruct (legacy_store_set_get_delete Z "test"%string 1 Core.noSetOptions
              Core.noGetOptions 0 0 InMemoryStore.create) as (Hok & _).
  destruct (Hok eq_refl) as (_ & Hget & _). exact Hget.
Defined.

(** X21.  Through a [NamespacedStore] over the legacy store, a [set] that
    may overwrite succeeds and the key reads back through the namespace;
    the inner store holds the value under [ns:key] and its entry under the
    bare key is as before; and a namespace of another name reads the same
    as before, provided neither name has a colon. *)
Theorem namespaced_store_isolates :
  forall (V : Type) (ns key : string) (v : V) (options : Core.SetOptions)
         (o : Core.GetOptions V) (now t : Z) (m : InMemoryStore.t V),
    Core.isFalse (Core.overwrite options) = false ->
    let st := NamespacedStore.mkStore m ns in
    let out := NamespacedStore.set key v options now st in
    let m' := NamespacedStore.inner (snd out) in
    fst out = Core.Ok tt /\
    fst (NamespacedStore.get key o t (snd out)) = Core.Ok (Some v) /\
    JsMap.get (NamespacedStore.k ns key) m' = Some v /\
    JsMap.get key m' = JsMap.get key m /\
    (forall ns' key',
       colonFree ns = true -> colonFree ns' = true -> ns <> ns' ->
       fst (NamespacedStore.get key' o t (NamespacedStore.mkStore m' ns')) =
       fst (NamespacedStore.get key' o t (NamespacedStore.mkStore m ns'))).
Proof.
  intros V ns key v options o now t m Hov st out m'.
  assert (Hset : InMemoryStore.set (NamespacedStore.k ns key) v options now m =
                 (Core.Ok tt,
                  JsMap.set (NamespacedStore.k ns key) v m)).
  { apply legacy_set_ok. rewrite Hov. apply andb_false_r. }
  assert (Hm' : m' = JsMap.set (NamespacedStore.k ns key) v m).
  { subst m' out st. unfold NamespacedStore.set, NamespacedStore.lift.
    cbn [NamespacedStore.inner NamespacedStore.ns].
    change (@Core.set V _ InMemoryStore.store) with (@InMemoryStore.set V).
    now rewrite Hset. }
  split.
  { subst out st. unfold NamespacedStore.set, NamespacedStore.lift.
    cbn [NamespacedStore.inner NamespacedStore.ns].
    change (@Core.set V _ InMemoryStore.store) with (@InMemoryStore.set V).
    now rewrite Hset. }
  assert (Hget : forall n k0 (mm : InMemoryStore.t V),
            fst (NamespacedStore.get k0 o t (NamespacedStore.mkStore mm n)) =
            Core.Ok (match JsMap.get (NamespacedStore.k n k0) mm with
                     | Some x => Some x
                     | None => Core.defaultValue o
                     end)).
  { intros. reflexivity. }
  split.
  { assert (Hsnd : snd out = NamespacedStore.mkStore m' ns).
    { subst m' out st. unfold NamespacedStore.set, NamespacedStore.lift.
      cbn [NamespacedStore.inner NamespacedStore.ns].
      now destruct (Core.set _ v options now m). }
    rewrite Hsnd, Hget, Hm', JsMap_get_set_eq. reflexivity. }
  split; [rewrite Hm'; apply JsMap_get_set_eq|].
  split.
  { rewrite Hm'. apply JsMap_get_set_ne. intros H. symmetry in H.
    now apply k_longer in H. }
  intros ns' key' Hf Hf' Hne. rewrite !Hget, Hm'.
  rewrite JsMap_get_set_ne; auto.
  intros Heq. apply Hne. symmetry.
  now apply (k_disjoint ns' ns key' key).
Qed.

Lemma namespaced_store_isolates_witness :
  let st := NamespacedStore.mkStore (InMemoryStore.create (V := Z))
              "test-ns"%string in
  let out := NamespacedStore.set "key"%string 5 Core.noSetOptions 0 st in
  fst (NamespacedStore.get "key"%string Core.noGetOptions 0 (snd out)) =
    Core.Ok (Some 5) /\
  JsMap.get "test-ns:key"%string (NamespacedStore.inner (snd out)) = Some 5 /\
  JsMap.get "key"%string (NamespacedStore.inner (snd out)) = None.
Proof.
  intros st out.
  destruct (namespaced_store_isolates Z "test-ns"%string "key"%string 5
              Core.noSetOptions Core.noGetOptions 0 0 InMemoryStore.create
              eq_refl) as (_ & Hget & Hin & Hbare & _).
  split; [exact Hget|]. split; [exact Hin|exact Hbare].
Defined.

(** X22.  [mset] through a [NamespacedStore] over the legacy store, with
    no operation forbidding overwriting, answers the keys as the caller
    gave them, in order, without the namespace prefix, and reports no
    failure. *)
Theorem namespaced_mset_reports_caller_keys :
  forall (V : Type) (ns : string)
         (operations : list (Core.BatchSetOperation V)) (now : Z)
         (m : InMemoryStore.t V),
    (forall op, In op operations ->
       Core.isFalse (Core.overwrite (Core.op_options op)) = false) ->
    fst (NamespacedStore.mset operations now (NamespacedStore.mkStore m ns)) =
    Core.Ok (Core.mkBatchResult (List.map Core.op_key operations) []).
Proof.
  intros V ns operations now m Hall.
  unfold NamespacedStore.mset, NamespacedStore.lift.
  cbn [NamespacedStore.inner NamespacedStore.ns].
  change (@Core.mset V _ InMemoryStore.store) with (@InMemoryStore.mset V).
  unfold InMemoryStore.mset.
  pose proof (legacy_msetLoop_all
                (List.map (fun op => Core.mkBatchSetOperation
                                       (NamespacedStore.k ns (Core.op_key op))
                                       (Core.op_value op) (Core.op_options op))
                          operations) now m) as H.
  destruct (InMemoryStore.msetLoop _ now m) as [br s].
  cbn [fst] in *. rewrite H.
  - cbn. f_equal. f_equal. rewrite !map_map. cbn.
    apply map_ext. intros op. apply unk_k.
  - intros op Hin. apply in_map_iff in Hin.
    destruct Hin as (op0 & <- & Hin0). cbn. now apply Hall.
Qed.

Lemma namespaced_mset_reports_caller_keys_witness :
  fst (NamespacedStore.mset
         [Core.mkBatchSetOperation "a"%string 1 Core.noSetOptions;
          Core.mkBatchSetOperation "b"%string 2 Core.noSetOptions]
         0 (NamespacedStore.mkStore (InMemoryStore.create (V := Z))
              "test-ns"%string)) =
  Core.Ok (Core.mkBatchResult ["a"; "b"]%string []).
Proof.
  apply (namespaced_mset_reports_caller_keys Z).
  intros op [<-|[<-|[]]]; reflexivity.
Defined.

(** ** More of the fetch orchestration *)

Section FirstTryFacts.
Import Core CacheItem.
Context {V St : Type} `{Store : IKeyValueStore V St}.

Variables (cfg : GlobalConfig) (input : CacheItemInput (V := V)) (w : World St).

Let o := options input.
Let ttl := nullish (ttlMs o) (nullish (defaultTtlMs cfg) (5 * 60 * 1000)).
Let s1 := snd (initialGet input w).
Let out := cacheItem cfg input w.

(** A miss whose first fetch succeeds: one fetcher call, no delay, one
    [set] of the fetched value at the same instant. *)
Lemma cacheItem_first_try (v : V) :
  isHit (fst (initialGet input w)) = false ->
  0 <= nullish (maxRetries o) 2 ->
  fetcher input (fetcherCalls w) = Ok v ->
  let p := Core.set (key input) v (mkSetOptions (Some ttl) (Some true))
             (clock w) s1 in
  snd out = mkWorld (snd p) (S (fetcherCalls w)) (clock w) (timers w) /\
  match fst p with
  | Ok _ =>
      fst out = Ok (mkCacheResult v false (mkMetadata 0 false false 0))
  | Err e =>
      if negb (nullish (storeOnError o) false)
      then fst out = Ok (mkCacheResult v false (mkMetadata 0 false false 0))
      else fst out = Err (createCacheError STORE_FAILED
                            (StoreContext (key input) e))
  end.
Proof.
  intros Hmiss Hm Hf p.
  destruct (cacheItem_miss cfg input w Hmiss)
    as (ls & w2 & _ & Hst & Hloop & Hfinish).
  fold o in Hloop, Hfinish, Hm. fold out in Hfinish.
  destruct Hloop as [(j & x & Hfail & Hok & _ & Hls & Hc & Ht & Hk)
                    |(Hfail & _)].
  - cbn in Hfail, Hok, Hls, Hc, Ht, Hk.
    destruct j as [|j].
    + rewrite Nat.add_0_r in Hok, Hc. rewrite Hf in Hok. injection Hok as <-.
      cbn in Ht, Hk. rewrite app_nil_r in Ht.
      assert (Hw2 : w2 = mkWorld s1 (S (fetcherCalls w)) (clock w) (timers w)).
      { destruct w2 as [a b c d]. cbn in *. subst. f_equal. lia. }
      subst ls. cbn [ls_fetchResult ls_retryAttempted ls_retryCount]
        in Hfinish.
      cbv zeta in Hfinish. rewrite Hw2 in Hfinish.
      cbn [store clock withStore fetcherCalls timers] in Hfinish.
      fold ttl in Hfinish. fold p in Hfinish.
      replace (clock w - clock w) with 0 in Hfinish by lia.
      destruct Hfinish as [Hsnd Hres]. split; [exact Hsnd|exact Hres].
    + specialize (Hfail O ltac:(lia)). rewrite Nat.add_0_r, Hf in Hfail.
      discriminate.
  - cbn in Hfail. rewrite Z.sub_0_r in Hfail.
    specialize (Hfail O ltac:(lia)). rewrite Nat.add_0_r, Hf in Hfail.
    discriminate.
Qed.

End FirstTryFacts.

(** X23.  On a hit, [cacheItem] returns the stored value with
    [fromCache = true], [cacheHit = true], [retryAttempted = false] and
    [retryCount = 0]; it does not invoke the fetcher, starts no timer, and
    makes one call to the store, the [get]. *)
Theorem cacheItem_hit_skips_fetcher :
  forall (V St : Type) (Store : Core.IKeyValueStore V St)
         (cfg : CacheItem.GlobalConfig)
         (input : CacheItem.CacheItemInput (V := V))
         (w : CacheItem.World (Recorder.t V St)) (v : V),
    fst (initialGet input w) = Core.Ok (Some v) ->
    let out := CacheItem.cacheItem cfg input w in
    (exists ms,
       fst out = Core.Ok (CacheItem.mkCacheResult v true
                            (CacheItem.mkMetadata ms true false 0))) /\
    CacheItem.fetcherCalls (snd out) = CacheItem.fetcherCalls w /\
    CacheItem.timers (snd out) = CacheItem.timers w /\
    Recorder.journal (CacheItem.store (snd out)) =
    Recorder.journal (CacheItem.store w) ++
    [Recorder.CallGet (CacheItem.key input)
       (Core.mkGetOptions
          (Some (Core.nullish
                   (CacheItem.refreshTtl (CacheItem.options input)) false))
          None)].
Proof.
  intros V St Store cfg input w v Hhit out.
  pose proof (cacheItem_hit cfg input w v Hhit) as Hout. fold out in Hout.
  rewrite Hout. cbn [fst snd CacheItem.withStore CacheItem.fetcherCalls
                     CacheItem.timers CacheItem.store].
  split; [eauto|]. split; [reflexivity|]. split; [reflexivity|].
  cbn. unfold Recorder.forward.
  destruct (Core.get _ _ _ (Recorder.inner (CacheItem.store w))).
  reflexivity.
Qed.

Lemma cacheItem_hit_skips_fetcher_witness :
  let w := CacheItem.mkWorld (Recorder.wrap Sample.engineWithK) 0 5 [] in
  let input := CacheItem.mkCacheItemInput "k"%string SampleFetch.alwaysFails
                 CacheItem.noOptions in
  let out := CacheItem.cacheItem (CacheItem.mkGlobalConfig None) input w in
  CacheItem.fetcherCalls (snd out) = 0%nat /\
  exists ms,
    fst out = Core.Ok (CacheItem.mkCacheResult 42 true
                         (CacheItem.mkMetadata ms true false 0)).
Proof.
  intros w input out.
  assert (Hhit : fst (initialGet input w) = Core.Ok (Some 42))
    by (vm_compute; reflexivity).
  destruct (cacheItem_hit_skips_fetcher Z Sample.Engine _
              (CacheItem.mkGlobalConfig None) input w 42 Hhit)
    as (Hr & Hc & _).
  split; [exact Hc|exact Hr].
Defined.

(** X24.  Over the engine: when [cacheItem] misses, its first fetch
    returns [v], [v] can be sized and the TTL in force is not negative, the
    result is [v] with [fromCache = false] after one fetcher call; and a
    second [cacheItem] for the key, with any fetcher, before the TTL has
    run out, returns [v] with [fromCache = true] and invokes no fetcher. *)
Theorem cacheItem_fetch_then_hit :
  forall (V : Type) (JV : Core.JsonValue V)
         (cfg : CacheItem.GlobalConfig)
         (input input2 : CacheItem.CacheItemInput (V := V))
         (w : CacheItem.World (EnhancedMemoryStore.t V))
         (v : V) (n t' : Z),
    let o := CacheItem.options input in
    let ttl := Core.nullish (CacheItem.ttlMs o)
                 (Core.nullish (CacheItem.defaultTtlMs cfg) (5 * 60 * 1000)) in
    isHit (fst (initialGet input w)) = false ->
    0 <= Core.nullish (CacheItem.maxRetries o) 2 ->
    CacheItem.fetcher input (CacheItem.fetcherCalls w) = Core.Ok v ->
    Core.jsonLength v = Some n ->
    CacheItem.key input2 = CacheItem.key input ->
    (ttl = 0 \/ t' < CacheItem.clock w + ttl) ->
    let out := CacheItem.cacheItem cfg input w in
    let w' := CacheItem.mkWorld (CacheItem.store (snd out))
                (CacheItem.fetcherCalls (snd out)) t'
                (CacheItem.timers (snd out)) in
    let out2 := CacheItem.cacheItem cfg input2 w' in
    fst out = Core.Ok (CacheItem.mkCacheResult v false
                         (CacheItem.mkMetadata 0 false false 0)) /\
    CacheItem.fetcherCalls (snd out) = S (CacheItem.fetcherCalls w) /\
    (exists ms,
       fst out2 = Core.Ok (CacheItem.mkCacheResult v true
                             (CacheItem.mkMetadata ms true false 0))) /\
    CacheItem.fetcherCalls (snd out2) = S (CacheItem.fetcherCalls w).
Proof.
  intros V JV cfg input input2 w v n t' o ttl Hmiss Hm Hf Hn Hkey Httl
         out w' out2.
  destruct (cacheItem_first_try cfg input w v Hmiss Hm Hf) as [Hsnd Hres].
  fold o ttl out in Hsnd, Hres. cbv zeta in Hsnd, Hres.
  change (@Core.set V _ EnhancedMemoryStore.store)
    with (@EnhancedMemoryStore.set V JV) in Hsnd, Hres.
  destruct (set_stores (CacheItem.key input) v
              (Core.mkSetOptions (Some ttl) (Some true)) (CacheItem.clock w)
              (snd (initialGet input w)) n Hn eq_refl) as [Hok Hentry].
  rewrite Hok in Hres.
  split; [exact Hres|].
  split; [now rewrite Hsnd|].
  assert (Hhit : fst (initialGet input2 w') = Core.Ok (Some v)).
  { subst w'. rewrite Hsnd. unfold initialGet.
    cbn [CacheItem.store CacheItem.clock]. rewrite Hkey.
    change (@Core.get V _ EnhancedMemoryStore.store)
      with (@EnhancedMemoryStore.get V).
    rewrite (get_live _ _ _ _ _ Hentry); [reflexivity|].
    unfold EnhancedMemoryStore.isExpired. cbn.
    destruct (ttl =? 0) eqn:E; cbn; auto.
    apply Z.eqb_neq in E. apply Z.leb_gt. lia. }
  pose proof (cacheItem_hit cfg input2 w' v Hhit) as Hout2.
  fold out2 in Hout2. rewrite Hout2. cbn [fst snd].
  split; [eauto|].
  subst w'. cbn. now rewrite Hsnd.
Qed.

Lemma cacheItem_fetch_then_hit_witness :
  let input := CacheItem.mkCacheItemInput "test"%string
                 (fun _ => Core.Ok 42) CacheItem.noOptions in
  let input2 := CacheItem.mkCacheItemInput "test"%string
                  SampleFetch.alwaysFails CacheItem.noOptions in
  let out := CacheItem.cacheItem (CacheItem.mkGlobalConfig None) input
               SampleFetch.freshWorld in
  let w' := CacheItem.mkWorld (CacheItem.store (snd out))
              (CacheItem.fetcherCalls (snd out)) 1000
              (CacheItem.timers (snd out)) in
  let out2 := CacheItem.cacheItem (CacheItem.mkGlobalConfig None) input2 w' in
  (exists ms,
     fst out2 = Core.Ok (CacheItem.mkCacheResult 42 true
                           (CacheItem.mkMetadata ms true false 0))) /\
  CacheItem.fetcherCalls (snd out2) = 1%nat.
Proof.
  intros input input2 out w' out2.
  assert (Hm : 0 <= 2) by lia.
  assert (Httl : 300000 = 0 \/ 1000 < 0 + 300000) by (right; lia).
  destruct (cacheItem_fetch_then_hit Z _ (CacheItem.mkGlobalConfig None)
              input input2 SampleFetch.freshWorld 42 2 1000
              eq_refl Hm eq_refl eq_refl eq_refl Httl)
    as (_ & _ & Hr & Hc).
  split; [exact Hr|exact Hc].
Defined.

(** X25.  What [cacheItem] does when the store refuses the fetched value:
    on a miss (a failed initial [get] counts as one) whose first fetch
    returns [v], if [store.set] answers the error [e] the fetcher has still
    been invoked once, and the result is [Ok] with [v], not from the cache,
    unless [storeOnError] is true, in which case it is [STORE_FAILED]
    carrying [e]. *)
Theorem cacheItem_store_failure_policy :
  forall (V St : Type) (Store : Core.IKeyValueStore V St)
         (cfg : CacheItem.GlobalConfig)
         (input : CacheItem.CacheItemInput (V := V))
         (w : CacheItem.World St) (v : V) (e : Core.StoreError),
    let o := CacheItem.options input in
    let ttl := Core.nullish (CacheItem.ttlMs o)
                 (Core.nullish (CacheItem.defaultTtlMs cfg) (5 * 60 * 1000)) in
    isHit (fst (initialGet input w)) = false ->
    0 <= Core.nullish (CacheItem.maxRetries o) 2 ->
    CacheItem.fetcher input (CacheItem.fetcherCalls w) = Core.Ok v ->
    fst (Core.set (CacheItem.key input) v
           (Core.mkSetOptions (Some ttl) (Some true)) (CacheItem.clock w)
           (snd (initialGet input w))) = Core.Err e ->
    let out := CacheItem.cacheItem cfg input w in
    CacheItem.fetcherCalls (snd out) = S (CacheItem.fetcherCalls w) /\
    CacheItem.timers (snd out) = CacheItem.timers w /\
    fst out =
    if Core.nullish (CacheItem.storeOnError o) false
    then Core.Err (CacheItem.createCacheError CacheItem.STORE_FAILED
                     (CacheItem.StoreContext (CacheItem.key input) e))
    else Core.Ok (CacheItem.mkCacheResult v false
                    (CacheItem.mkMetadata 0 false false 0)).
Proof.
  intros V St Store cfg input w v e o ttl Hmiss Hm Hf Hset out.
  destruct (cacheItem_first_try cfg input w v Hmiss Hm Hf) as [Hsnd Hres].
  fold o ttl out in Hsnd, Hres. cbv zeta in Hsnd, Hres.
  rewrite Hset in Hres. rewrite Hsnd.
  split; [reflexivity|]. split; [reflexivity|].
  destruct (Core.nullish (CacheItem.storeOnError o) false); exact Hres.
Qed.

Lemma cacheItem_store_failure_policy_witness :
  let w : CacheItem.World (EnhancedMemoryStore.t (option Z)) :=
    CacheItem.mkWorld
      (EnhancedMemoryStore.create EnhancedMemoryStore.noConfig) 0 0 [] in
  let input := CacheItem.mkCacheItemInput "u"%string
                 (fun _ => Core.Ok None)
                 (CacheItem.mkCacheItemOptions None None None (Some true)
                    None None) in
  let out := CacheItem.cacheItem (CacheItem.mkGlobalConfig None) input w in
  CacheItem.fetcherCalls (snd out) = 1%nat /\
  exists e,
    fst out = Core.Err (CacheItem.createCacheError CacheItem.STORE_FAILED
                          (CacheItem.StoreContext "u"%string e)).
Proof.
  intros w input out.
  assert (Hm : 0 <= 2) by lia.
  pose proof (cacheItem_store_failure_policy (option Z) _ _
                (CacheItem.mkGlobalConfig None) input w None) as H.
  cbv zeta in H.
  edestruct H as (Hc & _ & Hr);
    [reflexivity|exact Hm|reflexivity|vm_compute; reflexivity|].
  split; [exact Hc|]. eexists. exact Hr.
Defined.

Section InvalidationFacts.
Import Core CacheItem.
Context {V : Type} `{JV : JsonValue V}.

Lemma engine_delete_absent (key : string) (now : Z)
  (st : EnhancedMemoryStore.t V) :
  JsMap.get key
    (EnhancedMemoryStore.map (snd (EnhancedMemoryStore.delete key now st)))
  = None.
Proof.
  unfold EnhancedMemoryStore.delete.
  destruct (JsMap.get key (EnhancedMemoryStore.map st)) eqn:E; cbn; auto.
  apply JsMap_get_delete_eq.
Qed.

Lemma simpleCacheItem_spec (cfg : GlobalConfig)
  (input : CacheItemInput (V := V)) (w : World (EnhancedMemoryStore.t V)) :
  simpleCacheItem cfg input w =
  (match fst (cacheItem cfg input w) with
   | Ok r => Ok (value r)
   | Err e => Err e
   end, snd (cacheItem cfg input w)).
Proof.
  unfold simpleCacheItem.
  destruct (cacheItem cfg input w) as [[r|e] w']; reflexivity.
Qed.

End InvalidationFacts.

(** X26.  [cacheWithInvalidation] over the engine, for a key whose entry
    has not expired: when the entry's age [now - createdAt] is at most
    [invalidateAfterMs] the stored value is returned and the fetcher is not
    invoked; when it is older the entry is deleted first, so the fetcher is
    invoked and, its first call returning a sizeable [v], the result is
    [v], which is what the store holds afterwards. *)
Theorem cacheWithInvalidation_refetches_old_entries :
  forall (V : Type) (JV : Core.JsonValue V)
         (cfg : CacheItem.GlobalConfig)
         (input : CacheItem.CacheItemInput (V := V))
         (invalidateAfterMs : Z)
         (w : CacheItem.World (EnhancedMemoryStore.t V))
         (entry : EnhancedMemoryStore.InMemoryEntry V),
    JsMap.get (CacheItem.key input)
      (EnhancedMemoryStore.map (CacheItem.store w)) = Some entry ->
    EnhancedMemoryStore.isExpired (CacheItem.clock w) entry = false ->
    let age := CacheItem.clock w
               - Core.createdAt (EnhancedMemoryStore.metadata entry) in
    let out := CacheItem.cacheWithInvalidation cfg input invalidateAfterMs w in
    (age <= invalidateAfterMs ->
     fst out = Core.Ok (EnhancedMemoryStore.value entry) /\
     CacheItem.fetcherCalls (snd out) = CacheItem.fetcherCalls w) /\
    (forall v n,
       invalidateAfterMs < age ->
       0 <= Core.nullish (CacheItem.maxRetries (CacheItem.options input)) 2 ->
       CacheItem.fetcher input (CacheItem.fetcherCalls w) = Core.Ok v ->
       Core.jsonLength v = Some n ->
       fst out = Core.Ok v /\
       CacheItem.fetcherCalls (snd out) = S (CacheItem.fetcherCalls w) /\
       exists entry',
         JsMap.get (CacheItem.key input)
           (EnhancedMemoryStore.map (CacheItem.store (snd out)))
         = Some entry' /\
         EnhancedMemoryStore.value entry' = v /\
         Core.createdAt (EnhancedMemoryStore.metadata entry')
         = CacheItem.clock w).
Proof.
  intros V JV cfg input inv w entry Hget Hlive age out.
  subst out. unfold CacheItem.cacheWithInvalidation.
  change (@Core.getWithMetadata V _ EnhancedMemoryStore.metadataStore)
    with (@EnhancedMemoryStore.getWithMetadata V).
  unfold EnhancedMemoryStore.getWithMetadata. rewrite Hget, Hlive.
  unfold CacheItem.withStore.
  cbn [CacheItem.clock CacheItem.store CacheItem.fetcherCalls
       CacheItem.timers Core.sv_metadata Core.sv_value].
  fold age.
  split.
  - intros Hage.
    replace (age >? inv) with false by (symmetry; rewrite Z.gtb_ltb; apply Z.ltb_ge; lia).
    rewrite simpleCacheItem_spec.
    match goal with |- context [CacheItem.cacheItem cfg input ?w1] =>
      set (w1' := w1) end.
    assert (Hhit : fst (initialGet input w1')
                   = Core.Ok (Some (EnhancedMemoryStore.value entry))).
    { unfold initialGet.
      change (@Core.get V _ EnhancedMemoryStore.store)
        with (@EnhancedMemoryStore.get V).
      apply get_live; [exact Hget|exact Hlive]. }
    rewrite (cacheItem_hit cfg input w1' _ Hhit). cbn.
    split; reflexivity.
  - intros v n Hage Hm Hf Hn.
    replace (age >? inv) with true by (symmetry; rewrite Z.gtb_ltb; apply Z.ltb_lt; lia).
    change (@Core.delete V _ EnhancedMemoryStore.store)
      with (@EnhancedMemoryStore.delete V).
    match goal with
    | |- context [EnhancedMemoryStore.delete ?k ?t ?s] =>
        pose proof (engine_delete_absent k t s) as Habs;
        destruct (EnhancedMemoryStore.delete k t s) as [r s2]
    end.
    cbn [snd] in Habs. unfold CacheItem.withStore.
    cbn [CacheItem.clock CacheItem.store CacheItem.fetcherCalls
         CacheItem.timers].
    rewrite simpleCacheItem_spec.
    match goal with |- context [CacheItem.cacheItem cfg input ?w2] =>
      set (w2' := w2) end.
    assert (Hmiss : isHit (fst (initialGet input w2')) = false).
    { unfold initialGet.
      change (@Core.get V _ EnhancedMemoryStore.store)
        with (@EnhancedMemoryStore.get V).
      subst w2'. cbn [CacheItem.clock CacheItem.store].
      unfold EnhancedMemoryStore.get. rewrite Habs. reflexivity. }
    destruct (cacheItem_first_try cfg input w2' v Hmiss Hm Hf)
      as [Hsnd Hres].
    cbv zeta in Hsnd, Hres.
    change (@Core.set V _ EnhancedMemoryStore.store)
      with (@EnhancedMemoryStore.set V JV) in Hsnd, Hres.
    match type of Hsnd with
    | _ = CacheItem.mkWorld
            (snd (EnhancedMemoryStore.set ?k ?x ?so ?t ?s)) _ _ _ =>
        destruct (set_stores k x so t s n Hn eq_refl) as [Hok Hentry]
    end.
    rewrite Hok in Hres. rewrite Hres, Hsnd.
    cbn [fst snd CacheItem.value CacheItem.fetcherCalls CacheItem.store].
    split; [reflexivity|]. split; [reflexivity|].
    eexists. split; [exact Hentry|]. split; reflexivity.
Qed.

Lemma cacheWithInvalidation_refetches_old_entries_witness :
  let input := CacheItem.mkCacheItemInput "k"%string (fun _ => Core.Ok 7)
                 CacheItem.noOptions in
  let w := CacheItem.mkWorld Sample.engineWithK 0 500 [] in
  fst (CacheItem.cacheWithInvalidation (CacheItem.mkGlobalConfig None)
         input 1000 w) = Core.Ok 42 /\
  fst (CacheItem.cacheWithInvalidation (CacheItem.mkGlobalConfig None)
         input 100 w) = Core.Ok 7.
Proof.
  intros input w.
  assert (Hget : JsMap.get "k"%string
                   (EnhancedMemoryStore.map Sample.engineWithK)
                 = Some (EnhancedMemoryStore.mkEntry 42
                           (Core.mkValueMetadata 0 0 None 4 1)))
    by reflexivity.
  split.
  - destruct (cacheWithInvalidation_refetches_old_entries Z _
                (CacheItem.mkGlobalConfig None) input 1000 w _ Hget eq_refl)
      as [Hyoung _].
    apply Hyoung. cbn. lia.
  - destruct (cacheWithInvalidation_refetches_old_entries Z _
                (CacheItem.mkGlobalConfig None) input 100 w _ Hget eq_refl)
      as [_ Hold].
    refine (proj1 (Hold 7 1 _ _ eq_refl eq_refl)); cbn; lia.
Defined.

(** ** [ResultUtils.all] *)

Section ResultFacts.
Import Core.
Context {T E : Type}.

Lemma allFrom_oks (ws : list T) (rest : list (Result T E)) (acc : list T) :
  allFrom (List.map Ok ws ++ rest) acc = allFrom rest (acc ++ ws).
Proof.
  revert acc. induction ws as [|x ws IH]; intros acc; cbn.
  - now rewrite app_nil_r.
  - rewrite IH, <- app_assoc. reflexivity.
Qed.

Lemma results_split (results : list (Result T E)) :
  (exists ws, results = List.map Ok ws) \/
  (exists ws e rest, results = List.map Ok ws ++ Err e :: rest).
Proof.
  induction results as [|[x|e] rest IH].
  - left. now exists [].
  - destruct IH as [(ws & ->)|(ws & e & rest' & ->)].
    + left. now exists (x :: ws).
    + right. now exists (x :: ws), e, rest'.
  - right. now exists [], e, rest.
Qed.

Lemma map_Ok_injective (vs ws : list T) :
  List.map (@Ok T E) vs = List.map Ok ws -> vs = ws.
Proof.
  revert ws. induction vs as [|x vs IH]; intros [|y ws]; cbn;
    try discriminate; auto.
  intros H. injection H as -> H. f_equal. auto.
Qed.

End ResultFacts.

(** X6.  [ResultUtils.all] answers [Ok vs] exactly when every result is
    [Ok], [vs] being their values in order; otherwise it answers the first
    error in the list, whatever follows it. *)
Theorem all_collects_or_first_error :
  forall (T E : Type) (results : list (Core.Result T E)),
    (forall vs, Core.all results = Core.Ok vs <->
                results = List.map Core.Ok vs) /\
    (forall e, Core.all results = Core.Err e <->
               exists ws rest,
                 results = List.map Core.Ok ws ++ Core.Err e :: rest).
Proof.
  intros T E results. unfold Core.all.
  destruct (results_split results) as [(ws & ->)|(ws & e0 & rest & ->)].
  - pose proof (allFrom_oks ws (@nil (Core.Result T E)) []) as H.
    rewrite app_nil_r in H. rewrite H. cbn.
    split.
    + intros vs. split.
      * intros [= <-]. reflexivity.
      * intros H1. apply map_Ok_injective in H1. now subst.
    + intros e. split; [discriminate|].
      intros (ws' & rest & H1). exfalso.
      revert ws' H1. induction ws as [|x ws IH]; intros [|y ws'] H1;
        cbn in H1; try discriminate.
      injection H1 as _ H1.
      eapply IH; [|exact H1].
      pose proof (allFrom_oks ws (@nil (Core.Result T E)) []) as H2.
      now rewrite app_nil_r in H2.
  - rewrite allFrom_oks. cbn.
    split.
    + intros vs. split; [discriminate|].
      intros H1. exfalso.
      revert vs H1. induction ws as [|x ws IH]; intros [|y vs] H1;
        cbn in H1; try discriminate.
      injection H1 as _ H1. eauto.
    + intros e. split.
      * intros [= <-]. eauto.
      * intros (ws' & rest' & H1). f_equal.
        revert ws' H1. induction ws as [|x ws IH]; intros [|y ws'] H1;
          cbn in H1; try discriminate.
        -- now injection H1.
        -- injection H1 as _ H1. eauto.
Qed.

Lemma all_collects_or_first_error_witness :
  Core.all [Core.Ok 1; Core.Ok 2] = @Core.Ok (list Z) string [1; 2] /\
  Core.all [Core.Ok 1; Core.Err "e"; Core.Ok 3; Core.Err "f"]%string
  = @Core.Err (list Z) string "e"%string.
Proof.
  split.
  - apply (proj1 (all_collects_or_first_error Z string _)). reflexivity.
  - apply (proj2 (all_collects_or_first_error Z string _)).
    exists [1], [Core.Ok 3; Core.Err "f"%string]. reflexivity.
Defined.
